(** * Que Bella: the row-level security schema and the journal client

    A shallow embedding of the two halves of [frontend/src/App.js]:

    - the PostgreSQL migration (tables, UNIQUE constraints, row-level
      security policies, the invite-code trigger), and
    - the React client: the handlers [saveJournalEntry],
      [generateReflection] and [invitePartner] of the [JournalApp]
      component, the [AuthProvider], and [handleSubmit] of the [AuthForm]
      that [AuthFlow] mounts and unmounts.

    Conventions for the SQL half.  Nullable columns are [option]s, NOT NULL
    columns are plain values.  Policy expressions are evaluated in SQL's
    three-valued logic ([sqlbool], [None] is NULL); a policy admits a row
    only when its expression is TRUE.  Row security is enabled on every
    table, all policies are PERMISSIVE (the default), so the policies that
    apply to a command are OR-ed and a command without any policy is denied.
    A statement is first rewritten, the policies added to it and to the
    sub-selects they contain, and then run; the rewriter refuses a
    statement whose policies lead back to a relation whose policies it is
    adding.  A session is a request made under one of the roles the
    policies apply to; a role that bypasses row security is not a session
    of this model. *)

From Stdlib Require Import Bool List String Ascii NArith ZArith QArith Qround Qpower Qabs Lia Lqa.
From Stdlib Require Import DecimalString DecimalN Permutation.
Import ListNotations.
Open Scope string_scope.
Open Scope list_scope.
Close Scope Q_scope.

(** ** SQL values and three-valued logic *)

Definition uuid := N.
Definition text := string.
Definition date := Z.
Definition timestamptz := Z.

Definition sqlbool := option bool.

Definition is_true (b : sqlbool) : bool :=
  match b with Some true => true | _ => false end.

Definition sql_or (a b : sqlbool) : sqlbool :=
  match a, b with
  | Some true, _ | _, Some true => Some true
  | Some false, Some false => Some false
  | _, _ => None
  end.

Definition sql_and (a b : sqlbool) : sqlbool :=
  match a, b with
  | Some false, _ | _, Some false => Some false
  | Some true, Some true => Some true
  | _, _ => None
  end.

Definition sql_eq {A} (eqb : A -> A -> bool) (x y : option A) : sqlbool :=
  match x, y with
  | Some a, Some b => Some (eqb a b)
  | _, _ => None
  end.

(** [x = ANY (elements)] and [x IN (sub-select)]: the OR of the
    comparisons, FALSE on no element. *)
Definition sql_in {A} (eqb : A -> A -> bool) (x : option A)
    (elems : list (option A)) : sqlbool :=
  fold_right (fun e acc => sql_or (sql_eq eqb x e) acc) (Some false) elems.

(** [x = ANY (arr)] for an array column, NULL when the array is NULL. *)
Definition sql_any {A} (eqb : A -> A -> bool) (x : option A)
    (arr : option (list (option A))) : sqlbool :=
  match arr with
  | None => None
  | Some elems => sql_in eqb x elems
  end.

(** ** The requesting session: [auth.uid()] and [auth.role()] *)

Record session := { auth_uid : option uuid; auth_role : text }.

(** ** Tables *)

(** The values the CHECK on [entry_type] admits: 'journal' and 'mood'. *)
Inductive entry_type_t := journal | mood_kind.

Definition entry_type_eqb (a b : entry_type_t) : bool :=
  match a, b with
  | journal, journal | mood_kind, mood_kind => true
  | _, _ => false
  end.

Module profiles.
Record row := {
  id : uuid;                       (* UUID PRIMARY KEY *)
  email : text;                    (* TEXT UNIQUE NOT NULL *)
  full_name : option text;
  invite_code : option text;       (* TEXT UNIQUE *)
  partner_id : option uuid;        (* REFERENCES profiles(id) *)
  allow_read_receipts : option bool;
  created_at : option timestamptz;
  updated_at : option timestamptz
}.
End profiles.

Module journal_entries.
Record row := {
  id : uuid;
  user_id : uuid;                  (* NOT NULL REFERENCES profiles(id) *)
  content : text;
  date : date;
  mood : option text;
  audio_url : option text;
  shared_with : option (list (option uuid));   (* UUID[] DEFAULT '{}' *)
  created_at : option timestamptz;
  updated_at : option timestamptz
}.
End journal_entries.

Module mood_entries.
Record row := {
  id : uuid;
  user_id : uuid;
  mood : text;
  date : date;
  shared_with : option (list (option uuid));
  created_at : option timestamptz
}.
End mood_entries.

Module shared_reflections.
Record row := {
  id : uuid;
  date : date;
  user_ids : list (option uuid);   (* UUID[] NOT NULL *)
  reflection : text;
  created_at : option timestamptz
}.
End shared_reflections.

Module entry_access_logs.
Record row := {
  id : uuid;
  entry_id : uuid;
  entry_type : entry_type_t;       (* CHECK (entry_type IN ('journal','mood')) *)
  accessed_by : uuid;
  entry_owner : uuid;
  accessed_at : option timestamptz
}.
End entry_access_logs.

Module private_notes.
Record row := {
  id : uuid;
  user_id : uuid;
  entry_id : uuid;
  entry_type : entry_type_t;
  note_content : text;
  created_at : option timestamptz;
  updated_at : option timestamptz
}.
End private_notes.

(** An object of the platform's [storage.objects] relation: only the two
    columns the policies read. *)
Module storage_objects.
Record row := { bucket_id : text; name : text }.
End storage_objects.

(** ** Row-level security policies *)

Inductive command := ALL | SELECT | INSERT | UPDATE | DELETE.

Definition command_eqb (a b : command) : bool :=
  match a, b with
  | ALL, ALL | SELECT, SELECT | INSERT, INSERT
  | UPDATE, UPDATE | DELETE, DELETE => true
  | _, _ => false
  end.

(** A policy expression sees the stored profiles (for sub-selects), the
    session and the row. *)
Definition expr (row : Type) := list profiles.row -> session -> row -> sqlbool.

(** [pol_sublinks] names the relations the sub-selects of the policy's
    expressions read FROM, in the order they are written. *)
Record policy (row : Type) := {
  pol_name : string;
  pol_for : command;
  pol_sublinks : list string;
  pol_using : option (expr row);
  pol_with_check : option (expr row)
}.
Arguments pol_name {row}.
Arguments pol_for {row}.
Arguments pol_sublinks {row}.
Arguments pol_using {row}.
Arguments pol_with_check {row}.

Definition uid_is (s : session) (u : uuid) : sqlbool :=
  sql_eq N.eqb (auth_uid s) (Some u).

Definition role_is (s : session) (r : text) : sqlbool :=
  Some (String.eqb (auth_role s) r).

(** *** profiles *)

(** [SELECT partner_id FROM profiles WHERE id = auth.uid()]: the rows the
    sub-select yields over the profiles it is given.  A statement whose
    policies contain it gets that far only when the rewriter lets it
    through, see [row_security]. *)
Definition partner_of_requester (profs : list profiles.row) (s : session)
    : list (option uuid) :=
  map profiles.partner_id
      (filter (fun p => is_true (sql_eq N.eqb (Some (profiles.id p)) (auth_uid s)))
              profs).

Definition Users_can_view_own_and_partner_profile : policy profiles.row :=
  {| pol_name := "Users can view own and partner profile";
     pol_for := SELECT;
     pol_sublinks := ["profiles"];
     pol_using := Some (fun profs s r =>
       sql_or (sql_or (uid_is s (profiles.id r))
                      (sql_eq N.eqb (auth_uid s) (profiles.partner_id r)))
              (sql_in N.eqb (Some (profiles.id r)) (partner_of_requester profs s)));
     pol_with_check := None |}.

Definition Users_can_update_own_profile : policy profiles.row :=
  {| pol_name := "Users can update own profile";
     pol_for := UPDATE;
     pol_sublinks := [];
     pol_using := Some (fun _ s r => uid_is s (profiles.id r));
     pol_with_check := None |}.

Definition Users_can_insert_own_profile : policy profiles.row :=
  {| pol_name := "Users can insert own profile";
     pol_for := INSERT;
     pol_sublinks := [];
     pol_using := None;
     pol_with_check := Some (fun _ s r => uid_is s (profiles.id r)) |}.

Definition profiles_policies : list (policy profiles.row) :=
  [ Users_can_view_own_and_partner_profile;
    Users_can_update_own_profile;
    Users_can_insert_own_profile ].

(** *** journal_entries *)

Definition Users_can_view_own_and_shared_journal_entries
    : policy journal_entries.row :=
  {| pol_name := "Users can view own and shared journal entries";
     pol_for := SELECT;
     pol_sublinks := [];
     pol_using := Some (fun _ s r =>
       sql_or (uid_is s (journal_entries.user_id r))
              (sql_any N.eqb (auth_uid s) (journal_entries.shared_with r)));
     pol_with_check := None |}.

Definition Users_can_insert_own_journal_entries : policy journal_entries.row :=
  {| pol_name := "Users can insert own journal entries";
     pol_for := INSERT;
     pol_sublinks := [];
     pol_using := None;
     pol_with_check := Some (fun _ s r => uid_is s (journal_entries.user_id r)) |}.

Definition Users_can_update_own_journal_entries : policy journal_entries.row :=
  {| pol_name := "Users can update own journal entries";
     pol_for := UPDATE;
     pol_sublinks := [];
     pol_using := Some (fun _ s r => uid_is s (journal_entries.user_id r));
     pol_with_check := None |}.

Definition Users_can_delete_own_journal_entries : policy journal_entries.row :=
  {| pol_name := "Users can delete own journal entries";
     pol_for := DELETE;
     pol_sublinks := [];
     pol_using := Some (fun _ s r => uid_is s (journal_entries.user_id r));
     pol_with_check := None |}.

Definition journal_entries_policies : list (policy journal_entries.row) :=
  [ Users_can_view_own_and_shared_journal_entries;
    Users_can_insert_own_journal_entries;
    Users_can_update_own_journal_entries;
    Users_can_delete_own_journal_entries ].

(** *** mood_entries *)

Definition Users_can_view_own_and_shared_mood_entries : policy mood_entries.row :=
  {| pol_name := "Users can view own and shared mood entries";
     pol_for := SELECT;
     pol_sublinks := [];
     pol_using := Some (fun _ s r =>
       sql_or (uid_is s (mood_entries.user_id r))
              (sql_any N.eqb (auth_uid s) (mood_entries.shared_with r)));
     pol_with_check := None |}.

Definition Users_can_insert_own_mood_entries : policy mood_entries.row :=
  {| pol_name := "Users can insert own mood entries";
     pol_for := INSERT;
     pol_sublinks := [];
     pol_using := None;
     pol_with_check := Some (fun _ s r => uid_is s (mood_entries.user_id r)) |}.

Definition Users_can_update_own_mood_entries : policy mood_entries.row :=
  {| pol_name := "Users can update own mood entries";
     pol_for := UPDATE;
     pol_sublinks := [];
     pol_using := Some (fun _ s r => uid_is s (mood_entries.user_id r));
     pol_with_check := None |}.

Definition Users_can_delete_own_mood_entries : policy mood_entries.row :=
  {| pol_name := "Users can delete own mood entries";
     pol_for := DELETE;
     pol_sublinks := [];
     pol_using := Some (fun _ s r => uid_is s (mood_entries.user_id r));
     pol_with_check := None |}.

Definition mood_entries_policies : list (policy mood_entries.row) :=
  [ Users_can_view_own_and_shared_mood_entries;
    Users_can_insert_own_mood_entries;
    Users_can_update_own_mood_entries;
    Users_can_delete_own_mood_entries ].

(** *** shared_reflections *)

Definition Users_can_view_reflections_that_include_them
    : policy shared_reflections.row :=
  {| pol_name := "Users can view reflections that include them";
     pol_for := SELECT;
     pol_sublinks := [];
     pol_using := Some (fun _ s r =>
       sql_in N.eqb (auth_uid s) (shared_reflections.user_ids r));
     pol_with_check := None |}.

Definition Service_role_can_manage_reflections : policy shared_reflections.row :=
  {| pol_name := "Service role can manage reflections";
     pol_for := ALL;
     pol_sublinks := [];
     pol_using := Some (fun _ s _ => role_is s "service_role");
     pol_with_check := None |}.

Definition shared_reflections_policies : list (policy shared_reflections.row) :=
  [ Users_can_view_reflections_that_include_them;
    Service_role_can_manage_reflections ].

(** *** entry_access_logs *)

Definition Users_can_view_relevant_access_logs : policy entry_access_logs.row :=
  {| pol_name := "Users can view relevant access logs";
     pol_for := SELECT;
     pol_sublinks := [];
     pol_using := Some (fun _ s r =>
       sql_or (uid_is s (entry_access_logs.entry_owner r))
              (uid_is s (entry_access_logs.accessed_by r)));
     pol_with_check := None |}.

Definition Users_can_insert_access_logs : policy entry_access_logs.row :=
  {| pol_name := "Users can insert access logs";
     pol_for := INSERT;
     pol_sublinks := [];
     pol_using := None;
     pol_with_check := Some (fun _ s r => uid_is s (entry_access_logs.accessed_by r)) |}.

Definition entry_access_logs_policies : list (policy entry_access_logs.row) :=
  [ Users_can_view_relevant_access_logs;
    Users_can_insert_access_logs ].

(** *** private_notes *)

Definition Users_can_view_own_private_notes : policy private_notes.row :=
  {| pol_name := "Users can view own private notes";
     pol_for := SELECT;
     pol_sublinks := [];
     pol_using := Some (fun _ s r => uid_is s (private_notes.user_id r));
     pol_with_check := None |}.

Definition Users_can_insert_own_private_notes : policy private_notes.row :=
  {| pol_name := "Users can insert own private notes";
     pol_for := INSERT;
     pol_sublinks := [];
     pol_using := None;
     pol_with_check := Some (fun _ s r => uid_is s (private_notes.user_id r)) |}.

Definition Users_can_update_own_private_notes : policy private_notes.row :=
  {| pol_name := "Users can update own private notes";
     pol_for := UPDATE;
     pol_sublinks := [];
     pol_using := Some (fun _ s r => uid_is s (private_notes.user_id r));
     pol_with_check := None |}.

Definition Users_can_delete_own_private_notes : policy private_notes.row :=
  {| pol_name := "Users can delete own private notes";
     pol_for := DELETE;
     pol_sublinks := [];
     pol_using := Some (fun _ s r => uid_is s (private_notes.user_id r));
     pol_with_check := None |}.

Definition private_notes_policies : list (policy private_notes.row) :=
  [ Users_can_view_own_private_notes;
    Users_can_insert_own_private_notes;
    Users_can_update_own_private_notes;
    Users_can_delete_own_private_notes ].

(** *** storage.objects (bucket 'audio-journal')

    The cast [uuid::text] and the platform function [storage.foldername]
    are not part of the migration; the policies take them as parameters. *)

Section StoragePolicies.
Variable uuid_text : uuid -> text.
Variable storage_foldername : text -> list text.

(** [(storage.foldername(name))[1]], NULL on an empty array. *)
Definition folder1 (o : storage_objects.row) : option text :=
  match storage_foldername (storage_objects.name o) with
  | [] => None
  | f :: _ => Some f
  end.

Definition in_bucket (o : storage_objects.row) : sqlbool :=
  Some (String.eqb (storage_objects.bucket_id o) "audio-journal").

Definition uid_text (s : session) : option text :=
  option_map uuid_text (auth_uid s).

Definition own_folder : expr storage_objects.row :=
  fun _ s o => sql_and (in_bucket o) (sql_eq String.eqb (uid_text s) (folder1 o)).

(** [SELECT partner_id::text FROM profiles WHERE id = auth.uid()], with
    the same proviso. *)
Definition partner_text_of_requester (profs : list profiles.row) (s : session)
    : list (option text) :=
  map (option_map uuid_text) (partner_of_requester profs s).

Definition Users_can_upload_own_audio_files : policy storage_objects.row :=
  {| pol_name := "Users can upload own audio files";
     pol_for := INSERT;
     pol_sublinks := [];
     pol_using := None;
     pol_with_check := Some own_folder |}.

Definition Users_can_view_own_and_partner_audio_files
    : policy storage_objects.row :=
  {| pol_name := "Users can view own and partner audio files";
     pol_for := SELECT;
     pol_sublinks := ["profiles"];
     pol_using := Some (fun profs s o =>
       sql_and (in_bucket o)
               (sql_or (sql_eq String.eqb (uid_text s) (folder1 o))
                       (sql_in String.eqb (folder1 o)
                               (partner_text_of_requester profs s))));
     pol_with_check := None |}.

Definition Users_can_update_own_audio_files : policy storage_objects.row :=
  {| pol_name := "Users can update own audio files";
     pol_for := UPDATE;
     pol_sublinks := [];
     pol_using := Some own_folder;
     pol_with_check := None |}.

Definition Users_can_delete_own_audio_files : policy storage_objects.row :=
  {| pol_name := "Users can delete own audio files";
     pol_for := DELETE;
     pol_sublinks := [];
     pol_using := Some own_folder;
     pol_with_check := None |}.

Definition storage_objects_policies : list (policy storage_objects.row) :=
  [ Users_can_upload_own_audio_files;
    Users_can_view_own_and_partner_audio_files;
    Users_can_update_own_audio_files;
    Users_can_delete_own_audio_files ].
End StoragePolicies.

(** ** Constraints, triggers and the relations of the schema *)

(** A UNIQUE (or PRIMARY KEY) constraint is the test "these two rows have
    the same key"; a NULL key column never collides. *)
Definition opt_same {A} (eqb : A -> A -> bool) (x y : option A) : bool :=
  is_true (sql_eq eqb x y).

(** Array equality as the UNIQUE index sees it: element by element, in
    order, NULL elements comparing equal to each other. *)
Fixpoint array_eqb (a b : list (option uuid)) : bool :=
  match a, b with
  | [], [] => true
  | Some x :: a', Some y :: b' => N.eqb x y && array_eqb a' b'
  | None :: a', None :: b' => array_eqb a' b'
  | _, _ => false
  end.

(** [rel_references] lists the columns declared REFERENCES profiles(id),
    with the value each has in the row. *)
Record relation (row : Type) := {
  rel_name : string;
  rel_unique : list (row -> row -> bool);
  rel_references : row -> list (option uuid);
  rel_policies : list (policy row);
  rel_before_update : timestamptz -> row -> row
}.
Arguments rel_name {row}.
Arguments rel_references {row}.
Arguments rel_unique {row}.
Arguments rel_policies {row}.
Arguments rel_before_update {row}.

(** [update_updated_at_column()]: NEW.updated_at = NOW() *)
Definition profiles_touch (now : timestamptz) (r : profiles.row) : profiles.row :=
  {| profiles.id := profiles.id r;
     profiles.email := profiles.email r;
     profiles.full_name := profiles.full_name r;
     profiles.invite_code := profiles.invite_code r;
     profiles.partner_id := profiles.partner_id r;
     profiles.allow_read_receipts := profiles.allow_read_receipts r;
     profiles.created_at := profiles.created_at r;
     profiles.updated_at := Some now |}.

Definition journal_entries_touch (now : timestamptz) (r : journal_entries.row)
    : journal_entries.row :=
  {| journal_entries.id := journal_entries.id r;
     journal_entries.user_id := journal_entries.user_id r;
     journal_entries.content := journal_entries.content r;
     journal_entries.date := journal_entries.date r;
     journal_entries.mood := journal_entries.mood r;
     journal_entries.audio_url := journal_entries.audio_url r;
     journal_entries.shared_with := journal_entries.shared_with r;
     journal_entries.created_at := journal_entries.created_at r;
     journal_entries.updated_at := Some now |}.

Definition private_notes_touch (now : timestamptz) (r : private_notes.row)
    : private_notes.row :=
  {| private_notes.id := private_notes.id r;
     private_notes.user_id := private_notes.user_id r;
     private_notes.entry_id := private_notes.entry_id r;
     private_notes.entry_type := private_notes.entry_type r;
     private_notes.note_content := private_notes.note_content r;
     private_notes.created_at := private_notes.created_at r;
     private_notes.updated_at := Some now |}.

Definition profiles_rel : relation profiles.row :=
  {| rel_name := "profiles";
     rel_unique :=
       [ fun a b => N.eqb (profiles.id a) (profiles.id b);
         fun a b => String.eqb (profiles.email a) (profiles.email b);
         fun a b => opt_same String.eqb (profiles.invite_code a) (profiles.invite_code b) ];
     rel_references := fun r => [profiles.partner_id r];
     rel_policies := profiles_policies;
     rel_before_update := profiles_touch |}.

Definition journal_entries_rel : relation journal_entries.row :=
  {| rel_name := "journal_entries";
     rel_unique :=
       [ fun a b => N.eqb (journal_entries.id a) (journal_entries.id b);
         (* UNIQUE(user_id, date) -- One entry per user per day *)
         fun a b => N.eqb (journal_entries.user_id a) (journal_entries.user_id b)
                    && Z.eqb (journal_entries.date a) (journal_entries.date b) ];
     rel_references := fun r => [Some (journal_entries.user_id r)];
     rel_policies := journal_entries_policies;
     rel_before_update := journal_entries_touch |}.

Definition mood_entries_rel : relation mood_entries.row :=
  {| rel_name := "mood_entries";
     rel_unique :=
       [ fun a b => N.eqb (mood_entries.id a) (mood_entries.id b);
         (* UNIQUE(user_id, date) -- One mood per user per day *)
         fun a b => N.eqb (mood_entries.user_id a) (mood_entries.user_id b)
                    && Z.eqb (mood_entries.date a) (mood_entries.date b) ];
     rel_references := fun r => [Some (mood_entries.user_id r)];
     rel_policies := mood_entries_policies;
     rel_before_update := fun _ r => r |}.

Definition shared_reflections_rel : relation shared_reflections.row :=
  {| rel_name := "shared_reflections";
     rel_unique :=
       [ fun a b => N.eqb (shared_reflections.id a) (shared_reflections.id b);
         (* UNIQUE(date, user_ids) -- One reflection per couple per day *)
         fun a b => Z.eqb (shared_reflections.date a) (shared_reflections.date b)
                    && array_eqb (shared_reflections.user_ids a)
                                 (shared_reflections.user_ids b) ];
     rel_references := fun _ => [];
     rel_policies := shared_reflections_policies;
     rel_before_update := fun _ r => r |}.

Definition entry_access_logs_rel : relation entry_access_logs.row :=
  {| rel_name := "entry_access_logs";
     rel_unique :=
       [ fun a b => N.eqb (entry_access_logs.id a) (entry_access_logs.id b) ];
     rel_references := fun r => [Some (entry_access_logs.accessed_by r);
                         Some (entry_access_logs.entry_owner r)];
     rel_policies := entry_access_logs_policies;
     rel_before_update := fun _ r => r |}.

Definition private_notes_rel : relation private_notes.row :=
  {| rel_name := "private_notes";
     rel_unique :=
       [ fun a b => N.eqb (private_notes.id a) (private_notes.id b);
         (* UNIQUE(user_id, entry_id, entry_type) *)
         fun a b => N.eqb (private_notes.user_id a) (private_notes.user_id b)
                    && N.eqb (private_notes.entry_id a) (private_notes.entry_id b)
                    && entry_type_eqb (private_notes.entry_type a)
                                      (private_notes.entry_type b) ];
     rel_references := fun r => [Some (private_notes.user_id r)];
     rel_policies := private_notes_policies;
     rel_before_update := private_notes_touch |}.

(** The objects relation with the policies of the migration; its own
    constraints belong to the platform and are not part of the migration. *)
Definition storage_objects_rel (uuid_text : uuid -> text)
    (storage_foldername : text -> list text) : relation storage_objects.row :=
  {| rel_name := "storage.objects";
     rel_unique := [];
     rel_references := fun _ => [];
     rel_policies := storage_objects_policies uuid_text storage_foldername;
     rel_before_update := fun _ r => r |}.

(** ** Statements under row-level security *)

Inductive sqlerror :=
| unique_violation            (* 23505: duplicate key *)
| insufficient_privilege      (* 42501: new row violates row-level security *)
| foreign_key_violation       (* 23503 *)
| infinite_recursion.         (* 42P17: infinite recursion detected in policy *)

Inductive result (A : Type) :=
| Ok (a : A)
| Err (e : sqlerror).
Arguments Ok {A}.
Arguments Err {A}.

Section Statements.
Context {row : Type}.
Variable rel : relation row.
Variable profs : list profiles.row.
Variable s : session.
Variable now : timestamptz.

Definition applies (c : command) (p : policy row) : bool :=
  command_eqb (pol_for p) ALL || command_eqb (pol_for p) c.

Definition eval (e : option (expr row)) (r : row) : bool :=
  match e with
  | Some f => is_true (f profs s r)
  | None => false
  end.

(** The USING side for command [c]: some applicable policy's USING
    expression is TRUE on the row. *)
Definition using_ok (c : command) (r : row) : bool :=
  existsb (fun p => applies c p && eval (pol_using p) r) (rel_policies rel).

(** The WITH CHECK side: WITH CHECK when given, else USING. *)
Definition check_ok (c : command) (r : row) : bool :=
  existsb (fun p => applies c p &&
                    match pol_with_check p with
                    | Some f => is_true (f profs s r)
                    | None => eval (pol_using p) r
                    end)
          (rel_policies rel).

Definition conflicts (r : row) (rows : list row) : bool :=
  existsb (fun r' => existsb (fun same => same r r') (rel_unique rel)) rows.

(** SELECT: the rows some SELECT (or ALL) policy admits. *)
Definition rls_select (rows : list row) : list row :=
  filter (using_ok SELECT) rows.

(** INSERT of one row; [returning] adds the SELECT policies as a check
    on the new row.  The foreign keys of the row are checked when the
    statement is done, see [references_hold]. *)
Definition rls_insert (returning : bool) (r : row) (rows : list row)
    : result (list row) :=
  if negb (check_ok INSERT r) then Err insufficient_privilege
  else if returning && negb (using_ok SELECT r) then Err insufficient_privilege
  else if conflicts r rows then Err unique_violation
  else Ok (rows ++ [r]).

(** A row is a target of UPDATE/DELETE command [c] when it matches the
    WHERE clause and passes the USING side of [c] (and of SELECT when the
    statement reads the relation's columns). *)
Definition targeted (c : command) (reads : bool) (where_ : row -> bool)
    (r : row) : bool :=
  where_ r && using_ok c r && (negb reads || using_ok SELECT r).

(** UPDATE, row by row in scan order: the BEFORE UPDATE trigger runs on
    the new row, then the checks, then the unique indexes against the
    rows as they are at that moment. *)
Fixpoint update_loop (reads : bool) (where_ : row -> bool) (set_ : row -> row)
    (done todo : list row) : result (list row) :=
  match todo with
  | [] => Ok done
  | r :: rest =>
      if targeted UPDATE reads where_ r then
        let r' := rel_before_update rel now (set_ r) in
        if negb (check_ok UPDATE r') then Err insufficient_privilege
        else if reads && negb (using_ok SELECT r') then Err insufficient_privilege
        else if conflicts r' (done ++ rest) then Err unique_violation
        else update_loop reads where_ set_ (done ++ [r']) rest
      else update_loop reads where_ set_ (done ++ [r]) rest
  end.

Definition rls_update (reads : bool) (where_ : row -> bool) (set_ : row -> row)
    (rows : list row) : result (list row) :=
  update_loop reads where_ set_ [] rows.

Definition rls_delete (reads : bool) (where_ : row -> bool) (rows : list row)
    : list row :=
  filter (fun r => negb (targeted DELETE reads where_ r)) rows.

(** How one row fares under an UPDATE that went through. *)
Definition updated (reads : bool) (where_ : row -> bool) (set_ : row -> row)
    (old new : row) : Prop :=
  (targeted UPDATE reads where_ old = false /\ new = old) \/
  (targeted UPDATE reads where_ old = true /\
   new = rel_before_update rel now (set_ old) /\
   check_ok UPDATE new = true).
End Statements.

(** ** The rewriter: policies that sub-select

    Before a statement runs, the policies that apply to it are added to
    it as conditions, and the SELECT policies of a relation are added to
    every sub-select that reads it, the sub-selects of policies included.
    While the policies of a relation are being added the relation is
    active; when policies with a sub-select are to be added for a relation
    that is active already, the statement is refused: "infinite recursion
    detected in policy for relation".  Policies without a sub-select are
    added without that test. *)

(** The policies added for command [c]: its own, and those of SELECT when
    the statement reads the relation's columns (a WHERE clause, a
    RETURNING list). *)
Definition added_policies {row} (rel : relation row) (c : command) (reads : bool)
    : list (policy row) :=
  filter (fun p => applies c p || (reads && applies SELECT p)) (rel_policies rel).

Definition sublinks {row} (rel : relation row) (c : command) (reads : bool)
    : list string :=
  flat_map pol_sublinks (added_policies rel c reads).

(** The sub-selects of the SELECT policies of a relation of the
    migration, by the relation's name. *)
Definition select_sublinks (name : string) : list string :=
  if String.eqb name (rel_name profiles_rel)
  then sublinks profiles_rel SELECT true
  else if String.eqb name (rel_name journal_entries_rel)
  then sublinks journal_entries_rel SELECT true
  else if String.eqb name (rel_name mood_entries_rel)
  then sublinks mood_entries_rel SELECT true
  else if String.eqb name (rel_name shared_reflections_rel)
  then sublinks shared_reflections_rel SELECT true
  else if String.eqb name (rel_name entry_access_logs_rel)
  then sublinks entry_access_logs_rel SELECT true
  else if String.eqb name (rel_name private_notes_rel)
  then sublinks private_notes_rel SELECT true
  else [].

(** Adding the policies of relation [name], whose sub-selects read the
    relations [subs]; [fuel] bounds the depth, [None] when it runs out. *)
Fixpoint fireRIRrules (fuel : nat) (activeRIRs : list string) (name : string)
    (subs : list string) : option (result unit) :=
  match subs with
  | [] => Some (Ok tt)
  | _ :: _ =>
      if existsb (String.eqb name) activeRIRs then Some (Err infinite_recursion)
      else
        match fuel with
        | O => None
        | S fuel' =>
            (fix each (l : list string) : option (result unit) :=
               match l with
               | [] => Some (Ok tt)
               | sub :: l' =>
                   match fireRIRrules fuel' (activeRIRs ++ [name]) sub
                                      (select_sublinks sub) with
                   | Some (Ok _) => each l'
                   | other => other
                   end
               end) subs
        end
  end.

(** What the rewriter makes of command [c] on [rel].  A chain of
    sub-selects longer than the relations there are meets one of them
    twice, so the depth given is never used up. *)
Definition row_security {row} (rel : relation row) (c : command) (reads : bool)
    : option (result unit) :=
  fireRIRrules 8 [] (rel_name rel) (sublinks rel c reads).

(** [SELECT ... FROM rel] as a session issues it. *)
Definition select_from {row} (rel : relation row) (profs : list profiles.row)
    (s : session) (rows : list row) : option (result (list row)) :=
  match row_security rel SELECT true with
  | None => None
  | Some (Err e) => Some (Err e)
  | Some (Ok _) => Some (Ok (rls_select rel profs s rows))
  end.

(** ** Invite codes: [generate_invite_code()] and the [set_invite_code()] trigger *)

(** *** Double precision

    The finite values of [double precision], as the rationals they are.
    An operation is the exact one followed by rounding to the nearest
    value of the format, ties to the even significand: 53 significant
    bits, the unit in the last place never below 2^-1074.  Overflow is
    left out: [generate_invite_code] stays below 64. *)

(** The largest [l] with [2^l <= q], for [q > 0]. *)
Definition log2_floor (q : Q) : Z :=
  let l := (Z.log2 (Qnum q) - Z.log2 (Zpos (Qden q)))%Z in
  if Qle_bool (2 ^ l)%Q q then l else (l - 1)%Z.

(** The exponent of the unit in the last place of the values around [q]. *)
Definition ulp_exponent (q : Q) : Z :=
  Z.max (log2_floor (Qabs q) - 52) (-1074).

(** The nearest integer, the even one of two that are equally near. *)
Definition round_half_even (q : Q) : Z :=
  let f := Qfloor q in
  match (q - inject_Z f ?= 1 # 2)%Q with
  | Lt => f
  | Gt => (f + 1)%Z
  | Eq => if Z.even f then f else (f + 1)%Z
  end.

Definition round_double (q : Q) : Q :=
  if Qeq_bool q 0 then 0%Q
  else (inject_Z (round_half_even (q / 2 ^ ulp_exponent q))
        * 2 ^ ulp_exponent q)%Q.

(** The rationals that are values of the format. *)
Definition is_double (q : Q) : Prop := (round_double q == q)%Q.

(** The operators [*] and [+] of [double precision]. *)
Definition float8mul (a b : Q) : Q := round_double (a * b)%Q.

Definition float8pl (a b : Q) : Q := round_double (a + b)%Q.

(** The source of [random()]: the n-th call returns [src n], a double
    precision value in [0, 1). *)
Definition random_source := nat -> Q.

Definition chars : text := "ABCDEFGHIJKLMNOPQRSTUVWXYZ0123456789".

(** [substr(string, start, count)]: the characters at the 1-based
    positions [start .. start+count-1] that exist. *)
Definition substr (str : text) (start count : Z) : text :=
  let lo := Z.max start 1 in
  let hi := (start + count)%Z in
  if (hi <=? lo)%Z then ""
  else substring (Z.to_nat (lo - 1)) (Z.to_nat (hi - lo)) str.

(** [floor(random() * length(chars) + 1)::INT]: the integer
    [length(chars)] and the literal 1 are converted to double precision,
    the product and the sum are rounded, [floor] is exact and the cast
    finds an integer. *)
Definition random_index (r : Q) : Z :=
  Qfloor (float8pl (float8mul r (inject_Z (Z.of_nat (String.length chars)))) 1%Q).

(** The body of [FOR i IN 1..8 LOOP]: [n] iterations left, [pos] calls of
    [random()] made so far. *)
Fixpoint generate_loop (src : random_source) (n pos : nat) (result : text)
    : text * nat :=
  match n with
  | O => (result, pos)
  | S n' =>
      generate_loop src n' (S pos)
        (result ++ substr chars (random_index (src pos)) 1)%string
  end.

Definition generate_invite_code (src : random_source) (pos : nat) : text * nat :=
  generate_loop src 8 pos "".

(** [EXISTS (SELECT 1 FROM profiles WHERE invite_code = code)], over the
    profiles the trigger's SELECT can see. *)
Definition code_exists (visible : list profiles.row) (code : text) : bool :=
  existsb (fun p => opt_same String.eqb (profiles.invite_code p) (Some code))
          visible.

(** The [WHILE EXISTS ... LOOP] of the trigger, with a bound on the number
    of iterations; [None] when the bound is reached. *)
Fixpoint ensure_unique (fuel : nat) (src : random_source)
    (visible : list profiles.row) (code : text) (pos : nat)
    : option (text * nat) :=
  if code_exists visible code then
    match fuel with
    | O => None
    | S fuel' =>
        let '(code', pos') := generate_invite_code src pos in
        ensure_unique fuel' src visible code' pos'
    end
  else Some (code, pos).

Definition with_invite_code (r : profiles.row) (code : option text)
    : profiles.row :=
  {| profiles.id := profiles.id r;
     profiles.email := profiles.email r;
     profiles.full_name := profiles.full_name r;
     profiles.invite_code := code;
     profiles.partner_id := profiles.partner_id r;
     profiles.allow_read_receipts := profiles.allow_read_receipts r;
     profiles.created_at := profiles.created_at r;
     profiles.updated_at := profiles.updated_at r |}.

(** BEFORE INSERT ON profiles FOR EACH ROW: returns NEW and the number
    of [random()] calls made.  [visible] is what the SELECT of the WHILE
    condition comes back with for the role the trigger runs as; when that
    SELECT is refused the error ends the trigger, after the first code
    was drawn. *)
Definition set_invite_code (fuel : nat) (src : random_source)
    (visible : result (list profiles.row)) (NEW : profiles.row) (pos : nat)
    : option (result profiles.row * nat) :=
  match profiles.invite_code NEW with
  | None =>
      let '(code, pos') := generate_invite_code src pos in
      match visible with
      | Err e => Some (Err e, pos')
      | Ok rows =>
          match ensure_unique fuel src rows code pos' with
          | Some (code', pos'') =>
              Some (Ok (with_invite_code NEW (Some code')), pos'')
          | None => None
          end
      end
  | Some _ => Some (Ok NEW, pos)
  end.

(** [handle_new_user()], SECURITY DEFINER: the profile of a new
    [auth.users] row is inserted with the definer's rights, so no policy
    is added to the INSERT or to the trigger's SELECT, which sees every
    profile.  Columns left out of the INSERT take their defaults; the id
    references the [auth.users] row just inserted. *)
Definition new_profile (uid : uuid) (mail : text) (name : option text)
    (now : timestamptz) : profiles.row :=
  {| profiles.id := uid;
     profiles.email := mail;
     profiles.full_name := name;
     profiles.invite_code := None;
     profiles.partner_id := None;
     profiles.allow_read_receipts := Some true;
     profiles.created_at := Some now;
     profiles.updated_at := Some now |}.

Definition handle_new_user (fuel : nat) (src : random_source)
    (profs : list profiles.row) (uid : uuid) (mail : text) (name : option text)
    (now : timestamptz) (pos : nat)
    : option (result (list profiles.row) * nat) :=
  match set_invite_code fuel src (Ok profs) (new_profile uid mail name now) pos with
  | None => None
  | Some (Err e, pos') => Some (Err e, pos')
  | Some (Ok NEW, pos') =>
      Some (if conflicts profiles_rel NEW profs then Err unique_violation
            else Ok (profs ++ [NEW]),
            pos')
  end.

(** ** The database and its statements

    Of the platform's [auth.users] the database keeps the ids, which
    [profiles.id] references.  A foreign key is checked on the referencing
    side when a statement that wrote rows is done, and acts on the
    referenced side through its ON DELETE and ON UPDATE action. *)

Record database := {
  db_auth_users : list uuid;
  db_profiles : list profiles.row;
  db_journal_entries : list journal_entries.row;
  db_mood_entries : list mood_entries.row;
  db_shared_reflections : list shared_reflections.row;
  db_entry_access_logs : list entry_access_logs.row;
  db_private_notes : list private_notes.row;
  db_random_calls : nat
}.

Definition empty_database : database :=
  {| db_auth_users := [];
     db_profiles := []; db_journal_entries := []; db_mood_entries := [];
     db_shared_reflections := []; db_entry_access_logs := [];
     db_private_notes := []; db_random_calls := 0 |}.

Inductive op (row : Type) :=
| Insert (returning : bool) (r : row)
| Update (reads : bool) (where_ : row -> bool) (set_ : row -> row)
| Delete (reads : bool) (where_ : row -> bool).
Arguments Insert {row}.
Arguments Update {row}.
Arguments Delete {row}.

Inductive statement :=
| on_profiles (o : op profiles.row)
| on_journal_entries (o : op journal_entries.row)
| on_mood_entries (o : op mood_entries.row)
| on_shared_reflections (o : op shared_reflections.row)
| on_entry_access_logs (o : op entry_access_logs.row)
| on_private_notes (o : op private_notes.row)
| auth_user_created (uid : uuid) (mail : text) (name : option text).

Definition run_op {row} (rel : relation row) (profs : list profiles.row)
    (s : session) (now : timestamptz) (o : op row) (rows : list row)
    : result (list row) :=
  match o with
  | Insert returning r => rls_insert rel profs s returning r rows
  | Update reads where_ set_ => rls_update rel profs s now reads where_ set_ rows
  | Delete reads where_ => Ok (rls_delete rel profs s reads where_ rows)
  end.

Definition op_command {row} (o : op row) : command :=
  match o with
  | Insert _ _ => INSERT
  | Update _ _ _ => UPDATE
  | Delete _ _ => DELETE
  end.

(** Whether the statement reads the relation's columns: a RETURNING list,
    a WHERE clause, a SET expression over the old row. *)
Definition op_reads {row} (o : op row) : bool :=
  match o with
  | Insert returning _ => returning
  | Update reads _ _ => reads
  | Delete reads _ => reads
  end.

(** A statement on one relation as a session issues it: refused by the
    rewriter, or run. *)
Definition run_statement {row} (rel : relation row) (profs : list profiles.row)
    (s : session) (now : timestamptz) (o : op row) (rows : list row)
    : option (result (list row)) :=
  match row_security rel (op_command o) (op_reads o) with
  | None => None
  | Some (Err e) => Some (Err e)
  | Some (Ok _) => Some (run_op rel profs s now o rows)
  end.

(** The referencing side of a foreign key.  A NULL references nothing. *)
Definition refers_to (ids : list uuid) (col : option uuid) : bool :=
  match col with
  | Some u => existsb (N.eqb u) ids
  | None => true
  end.

Definition same_reference (a b : option uuid) : bool :=
  match a, b with
  | Some x, Some y => N.eqb x y
  | None, None => true
  | _, _ => false
  end.

(** The check made when the statement is done: every reference of an
    inserted row, and every reference an UPDATE changed, is the id of a
    profile. *)
Definition references_hold {row} (rel : relation row) (ids : list uuid)
    (o : op row) (before after : list row) : bool :=
  match o with
  | Insert _ r => forallb (refers_to ids) (rel_references rel r)
  | Update _ _ _ =>
      forallb (fun oldnew =>
                 forallb (fun ab => same_reference (fst ab) (snd ab)
                                    || refers_to ids (snd ab))
                         (combine (rel_references rel (fst oldnew))
                                  (rel_references rel (snd oldnew))))
              (combine before after)
  | Delete _ _ => true
  end.

Definition checked {row} (rel : relation row) (ids : list uuid) (o : op row)
    (before : list row) (r : result (list row)) : result (list row) :=
  match r with
  | Ok after =>
      if references_hold rel ids o before after then Ok after
      else Err foreign_key_violation
  | Err e => Err e
  end.

Definition has_id (rows : list profiles.row) (u : uuid) : bool :=
  existsb (fun p => N.eqb (profiles.id p) u) rows.

(** The profiles of [before] that [after] no longer has. *)
Definition removed (before after : list profiles.row) (u : uuid) : bool :=
  has_id before u && negb (has_id after u).

(** [partner_id UUID REFERENCES profiles(id)]: NO ACTION, a profile that
    is gone must not be referenced by a remaining one. *)
Definition dangling_partner (before after : list profiles.row) : bool :=
  existsb (fun p => match profiles.partner_id p with
                    | Some u => removed before after u
                    | None => false
                    end) after.

(** Rows of the four tables that reference profiles(id) and point to a
    profile that is gone. *)
Definition dangling_rows (before after : list profiles.row) (db : database)
    : bool :=
  let gone := removed before after in
  existsb (fun r => gone (journal_entries.user_id r)) (db_journal_entries db)
  || existsb (fun r => gone (mood_entries.user_id r)) (db_mood_entries db)
  || existsb (fun r => gone (entry_access_logs.accessed_by r)
                       || gone (entry_access_logs.entry_owner r))
             (db_entry_access_logs db)
  || existsb (fun r => gone (private_notes.user_id r)) (db_private_notes db).

(** ON DELETE CASCADE of the four tables that reference profiles(id). *)
Definition cascade (before : list profiles.row) (after : list profiles.row)
    (db : database) : database :=
  let gone := removed before after in
  {| db_auth_users := db_auth_users db;
    db_profiles := after;
     db_journal_entries :=
       filter (fun r => negb (gone (journal_entries.user_id r)))
              (db_journal_entries db);
     db_mood_entries :=
       filter (fun r => negb (gone (mood_entries.user_id r)))
              (db_mood_entries db);
     db_shared_reflections := db_shared_reflections db;
     db_entry_access_logs :=
       filter (fun r => negb (gone (entry_access_logs.accessed_by r))
                        && negb (gone (entry_access_logs.entry_owner r)))
              (db_entry_access_logs db);
     db_private_notes :=
       filter (fun r => negb (gone (private_notes.user_id r)))
              (db_private_notes db);
     db_random_calls := db_random_calls db |}.

Definition set_random_calls (db : database) (n : nat) : database :=
  {| db_auth_users := db_auth_users db;
    db_profiles := db_profiles db;
     db_journal_entries := db_journal_entries db;
     db_mood_entries := db_mood_entries db;
     db_shared_reflections := db_shared_reflections db;
     db_entry_access_logs := db_entry_access_logs db;
     db_private_notes := db_private_notes db;
     db_random_calls := n |}.

Definition add_auth_user (uid : uuid) (db : database) : database :=
  {| db_auth_users := db_auth_users db ++ [uid];
     db_profiles := db_profiles db;
     db_journal_entries := db_journal_entries db;
     db_mood_entries := db_mood_entries db;
     db_shared_reflections := db_shared_reflections db;
     db_entry_access_logs := db_entry_access_logs db;
     db_private_notes := db_private_notes db;
     db_random_calls := db_random_calls db |}.

Definition set_profiles (db : database) (rows : list profiles.row) : database :=
  {| db_auth_users := db_auth_users db;
    db_profiles := rows;
     db_journal_entries := db_journal_entries db;
     db_mood_entries := db_mood_entries db;
     db_shared_reflections := db_shared_reflections db;
     db_entry_access_logs := db_entry_access_logs db;
     db_private_notes := db_private_notes db;
     db_random_calls := db_random_calls db |}.

Definition set_journal_entries (db : database) (rows : list journal_entries.row)
    : database :=
  {| db_auth_users := db_auth_users db;
    db_profiles := db_profiles db;
     db_journal_entries := rows;
     db_mood_entries := db_mood_entries db;
     db_shared_reflections := db_shared_reflections db;
     db_entry_access_logs := db_entry_access_logs db;
     db_private_notes := db_private_notes db;
     db_random_calls := db_random_calls db |}.

Definition set_mood_entries (db : database) (rows : list mood_entries.row)
    : database :=
  {| db_auth_users := db_auth_users db;
    db_profiles := db_profiles db;
     db_journal_entries := db_journal_entries db;
     db_mood_entries := rows;
     db_shared_reflections := db_shared_reflections db;
     db_entry_access_logs := db_entry_access_logs db;
     db_private_notes := db_private_notes db;
     db_random_calls := db_random_calls db |}.

Definition set_shared_reflections (db : database)
    (rows : list shared_reflections.row) : database :=
  {| db_auth_users := db_auth_users db;
    db_profiles := db_profiles db;
     db_journal_entries := db_journal_entries db;
     db_mood_entries := db_mood_entries db;
     db_shared_reflections := rows;
     db_entry_access_logs := db_entry_access_logs db;
     db_private_notes := db_private_notes db;
     db_random_calls := db_random_calls db |}.

Definition set_entry_access_logs (db : database)
    (rows : list entry_access_logs.row) : database :=
  {| db_auth_users := db_auth_users db;
    db_profiles := db_profiles db;
     db_journal_entries := db_journal_entries db;
     db_mood_entries := db_mood_entries db;
     db_shared_reflections := db_shared_reflections db;
     db_entry_access_logs := rows;
     db_private_notes := db_private_notes db;
     db_random_calls := db_random_calls db |}.

Definition set_private_notes (db : database) (rows : list private_notes.row)
    : database :=
  {| db_auth_users := db_auth_users db;
    db_profiles := db_profiles db;
     db_journal_entries := db_journal_entries db;
     db_mood_entries := db_mood_entries db;
     db_shared_reflections := db_shared_reflections db;
     db_entry_access_logs := db_entry_access_logs db;
     db_private_notes := rows;
     db_random_calls := db_random_calls db |}.

(** A failed statement leaves the tables as they were. *)
Definition lift {row} (put : database -> list row -> database) (db : database)
    (r : result (list row)) : database * option sqlerror :=
  match r with
  | Ok rows => (put db rows, None)
  | Err e => (db, Some e)
  end.

(** [id UUID PRIMARY KEY REFERENCES auth.users(id)]: an id an UPDATE
    changed must be that of a user. *)
Definition ids_known (users : list uuid) (before after : list profiles.row)
    : bool :=
  forallb (fun oldnew => N.eqb (profiles.id (fst oldnew)) (profiles.id (snd oldnew))
                         || existsb (N.eqb (profiles.id (snd oldnew))) users)
          (combine before after).

(** A statement of a session on one of the tables that reference
    profiles. *)
Definition exec_on {row} (rel : relation row) (get : database -> list row)
    (put : database -> list row -> database) (s : session) (now : timestamptz)
    (o : op row) (db : database) : option (database * option sqlerror) :=
  match run_statement rel (db_profiles db) s now o (get db) with
  | None => None
  | Some r =>
      Some (lift put db
              (checked rel (map profiles.id (db_profiles db)) o (get db) r))
  end.

(** A statement on profiles issued by a session.  The BEFORE INSERT
    trigger runs with the session's rights, so the SELECT of its WHILE
    condition is a statement of the session; calls of [random()] made
    before an error stay made.  An UPDATE must not lose an id that is
    referenced (ON UPDATE is NO ACTION); a DELETE fires the referential
    actions. *)
Definition exec_profiles (fuel : nat) (src : random_source) (s : session)
    (now : timestamptz) (o : op profiles.row) (db : database)
    : option (database * option sqlerror) :=
  let profs := db_profiles db in
  match row_security profiles_rel (op_command o) (op_reads o) with
  | None => None
  | Some (Err e) => Some (db, Some e)
  | Some (Ok _) =>
      match o with
      | Insert returning r =>
          match select_from profiles_rel profs s profs with
          | None => None
          | Some visible =>
              match set_invite_code fuel src visible r (db_random_calls db) with
              | None => None
              | Some (Err e, pos) => Some (set_random_calls db pos, Some e)
              | Some (Ok NEW, pos) =>
                  Some (lift set_profiles (set_random_calls db pos)
                          (match rls_insert profiles_rel profs s returning NEW profs with
                           | Ok rows =>
                               if refers_to (db_auth_users db) (Some (profiles.id NEW))
                                  && references_hold profiles_rel
                                       (map profiles.id rows) (Insert returning NEW)
                                       profs rows
                               then Ok rows
                               else Err foreign_key_violation
                           | Err e => Err e
                           end))
              end
          end
      | Update reads where_ set_ =>
          Some (match rls_update profiles_rel profs s now reads where_ set_ profs with
                | Ok rows =>
                    if dangling_partner profs rows || dangling_rows profs rows db
                       || negb (ids_known (db_auth_users db) profs rows)
                       || negb (references_hold profiles_rel (map profiles.id rows)
                                  o profs rows)
                    then (db, Some foreign_key_violation)
                    else (set_profiles db rows, None)
                | Err e => (db, Some e)
                end)
      | Delete reads where_ =>
          let rows := rls_delete profiles_rel profs s reads where_ profs in
          Some (if dangling_partner profs rows then (db, Some foreign_key_violation)
                else (cascade profs rows db, None))
      end
  end.

(** A statement of a session, or the platform adding a user: an
    [auth.users] row with a new id, after which [handle_new_user] runs;
    when that fails the user is not added either. *)
Definition exec (fuel : nat) (src : random_source) (s : session)
    (now : timestamptz) (st : statement) (db : database)
    : option (database * option sqlerror) :=
  match st with
  | on_profiles o => exec_profiles fuel src s now o db
  | on_journal_entries o =>
      exec_on journal_entries_rel db_journal_entries set_journal_entries s now o db
  | on_mood_entries o =>
      exec_on mood_entries_rel db_mood_entries set_mood_entries s now o db
  | on_shared_reflections o =>
      exec_on shared_reflections_rel db_shared_reflections set_shared_reflections
              s now o db
  | on_entry_access_logs o =>
      exec_on entry_access_logs_rel db_entry_access_logs set_entry_access_logs
              s now o db
  | on_private_notes o =>
      exec_on private_notes_rel db_private_notes set_private_notes s now o db
  | auth_user_created uid mail name =>
      if existsb (N.eqb uid) (db_auth_users db) then Some (db, Some unique_violation)
      else
        match handle_new_user fuel src (db_profiles db) uid mail name now
                              (db_random_calls db) with
        | None => None
        | Some (r, pos) =>
            Some (lift (fun d rows => add_auth_user uid (set_profiles d rows))
                       (set_random_calls db pos) r)
        end
  end.

(** The rows of a table after a statement: those before it, or what a
    command on the table made of them. *)
Definition wrote {row} (rel : relation row) (profs : list profiles.row)
    (s : session) (now : timestamptz) (before after : list row) : Prop :=
  after = before \/ exists o, run_op rel profs s now o before = Ok after.

(** [steps db db']: some sequence of statements, by any sessions, takes
    [db] to [db']. *)
Inductive steps : database -> database -> Prop :=
| steps_refl db : steps db db
| steps_exec fuel src s now st db db' db'' e :
    steps db db' ->
    exec fuel src s now st db' = Some (db'', e) ->
    steps db db''.

(** The databases a sequence of statements can produce from the empty one. *)
Definition reachable (db : database) : Prop := steps empty_database db.

(** ** The client: [JournalApp]'s handlers

    JavaScript strings are sequences of UTF-16 code units.  A handler is a
    program over the component state whose effects are the requests it
    awaits and the messages it shows. *)

Definition jsstring := list N.

Definition js (s : string) : jsstring :=
  map N_of_ascii (list_ascii_of_string s).

(** WhiteSpace and LineTerminator code points, as [String.prototype.trim]
    strips them. *)
Definition is_white_space (c : N) : bool :=
  (N.eqb c 9 || N.eqb c 10 || N.eqb c 11 || N.eqb c 12 || N.eqb c 13
   || N.eqb c 32 || N.eqb c 160 || N.eqb c 5760
   || (N.leb 8192 c && N.leb c 8202)
   || N.eqb c 8232 || N.eqb c 8233 || N.eqb c 8239 || N.eqb c 8287
   || N.eqb c 12288 || N.eqb c 65279)%bool.

Fixpoint trimStart (s : jsstring) : jsstring :=
  match s with
  | c :: s' => if is_white_space c then trimStart s' else s
  | [] => []
  end.

Definition trimEnd (s : jsstring) : jsstring := rev (trimStart (rev s)).

Definition trim (s : jsstring) : jsstring := trimEnd (trimStart s).

(** Truthiness of a string: every string but the empty one. *)
Definition truthy (s : jsstring) : bool :=
  match s with [] => false | _ :: _ => true end.

#[local] Set Warnings "-register-all".

(** JSON values; numbers are the integral ones, [JNumber n] the Number
    that the literal [n] is parsed to. *)
Inductive json :=
| JNull
| JBool (b : bool)
| JNumber (n : Z)
| JString (s : jsstring)
| JArray (items : list json)
| JObject (fields : list (jsstring * json)).

Fixpoint jsstring_eqb (a b : jsstring) : bool :=
  match a, b with
  | [], [] => true
  | x :: a', y :: b' => N.eqb x y && jsstring_eqb a' b'
  | _, _ => false
  end.

(** [obj.key]: [None] is undefined. *)
Definition get_field (key : jsstring) (v : json) : option json :=
  match v with
  | JObject fields =>
      match find (fun kv => jsstring_eqb (fst kv) key) fields with
      | Some kv => Some (snd kv)
      | None => None
      end
  | _ => None
  end.

(** *** Numbers

    A literal is parsed to the nearest double, to Infinity from
    2^1024 - 2^970 on.  [Number::toString] prints the shortest decimal
    digits that are parsed back to the same double (the nearest to it
    when there are several), in full up to 21 digits and with an exponent
    beyond. *)

(** The double the integer literal [n] is parsed to; it is an integer. *)
Definition number_value (n : Z) : Z := Qfloor (round_double (inject_Z n)).

Definition same_number (a b : Z) : bool := Z.eqb (number_value a) (number_value b).

Definition decimal (v : Z) : jsstring := js (NilZero.string_of_int (Z.to_int v)).

(** The multiples of [unit] next to [x] that are parsed to [x], the
    nearer first; of two equally near the one with the even digits. *)
Definition candidates (x unit : Z) : list Z :=
  let lo := (x / unit * unit)%Z in
  let hi := (lo + unit)%Z in
  let nearer_lo :=
    match (x - lo ?= hi - x)%Z with
    | Lt => true
    | Gt => false
    | Eq => Z.even (lo / unit)
    end in
  filter (same_number x) (if nearer_lo then [lo; hi] else [hi; lo]).

(** The decimal with the fewest significant digits that is parsed to
    [x], for a double [x > 0] of [d] digits: [k] digits are tried, then
    more. *)
Fixpoint shortest (x : Z) (d k fuel : nat) : Z :=
  match fuel with
  | O => x
  | S fuel' =>
      match candidates x (10 ^ Z.of_nat (d - k)) with
      | v :: _ => v
      | [] => shortest x d (S k) fuel'
      end
  end.

Fixpoint strip_zeros (digits : jsstring) : jsstring :=
  match digits with
  | [] => []
  | c :: rest =>
      match strip_zeros rest with
      | [] => if N.eqb c 48 then [] else [c]
      | rest' => c :: rest'
      end
  end.

(** [Number::toString(x)] for a double [x > 0] that is an integer. *)
Definition positive_to_string (x : Z) : jsstring :=
  if (2 ^ 1024 <=? x)%Z then js "Infinity"
  else
    let d := List.length (decimal x) in
    let v := shortest x d 1 d in
    let n := List.length (decimal v) in
    if Nat.leb n 21 then decimal v
    else
      match strip_zeros (decimal v) with
      | [] => []
      | first :: more =>
          first :: match more with [] => [] | _ :: _ => js "." ++ more end
          ++ js "e+" ++ decimal (Z.of_nat (n - 1))
      end.

Definition number_to_string (n : Z) : jsstring :=
  let x := number_value n in
  match x with
  | Z0 => js "0"
  | Zpos _ => positive_to_string x
  | Zneg _ => js "-" ++ positive_to_string (- x)
  end.

(** String conversion, as a template literal applies it. *)
Fixpoint to_text (v : json) : jsstring :=
  match v with
  | JNull => js "null"
  | JBool true => js "true"
  | JBool false => js "false"
  | JNumber n => number_to_string n
  | JString s => s
  | JArray items =>
      (fix join (l : list json) : jsstring :=
         match l with
         | [] => []
         | x :: rest =>
             (match x with JNull => [] | _ => to_text x end)
             ++ match rest with [] => [] | _ :: _ => js "," ++ join rest end
         end) items
  | JObject _ => js "[object Object]"
  end.

Inductive method := GET | POST.

Record request := {
  req_method : method;
  req_url : jsstring;
  req_body : option json
}.

(** What an awaited axios call comes back with: the response, or the
    error thrown, of which the handlers read
    [error.response?.data?.detail] only (a string when it is there). *)
Inductive response :=
| Fulfilled (data : json)
| Rejected (detail : option jsstring).

Inductive effect :=
| Alert (msg : jsstring)
| ConsoleError (msg : jsstring)
| Reload.

Inductive prog (A : Type) :=
| Ret (a : A)
| Call (rq : request) (k : response -> prog A)
| Emit (e : effect) (k : prog A).
Arguments Ret {A}.
Arguments Call {A}.
Arguments Emit {A}.

Inductive event :=
| Requested (rq : request)
| Effect (e : effect).

(** Running a program against a backend that answers each request from
    the requests seen so far. *)
Fixpoint run {A} (backend : list request -> request -> response)
    (seen : list request) (p : prog A) : A * list event :=
  match p with
  | Ret a => (a, [])
  | Call rq k =>
      let '(a, tr) := run backend (seen ++ [rq]) (k (backend seen rq)) in
      (a, Requested rq :: tr)
  | Emit e k =>
      let '(a, tr) := run backend seen k in
      (a, Effect e :: tr)
  end.

(** [p] and then [k] on what [p] returned. *)
Fixpoint and_then {A B} (p : prog A) (k : A -> prog B) : prog B :=
  match p with
  | Ret a => k a
  | Call rq h => Call rq (fun r => and_then (h r) k)
  | Emit e h => Emit e (and_then h k)
  end.

Record client := {
  currentView : jsstring;
  journalEntry : jsstring;
  selectedMood : jsstring;
  selectedDate : jsstring;
  calendarData : json;
  stats : json;
  inviteCode : jsstring;
  showInviteModal : bool
}.

Definition setJournalEntry (v : jsstring) (c : client) : client :=
  {| currentView := currentView c; journalEntry := v;
     selectedMood := selectedMood c; selectedDate := selectedDate c;
     calendarData := calendarData c; stats := stats c;
     inviteCode := inviteCode c; showInviteModal := showInviteModal c |}.

Definition setSelectedMood (v : jsstring) (c : client) : client :=
  {| currentView := currentView c; journalEntry := journalEntry c;
     selectedMood := v; selectedDate := selectedDate c;
     calendarData := calendarData c; stats := stats c;
     inviteCode := inviteCode c; showInviteModal := showInviteModal c |}.

Definition setCalendarData (v : json) (c : client) : client :=
  {| currentView := currentView c; journalEntry := journalEntry c;
     selectedMood := selectedMood c; selectedDate := selectedDate c;
     calendarData := v; stats := stats c;
     inviteCode := inviteCode c; showInviteModal := showInviteModal c |}.

Definition setStats (v : json) (c : client) : client :=
  {| currentView := currentView c; journalEntry := journalEntry c;
     selectedMood := selectedMood c; selectedDate := selectedDate c;
     calendarData := calendarData c; stats := v;
     inviteCode := inviteCode c; showInviteModal := showInviteModal c |}.

Definition setInviteCode (v : jsstring) (c : client) : client :=
  {| currentView := currentView c; journalEntry := journalEntry c;
     selectedMood := selectedMood c; selectedDate := selectedDate c;
     calendarData := calendarData c; stats := stats c;
     inviteCode := v; showInviteModal := showInviteModal c |}.

Definition setShowInviteModal (v : bool) (c : client) : client :=
  {| currentView := currentView c; journalEntry := journalEntry c;
     selectedMood := selectedMood c; selectedDate := selectedDate c;
     calendarData := calendarData c; stats := stats c;
     inviteCode := inviteCode c; showInviteModal := v |}.

Section Client.
(** [process.env.REACT_APP_BACKEND_URL] and the [YYYY-MM] prefix of
    [new Date().toISOString()]. *)
Variable BACKEND_URL : jsstring.
Variable currentMonth : jsstring.

Definition API : jsstring := BACKEND_URL ++ js "/api".

Definition axios_get (url : jsstring) : request :=
  {| req_method := GET; req_url := url; req_body := None |}.

Definition axios_post (url : jsstring) (body : option json) : request :=
  {| req_method := POST; req_url := url; req_body := body |}.

(** What the un-awaited [fetchStats()] does once its response is in. *)
Definition fetchStats_then (r : response) (k : client -> prog client)
    (c : client) : prog client :=
  match r with
  | Fulfilled data => k (setStats data c)
  | Rejected _ => Emit (ConsoleError (js "Failed to fetch stats:")) (k c)
  end.

Definition fetchCalendarData_then (r : response) (k : client -> prog client)
    (c : client) : prog client :=
  match r with
  | Fulfilled data => k (setCalendarData data c)
  | Rejected _ => Emit (ConsoleError (js "Failed to fetch calendar data:")) (k c)
  end.

Definition stats_request : request := axios_get (API ++ js "/stats").

Definition calendar_request : request :=
  axios_get (API ++ js "/calendar/" ++ currentMonth).

Definition journal_request (c : client) : request :=
  axios_post (API ++ js "/journal")
    (Some (JObject [ (js "content", JString (journalEntry c));
                     (js "date", JString (selectedDate c));
                     (js "mood", JString (selectedMood c)) ])).

Definition mood_request (c : client) : request :=
  axios_post (API ++ js "/mood")
    (Some (JObject [ (js "mood", JString (selectedMood c));
                     (js "date", JString (selectedDate c)) ])).

(** The [catch] block of [saveJournalEntry]. *)
Definition save_failed (c : client) : prog client :=
  Emit (ConsoleError (js "Failed to save entry:"))
    (Emit (Alert (js "Failed to save entry")) (Ret c)).

(** The rest of the [try] block once the posts went through: the two
    fetches are started, the alert is shown, their responses are
    handled afterwards. *)
Definition save_succeeded (c : client) : prog client :=
  let c1 := setSelectedMood [] (setJournalEntry [] c) in
  Call stats_request (fun rs =>
  Call calendar_request (fun rc =>
  Emit (Alert (js "Entry saved successfully!"))
    (fetchStats_then rs (fetchCalendarData_then rc Ret) c1))).

Definition saveJournalEntry (c : client) : prog client :=
  if negb (truthy (trim (journalEntry c))) then Ret c
  else
    Call (journal_request c) (fun r1 =>
      match r1 with
      | Rejected _ => save_failed c
      | Fulfilled _ =>
          if truthy (selectedMood c) then
            Call (mood_request c) (fun r2 =>
              match r2 with
              | Rejected _ => save_failed c
              | Fulfilled _ => save_succeeded c
              end)
          else save_succeeded c
      end).

(** [error.response?.data?.detail || fallback] *)
Definition detail_or (detail : option jsstring) (fallback : jsstring)
    : jsstring :=
  match detail with
  | Some d => if truthy d then d else fallback
  | None => fallback
  end.

Definition generateReflection (date_ : jsstring) (c : client) : prog client :=
  Call (axios_post (API ++ js "/generate-reflection/" ++ date_) None) (fun r =>
    match r with
    | Fulfilled _ =>
        Emit (Alert (js "AI Reflection generated successfully!"))
          (Call calendar_request (fun rc => fetchCalendarData_then rc Ret c))
    | Rejected detail =>
        Emit (ConsoleError (js "Failed to generate reflection:"))
          (Emit (Alert (detail_or detail (js "Failed to generate reflection")))
             (Ret c))
    end).

(** [`${response.data.partner_name}`]: reading a property of null throws
    ([None]); a property that is not there is undefined. *)
Definition partner_name_text (data : json) : option jsstring :=
  match data with
  | JNull => None
  | _ =>
      Some (match get_field (js "partner_name") data with
            | Some v => to_text v
            | None => js "undefined"
            end)
  end.

(** The [catch] block of [invitePartner]; the error thrown on a null body
    has no [response]. *)
Definition invite_failed (detail : option jsstring) (c : client) : prog client :=
  Emit (ConsoleError (js "Failed to invite partner:"))
    (Emit (Alert (detail_or detail (js "Failed to invite partner")))
       (Ret c)).

Definition invitePartner (c : client) : prog client :=
  if negb (truthy (trim (inviteCode c))) then Ret c
  else
    Call (axios_post (API ++ js "/invite-partner")
            (Some (JObject [ (js "invite_code", JString (inviteCode c)) ])))
      (fun r =>
        match r with
        | Fulfilled data =>
            match partner_name_text data with
            | Some partner_name =>
                Emit (Alert (js "Partner linked successfully! Welcome "
                             ++ partner_name ++ js "!"))
                  (Call stats_request (fun _ =>
                     Emit Reload
                       (Ret (setShowInviteModal false (setInviteCode [] c)))))
            | None => invite_failed None c
            end
        | Rejected detail => invite_failed detail c
        end).
End Client.

(** ** Vocabulary of the access rules *)

(** The session is signed in as [owner]. *)
Definition owns (s : session) (owner : uuid) : Prop :=
  auth_uid s = Some owner.

(** The session's identity is an element of the allow-list. *)
Definition listed (s : session) (shared : option (list (option uuid))) : Prop :=
  exists R l, auth_uid s = Some R /\ shared = Some l /\ In (Some R) l.

Section OwnerOnly.
Context {row : Type}.
Variable rel : relation row.
Variable profs : list profiles.row.
Variable s : session.
Variable now : timestamptz.
(** The rows that are the session's own. *)
Variable mine : row -> Prop.

(** The write policies of [rel] admit a row only when it is the
    session's own. *)
Definition owner_only_policies : Prop :=
  forall r,
    (check_ok rel profs s INSERT r = true -> mine r) /\
    (using_ok rel profs s UPDATE r = true -> mine r) /\
    (check_ok rel profs s UPDATE r = true -> mine r) /\
    (using_ok rel profs s DELETE r = true -> mine r).

(** ... and admit every row that is. *)
Definition owner_may_write : Prop :=
  forall r, mine r ->
    check_ok rel profs s INSERT r = true /\
    using_ok rel profs s UPDATE r = true /\
    check_ok rel profs s UPDATE r = true /\
    using_ok rel profs s DELETE r = true.

(** What the statements do with that: an INSERT that goes through adds a
    row of the session's own, an UPDATE that goes through leaves every
    row that is not its own as it was (and the rows it changes are its
    own before and after), a DELETE removes only its own rows. *)
Definition writes_only_own : Prop :=
  (forall returning r rows out,
      rls_insert rel profs s returning r rows = Ok out -> mine r) /\
  (forall reads where_ set_ rows out,
      rls_update rel profs s now reads where_ set_ rows = Ok out ->
      Forall2 (fun old new => new = old \/ (mine old /\ mine new)) rows out) /\
  (forall reads where_ rows r,
      In r rows -> ~ In r (rls_delete rel profs s reads where_ rows) ->
      mine r).
End OwnerOnly.

(** ** Sample data *)

Definition alice : uuid := 1%N.
Definition bob : uuid := 2%N.
Definition carol : uuid := 3%N.

Definition signed_in (u : uuid) : session :=
  {| auth_uid := Some u; auth_role := "authenticated" |}.

Definition anonymous : session :=
  {| auth_uid := None; auth_role := "anon" |}.

Definition service : session :=
  {| auth_uid := None; auth_role := "service_role" |}.

Definition profile_of (u : uuid) (mail : text) (code : option text)
    (partner : option uuid) : profiles.row :=
  {| profiles.id := u; profiles.email := mail; profiles.full_name := None;
     profiles.invite_code := code; profiles.partner_id := partner;
     profiles.allow_read_receipts := Some true;
     profiles.created_at := None; profiles.updated_at := None |}.

Definition entry_of (i owner : uuid) (d : date) (txt : text)
    (shared : option (list (option uuid))) : journal_entries.row :=
  {| journal_entries.id := i; journal_entries.user_id := owner;
     journal_entries.content := txt; journal_entries.date := d;
     journal_entries.mood := None; journal_entries.audio_url := None;
     journal_entries.shared_with := shared;
     journal_entries.created_at := None; journal_entries.updated_at := None |}.

Definition mood_of (i owner : uuid) (d : date) (m : text)
    (shared : option (list (option uuid))) : mood_entries.row :=
  {| mood_entries.id := i; mood_entries.user_id := owner;
     mood_entries.mood := m; mood_entries.date := d;
     mood_entries.shared_with := shared; mood_entries.created_at := None |}.

Definition reflection_of (i : uuid) (d : date) (pair : list (option uuid))
    (txt : text) : shared_reflections.row :=
  {| shared_reflections.id := i; shared_reflections.date := d;
     shared_reflections.user_ids := pair; shared_reflections.reflection := txt;
     shared_reflections.created_at := None |}.

Definition log_of (i entry viewer owner : uuid) : entry_access_logs.row :=
  {| entry_access_logs.id := i; entry_access_logs.entry_id := entry;
     entry_access_logs.entry_type := journal;
     entry_access_logs.accessed_by := viewer;
     entry_access_logs.entry_owner := owner;
     entry_access_logs.accessed_at := None |}.

Definition note_of (i author entry : uuid) (txt : text) : private_notes.row :=
  {| private_notes.id := i; private_notes.user_id := author;
     private_notes.entry_id := entry; private_notes.entry_type := journal;
     private_notes.note_content := txt;
     private_notes.created_at := None; private_notes.updated_at := None |}.

(** [R]'s own profile names [P] as its partner. *)
Definition names_partner (profs : list profiles.row) (R P : uuid) : Prop :=
  exists q, In q profs /\ profiles.id q = R /\ profiles.partner_id q = Some P.

(** The keys of the two UNIQUE(user_id, date) constraints, and the rows
    of owner [O] dated [D]. *)
Definition journal_key (r : journal_entries.row) : uuid * date :=
  (journal_entries.user_id r, journal_entries.date r).

Definition mood_key (r : mood_entries.row) : uuid * date :=
  (mood_entries.user_id r, mood_entries.date r).

Definition journal_entries_of (O : uuid) (D : date)
    (rows : list journal_entries.row) : list journal_entries.row :=
  filter (fun r => N.eqb (journal_entries.user_id r) O
                   && Z.eqb (journal_entries.date r) D) rows.

Definition mood_entries_of (O : uuid) (D : date)
    (rows : list mood_entries.row) : list mood_entries.row :=
  filter (fun r => N.eqb (mood_entries.user_id r) O
                   && Z.eqb (mood_entries.date r) D) rows.

(** No two journal rows and no two mood rows share their key. *)
Definition daily_keys (db : database) : Prop :=
  NoDup (map journal_key (db_journal_entries db)) /\
  NoDup (map mood_key (db_mood_entries db)).

(** The shape of an invite code: characters of [chars] only. *)
Definition in_alphabet (c : ascii) : bool :=
  existsb (Ascii.eqb c) (list_ascii_of_string chars).

Fixpoint all_in_alphabet (code : text) : bool :=
  match code with
  | EmptyString => true
  | String c rest => in_alphabet c && all_in_alphabet rest
  end.

(** The code the trigger generates at its k-th attempt, when [pos] calls
    of [random()] came before the trigger ran. *)
Definition attempt (src : random_source) (pos k : nat) : text :=
  fst (generate_invite_code src (pos + 8 * k)).

(** [random()] returns double precision values in [0, 1). *)
Definition unit_interval (src : random_source) : Prop :=
  forall n, is_double (src n) /\ (0 <= src n)%Q /\ (src n < 1)%Q.

Arguments signed_in u%_N.
Arguments profile_of u%_N mail%_string code partner.
Arguments entry_of (i owner)%_N d%_Z txt%_string shared.
Arguments mood_of (i owner)%_N d%_Z m%_string shared.
Arguments reflection_of i%_N d%_Z pair txt%_string.
Arguments log_of (i entry viewer owner)%_N.
Arguments note_of (i author entry)%_N txt%_string.

(** The session's own audio objects: those of the bucket whose first
    folder is the text of its identity. *)
Definition own_object (uuid_text : uuid -> text)
    (storage_foldername : text -> list text) (s : session)
    (o : storage_objects.row) : Prop :=
  storage_objects.bucket_id o = "audio-journal" /\
  exists R, auth_uid s = Some R /\
            folder1 storage_foldername o = Some (uuid_text R).

Definition sample_entries : list journal_entries.row :=
  [ entry_of 10 alice 5 "home" (Some [Some bob]) ].

(** Stand-ins for the platform's [uuid::text] and [storage.foldername] in
    the examples: the decimal digits of the identity, and the segments of
    a path before its last one. *)
Definition sample_uuid_text (u : uuid) : text :=
  NilEmpty.string_of_uint (N.to_uint u).

Fixpoint string_to_array (str : string) (segment : string) : list string :=
  match str with
  | EmptyString => [segment]
  | String c rest =>
      if Ascii.eqb c "/" then segment :: string_to_array rest ""
      else string_to_array rest (segment ++ String c "")%string
  end.

Definition sample_foldername (name : text) : list text :=
  removelast (string_to_array name "").

Definition sample_object : storage_objects.row :=
  {| storage_objects.bucket_id := "audio-journal";
     storage_objects.name := "1/monday.webm" |}.

Definition sample_couple : list profiles.row :=
  [ profile_of alice "a@x" None (Some bob);
    profile_of bob "b@x" None (Some alice) ].

(** A source of [random()] for the examples: eight draws of 0, then 1/2
    for ever, so the first code is AAAAAAAA and the next ones SSSSSSSS. *)
Definition sample_source : random_source :=
  fun n => if Nat.ltb n 8 then 0%Q else (1 # 2)%Q.

(** The requests of a trace, in the order they were issued. *)
Fixpoint requests_of (tr : list event) : list request :=
  match tr with
  | [] => []
  | Requested rq :: tr' => rq :: requests_of tr'
  | Effect _ :: tr' => requests_of tr'
  end.

(** A client that has typed an entry and picked a mood, and a backend
    that takes everything but the mood. *)
Definition sample_client : client :=
  {| currentView := js "journal";
     journalEntry := js "A quiet day.";
     selectedMood := js "Peaceful";
     selectedDate := js "2024-01-01";
     calendarData := JArray [];
     stats := JObject [];
     inviteCode := [];
     showInviteModal := false |}.

Definition sample_url : jsstring := js "http://localhost:8001".

Definition ends_with (suffix s : jsstring) : bool :=
  jsstring_eqb (skipn (List.length s - List.length suffix) s) suffix.

Definition mood_taken_backend (seen : list request) (rq : request) : response :=
  if ends_with (js "/api/mood") (req_url rq)
  then Rejected (Some (js "Mood already recorded for this date"))
  else Fulfilled JNull.

Definition conflict_backend (seen : list request) (rq : request) : response :=
  Rejected (Some (js "Entry already exists for this date")).

Definition sample_note : private_notes.row := note_of 20 bob 10 "for my eyes".

(** ** Vocabulary of the constraints *)

(** No row of the table collides with a later one on any UNIQUE or
    PRIMARY KEY constraint of the relation. *)
Fixpoint distinct_rows {row} (rel : relation row) (rows : list row) : Prop :=
  match rows with
  | [] => True
  | r :: rest => conflicts rel r rest = false /\ distinct_rows rel rest
  end.

(** Every constraint of the relation compares its two rows the same way
    in either order. *)
Definition symmetric_constraints {row} (rel : relation row) : Prop :=
  forall same, In same (rel_unique rel) -> forall a b, same a b = same b a.

(** The non-NULL values of a nullable column. *)
Definition present {row K} (col : row -> option K) (rows : list row) : list K :=
  flat_map (fun r => match col r with Some k => [k] | None => [] end) rows.

Definition well_keyed (db : database) : Prop :=
  distinct_rows profiles_rel (db_profiles db) /\
  distinct_rows journal_entries_rel (db_journal_entries db) /\
  distinct_rows mood_entries_rel (db_mood_entries db) /\
  distinct_rows shared_reflections_rel (db_shared_reflections db) /\
  distinct_rows entry_access_logs_rel (db_entry_access_logs db) /\
  distinct_rows private_notes_rel (db_private_notes db).

Definition note_key (r : private_notes.row) : uuid * uuid * entry_type_t :=
  (private_notes.user_id r, private_notes.entry_id r, private_notes.entry_type r).

(** Two sign-ups and alice's entry for day 5, which she shares with
    nobody. *)
Definition sample_database : database :=
  {| db_auth_users := [alice; bob];
     db_profiles :=
       [ with_invite_code (new_profile alice "a@x" None 0%Z) (Some "AAAAAAAA");
         with_invite_code (new_profile bob "b@x" None 0%Z) (Some "SSSSSSSS") ];
     db_journal_entries := [ entry_of 10 alice 5 "home" None ];
     db_mood_entries := [];
     db_shared_reflections := [];
     db_entry_access_logs := [];
     db_private_notes := [];
     db_random_calls := 16 |}.

(** The session gets nothing out of the relation and changes nothing in
    it: SELECT returns no row, INSERT is refused, UPDATE and DELETE leave
    the table as it is. *)
Definition shut_out {row} (rel : relation row) (profs : list profiles.row)
    (s : session) (now : timestamptz) : Prop :=
  (forall rows, select_from rel profs s rows = Some (Ok [])) /\
  (forall returning r rows,
      run_statement rel profs s now (Insert returning r) rows
        = Some (Err insufficient_privilege)) /\
  (forall reads where_ set_ rows,
      run_statement rel profs s now (Update reads where_ set_) rows
        = Some (Ok rows)) /\
  (forall reads where_ rows,
      run_statement rel profs s now (Delete reads where_) rows = Some (Ok rows)).

(** The same for writes only. *)
Definition read_only {row} (rel : relation row) (profs : list profiles.row)
    (s : session) (now : timestamptz) : Prop :=
  (forall returning r rows,
      rls_insert rel profs s returning r rows = Err insufficient_privilege) /\
  (forall reads where_ set_ rows,
      rls_update rel profs s now reads where_ set_ rows = Ok rows) /\
  (forall reads where_ rows, rls_delete rel profs s reads where_ rows = rows).

(** An audio object that sits at the root of its bucket. *)
Definition sample_root_object : storage_objects.row :=
  {| storage_objects.bucket_id := "audio-journal";
     storage_objects.name := "monday.webm" |}.

(** What an UPDATE makes of one row when it goes through. *)
Definition update_row {row} (rel : relation row) (profs : list profiles.row)
    (s : session) (now : timestamptz) (reads : bool) (where_ : row -> bool)
    (set_ : row -> row) (r : row) : row :=
  if targeted rel profs s UPDATE reads where_ r
  then rel_before_update rel now (set_ r)
  else r.

(** [SET shared_with = array_append(shared_with, V)] *)
Definition share_with (V : uuid) (r : journal_entries.row) : journal_entries.row :=
  {| journal_entries.id := journal_entries.id r;
     journal_entries.user_id := journal_entries.user_id r;
     journal_entries.content := journal_entries.content r;
     journal_entries.date := journal_entries.date r;
     journal_entries.mood := journal_entries.mood r;
     journal_entries.audio_url := journal_entries.audio_url r;
     journal_entries.shared_with :=
       Some (match journal_entries.shared_with r with
             | Some l => l ++ [Some V]
             | None => [Some V]
             end);
     journal_entries.created_at := journal_entries.created_at r;
     journal_entries.updated_at := journal_entries.updated_at r |}.

(** [SET partner_id = O] *)
Definition set_partner (O : uuid) (r : profiles.row) : profiles.row :=
  {| profiles.id := profiles.id r;
     profiles.email := profiles.email r;
     profiles.full_name := profiles.full_name r;
     profiles.invite_code := profiles.invite_code r;
     profiles.partner_id := Some O;
     profiles.allow_read_receipts := profiles.allow_read_receipts r;
     profiles.created_at := profiles.created_at r;
     profiles.updated_at := profiles.updated_at r |}.

(** ** The client: the fetches on mount

    [fetchStats] and [fetchCalendarData] on their own, and the effect of
    [JournalApp] that starts both when the component mounts. *)

Definition fetchStats (BACKEND_URL : jsstring) (c : client) : prog client :=
  Call (stats_request BACKEND_URL) (fun r => fetchStats_then r Ret c).

Definition fetchCalendarData (BACKEND_URL currentMonth : jsstring) (c : client)
    : prog client :=
  Call (calendar_request BACKEND_URL currentMonth)
       (fun r => fetchCalendarData_then r Ret c).

(** [useEffect(() => { fetchStats(); fetchCalendarData(); }, [])]: both
    requests are started, then their responses are handled. *)
Definition JournalApp_mount (BACKEND_URL currentMonth : jsstring) (c : client)
    : prog client :=
  Call (stats_request BACKEND_URL) (fun rs =>
  Call (calendar_request BACKEND_URL currentMonth) (fun rc =>
    fetchStats_then rs (fetchCalendarData_then rc Ret) c)).

(** The alerts of a trace. *)
Fixpoint alerts_of (tr : list event) : list jsstring :=
  match tr with
  | [] => []
  | Effect (Alert m) :: tr' => m :: alerts_of tr'
  | _ :: tr' => alerts_of tr'
  end.

(** ** The client: [AuthProvider] and [AuthForm] *)

(** A JavaScript value as the provider holds it: [None] is undefined,
    [Some JNull] is null. *)
Definition value := option json.

Definition truthy_value (v : value) : bool :=
  match v with
  | None | Some JNull => false
  | Some (JBool b) => b
  | Some (JNumber n) => negb (Z.eqb n 0)
  | Some (JString str) => truthy str
  | Some (JArray _) | Some (JObject _) => true
  end.

(** [String(v)], as [localStorage.setItem] and a template literal apply it. *)
Definition String_ (v : value) : jsstring :=
  match v with
  | None => js "undefined"
  | Some j => to_text j
  end.

(** [Object.is] on a value held before and one that just came in: arrays
    and objects of a new response are new objects. *)
Definition Object_is (a b : value) : bool :=
  match a, b with
  | None, None => true
  | Some JNull, Some JNull => true
  | Some (JBool x), Some (JBool y) => Bool.eqb x y
  | Some (JNumber x), Some (JNumber y) => same_number x y
  | Some (JString x), Some (JString y) => jsstring_eqb x y
  | _, _ => false
  end.

Module Auth.
Record state := {
  user : value;
  token : value;
  loading : bool;
  stored_token : option jsstring;     (* localStorage 'token' *)
  Authorization : option jsstring     (* axios.defaults.headers.common *)
}.

Inductive outcome :=
| success
| failure (error : jsstring).

Definition setUser (v : value) (a : state) : state :=
  {| user := v; token := token a; loading := loading a;
     stored_token := stored_token a; Authorization := Authorization a |}.

Definition setLoading (b : bool) (a : state) : state :=
  {| user := user a; token := token a; loading := b;
     stored_token := stored_token a; Authorization := Authorization a |}.

Definition setAuthorization (h : option jsstring) (a : state) : state :=
  {| user := user a; token := token a; loading := loading a;
     stored_token := stored_token a; Authorization := h |}.

(** [logout()] *)
Definition logout (a : state) : state :=
  {| user := Some JNull; token := Some JNull; loading := loading a;
     stored_token := None; Authorization := None |}.

(** The state updates of the [try] block of [login] and [register] once
    [response.data] is destructured. *)
Definition signed_in (data : json) (a : state) : state :=
  let newToken := get_field (js "token") data in
  let userData := get_field (js "user") data in
  {| user := userData; token := newToken; loading := loading a;
     stored_token := Some (String_ newToken);
     Authorization := Some (js "Bearer " ++ String_ newToken) |}.

Definition me_request (BACKEND_URL : jsstring) : request :=
  axios_get (API BACKEND_URL ++ js "/me").

(** [fetchUser()]; in its [catch], [logout()] sends the token to null, the
    token effect then only sets [loading] to false, as [finally] does. *)
Definition fetchUser (BACKEND_URL : jsstring) (a : state) : prog state :=
  Call (me_request BACKEND_URL) (fun r =>
    match r with
    | Fulfilled data => Ret (setLoading false (setUser (Some data) a))
    | Rejected _ =>
        Emit (ConsoleError (js "Failed to fetch user:"))
          (Ret (setLoading false (setLoading false (logout a))))
    end).

(** [useEffect(() => { ... }, [token])] *)
Definition token_effect (BACKEND_URL : jsstring) (a : state) : prog state :=
  if truthy_value (token a)
  then fetchUser BACKEND_URL
         (setAuthorization (Some (js "Bearer " ++ String_ (token a))) a)
  else Ret (setLoading false a).

(** What follows a [setToken]: the effect runs when the token is not the
    one held before. *)
Definition after_setToken (BACKEND_URL : jsstring) (before after : state)
    : prog state :=
  if Object_is (token before) (token after) then Ret after
  else token_effect BACKEND_URL after.

(** The common shape of [login] and [register], followed by the token
    effect.  Destructuring a null [response.data] throws, into the
    [catch]. *)
(** A program of the provider, made to return [success] with its state. *)
Fixpoint returning_success (p : prog state) : prog (state * outcome) :=
  match p with
  | Ret a' => Ret (a', success)
  | Call rq' k => Call rq' (fun r' => returning_success (k r'))
  | Emit e k => Emit e (returning_success k)
  end.

Definition sign_in (BACKEND_URL : jsstring) (rq : request) (fallback : jsstring)
    (a : state) : prog (state * outcome) :=
  Call rq (fun r =>
    match r with
    | Fulfilled JNull => Ret (a, failure fallback)
    | Fulfilled data =>
        returning_success (after_setToken BACKEND_URL a (signed_in data a))
    | Rejected detail => Ret (a, failure (detail_or detail fallback))
    end).

Definition login_request (BACKEND_URL email password : jsstring) : request :=
  axios_post (API BACKEND_URL ++ js "/login")
    (Some (JObject [ (js "email", JString email);
                     (js "password", JString password) ])).

Definition register_request (BACKEND_URL email password name : jsstring)
    : request :=
  axios_post (API BACKEND_URL ++ js "/register")
    (Some (JObject [ (js "email", JString email);
                     (js "password", JString password);
                     (js "name", JString name) ])).

Definition login (BACKEND_URL email password : jsstring) (a : state)
    : prog (state * outcome) :=
  sign_in BACKEND_URL (login_request BACKEND_URL email password)
          (js "Login failed") a.

Definition register (BACKEND_URL email password name : jsstring) (a : state)
    : prog (state * outcome) :=
  sign_in BACKEND_URL (register_request BACKEND_URL email password name)
          (js "Registration failed") a.

(** [login] and [register] up to their [return], which the form awaits:
    the token effect has not run yet. *)
Definition returned (rq : request) (fallback : jsstring) (a : state)
    : prog (state * outcome) :=
  Call rq (fun r =>
    match r with
    | Fulfilled JNull => Ret (a, failure fallback)
    | Fulfilled data => Ret (signed_in data a, success)
    | Rejected detail => Ret (a, failure (detail_or detail fallback))
    end).

Definition login_returned (BACKEND_URL email password : jsstring) (a : state)
    : prog (state * outcome) :=
  returned (login_request BACKEND_URL email password) (js "Login failed") a.

Definition register_returned (BACKEND_URL email password name : jsstring)
    (a : state) : prog (state * outcome) :=
  returned (register_request BACKEND_URL email password name)
           (js "Registration failed") a.

(** [logout()] and the token effect after it. *)
Definition logout_flow (BACKEND_URL : jsstring) (a : state) : prog state :=
  after_setToken BACKEND_URL a (logout a).

(** The provider as it mounts: the token comes from storage, then the
    token effect runs. *)
Definition mount (BACKEND_URL : jsstring) (stored : option jsstring)
    : prog state :=
  token_effect BACKEND_URL
    {| user := Some JNull;
       token := match stored with
                | Some t => Some (JString t)
                | None => Some JNull
                end;
       loading := true;
       stored_token := stored;
       Authorization := None |}.

(** The header, when there is one, carries the token held, and storage
    holds the same token. *)
Definition coherent (a : state) : Prop :=
  forall h, Authorization a = Some h ->
            h = js "Bearer " ++ String_ (token a) /\
            stored_token a = Some (String_ (token a)).

(** Nobody is signed in: no user, no token, nothing stored, no header. *)
Definition signed_out (a : state) : Prop :=
  user a = Some JNull /\ token a = Some JNull /\
  stored_token a = None /\ Authorization a = None.
End Auth.

(** What [AuthFlow] renders. *)
Inductive screen := Spinner | JournalApp_screen | AuthForm_screen.

Definition AuthFlow (a : Auth.state) : screen :=
  if Auth.loading a then Spinner
  else if truthy_value (Auth.user a) then JournalApp_screen
  else AuthForm_screen.

(** A signed-out provider state, and backends for the examples: one that
    signs in with token "t1" and then rejects everything, one that also
    answers [GET /me]. *)
Definition sample_auth : Auth.state :=
  {| Auth.user := Some JNull; Auth.token := Some JNull; Auth.loading := false;
     Auth.stored_token := None; Auth.Authorization := None |}.

Definition sample_session_data : json :=
  JObject [ (js "token", JString (js "t1"));
            (js "user", JObject [ (js "name", JString (js "Alice")) ]) ].

Definition login_only_backend (seen : list request) (rq : request) : response :=
  if ends_with (js "/api/login") (req_url rq)
  then Fulfilled sample_session_data
  else Rejected None.

Definition friendly_backend (seen : list request) (rq : request) : response :=
  if ends_with (js "/api/login") (req_url rq)
  then Fulfilled sample_session_data
  else Fulfilled (JObject [ (js "name", JString (js "Alice")) ]).

Module Form.
Record state := {
  isLogin : bool;
  email : jsstring;
  password : jsstring;
  name : jsstring;
  error : jsstring;
  loading : bool
}.

Definition setError (v : jsstring) (f : state) : state :=
  {| isLogin := isLogin f; email := email f; password := password f;
     name := name f; error := v; loading := loading f |}.

Definition setLoading (b : bool) (f : state) : state :=
  {| isLogin := isLogin f; email := email f; password := password f;
     name := name f; error := error f; loading := b |}.

(** The state of an [AuthForm] that has just been mounted. *)
Definition initial : state :=
  {| isLogin := true; email := []; password := []; name := []; error := [];
     loading := false |}.

(** [AuthFlow] rendered with the provider's state [a]; [slot] is the form
    that was on screen, if one was.  The form stays, with its state, while
    [AuthFlow] goes on returning [<AuthForm />]; it is unmounted, and its
    state lost, when [AuthFlow] returns the spinner or [<JournalApp />];
    a form that is mounted starts from [initial]. *)
Definition rendered (a : Auth.state) (slot : option state) : option state :=
  match AuthFlow a with
  | AuthForm_screen => Some (match slot with Some f => f | None => initial end)
  | _ => None
  end.

(** A state update of the form that called [handleSubmit]: nothing
    happens when it is no longer mounted. *)
Definition update (set_ : state -> state) (slot : option state) : option state :=
  match slot with
  | Some f => Some (set_ f)
  | None => None
  end.

(** The end of [handleSubmit], once the awaited [login] or [register],
    [p], has returned; [a] is the provider's state before it.  The
    provider's updates are rendered first, then the form's own; the token
    effect runs after that, and what it leaves is rendered again.  The
    result is the form on screen in the end, if there is one, and the
    provider's state. *)
Definition submitted (BACKEND_URL : jsstring) (f : state) (a : Auth.state)
    (p : prog (Auth.state * Auth.outcome)) : prog (option state * Auth.state) :=
  and_then p (fun result =>
    let a1 := fst result in
    let slot := rendered a1 (Some f) in
    match snd result with
    | Auth.failure msg =>
        Ret (update (setLoading false) (update (setError msg) slot), a1)
    | Auth.success =>
        and_then (Auth.after_setToken BACKEND_URL a a1) (fun a2 =>
          Ret (rendered a2 (update (setLoading false) slot), a2))
    end).

Definition handleSubmit (BACKEND_URL : jsstring) (f : state) (a : Auth.state)
    : prog (option state * Auth.state) :=
  let f1 := setError [] (setLoading true f) in
  submitted BACKEND_URL f1 a
    (if isLogin f
     then Auth.login_returned BACKEND_URL (email f) (password f) a
     else Auth.register_returned BACKEND_URL (email f) (password f) (name f) a).
End Form.

Definition sample_form : Form.state :=
  {| Form.isLogin := true; Form.email := js "a@x"; Form.password := js "pw";
     Form.name := []; Form.error := js "old message"; Form.loading := false |}.

(** * Properties *)

(** ** Three-valued logic *)

Lemma is_true_Some b : is_true (Some b) = b.
Proof. now destruct b. Qed.

Lemma is_true_or a b : is_true (sql_or a b) = is_true a || is_true b.
Proof. destruct a as [[|]|], b as [[|]|]; reflexivity. Qed.

Lemma is_true_and a b : is_true (sql_and a b) = is_true a && is_true b.
Proof. destruct a as [[|]|], b as [[|]|]; reflexivity. Qed.

Lemma is_true_eq_N (x y : option uuid) :
  is_true (sql_eq N.eqb x y) = true <-> exists u, x = Some u /\ y = Some u.
Proof.
  destruct x as [a|], y as [b|]; simpl; split;
    try (intros [u [H1 H2]]; discriminate); try discriminate.
  - destruct (N.eqb_spec a b) as [->|]; [eauto | discriminate].
  - intros [u [H1 H2]]. injection H1 as ->. injection H2 as ->.
    now rewrite N.eqb_refl.
Qed.

Lemma is_true_eq_string (x y : option text) :
  is_true (sql_eq String.eqb x y) = true <-> exists u, x = Some u /\ y = Some u.
Proof.
  destruct x as [a|], y as [b|]; simpl; split;
    try (intros [u [H1 H2]]; discriminate); try discriminate.
  - destruct (String.eqb_spec a b) as [->|]; [eauto | discriminate].
  - intros [u [H1 H2]]. injection H1 as ->. injection H2 as ->.
    now rewrite String.eqb_refl.
Qed.

Lemma uid_is_true s u : is_true (uid_is s u) = true <-> auth_uid s = Some u.
Proof.
  unfold uid_is. rewrite is_true_eq_N. split.
  - intros [v [H1 H2]]. congruence.
  - eauto.
Qed.

Lemma is_true_in_N (x : option uuid) l :
  is_true (sql_in N.eqb x l) = true <-> exists u, x = Some u /\ In (Some u) l.
Proof.
  induction l as [|e l IH]; simpl.
  - split; [discriminate | intros [u [_ []]]].
  - rewrite is_true_or, orb_true_iff, IH, is_true_eq_N. split.
    + intros [[u [H1 H2]] | [u [H1 H2]]]; exists u; subst; auto.
    + intros [u [H1 [H2 | H2]]]; [left | right]; exists u; auto.
Qed.

Lemma is_true_in_string (x : option text) l :
  is_true (sql_in String.eqb x l) = true <-> exists u, x = Some u /\ In (Some u) l.
Proof.
  induction l as [|e l IH]; simpl.
  - split; [discriminate | intros [u [_ []]]].
  - rewrite is_true_or, orb_true_iff, IH, is_true_eq_string. split.
    + intros [[u [H1 H2]] | [u [H1 H2]]]; exists u; subst; auto.
    + intros [u [H1 [H2 | H2]]]; [left | right]; exists u; auto.
Qed.

Lemma is_true_any_N (x : option uuid) arr :
  is_true (sql_any N.eqb x arr) = true <->
  exists u l, x = Some u /\ arr = Some l /\ In (Some u) l.
Proof.
  destruct arr as [l|]; simpl.
  - rewrite is_true_in_N. split.
    + intros [u [H1 H2]]. eauto.
    + intros [u [l' [H1 [H2 H3]]]]. injection H2 as ->. eauto.
  - split; [discriminate | intros [u [l [_ [H _]]]]; discriminate].
Qed.

Arguments sql_or : simpl never.
Arguments sql_and : simpl never.
Arguments sql_eq : simpl never.
Arguments is_true : simpl never.

(** ** Statements: what an UPDATE and a DELETE can touch *)

Section StatementFacts.
Context {row : Type}.
Variable rel : relation row.
Variable profs : list profiles.row.
Variable s : session.
Variable now : timestamptz.

Lemma update_loop_ok reads where_ set_ todo : forall done out,
  update_loop rel profs s now reads where_ set_ done todo = Ok out ->
  exists out', out = done ++ out' /\
               Forall2 (updated rel profs s now reads where_ set_) todo out'.
Proof.
  induction todo as [|r rest IH]; simpl; intros done out H.
  - injection H as <-. exists []. now rewrite app_nil_r.
  - destruct (targeted rel profs s UPDATE reads where_ r) eqn:T.
    + destruct (check_ok rel profs s UPDATE _) eqn:C; simpl in H; [|discriminate].
      destruct (reads && negb _); [discriminate|].
      destruct (conflicts rel _ _); [discriminate|].
      apply IH in H as [out' [-> F]].
      exists (rel_before_update rel now (set_ r) :: out'). split.
      * now rewrite <- app_assoc.
      * constructor; [right; auto | assumption].
    + apply IH in H as [out' [-> F]].
      exists (r :: out'). split.
      * now rewrite <- app_assoc.
      * constructor; [left; auto | assumption].
Qed.

Lemma rls_update_ok reads where_ set_ rows out :
  rls_update rel profs s now reads where_ set_ rows = Ok out ->
  Forall2 (updated rel profs s now reads where_ set_) rows out.
Proof.
  intros H. apply update_loop_ok in H as [out' [-> F]]. exact F.
Qed.

(** An UPDATE none of whose rows is targeted changes nothing. *)
Lemma update_loop_untargeted reads where_ set_ todo : forall done,
  (forall r, In r todo -> targeted rel profs s UPDATE reads where_ r = false) ->
  update_loop rel profs s now reads where_ set_ done todo = Ok (done ++ todo).
Proof.
  induction todo as [|r rest IH]; simpl; intros done H.
  - now rewrite app_nil_r.
  - rewrite (H r) by auto. rewrite IH by auto. now rewrite <- app_assoc.
Qed.

Lemma rls_delete_keeps reads where_ rows r :
  In r (rls_delete rel profs s reads where_ rows) <->
  In r rows /\ targeted rel profs s DELETE reads where_ r = false.
Proof.
  unfold rls_delete. rewrite filter_In, negb_true_iff. tauto.
Qed.

Lemma targeted_using c reads where_ r :
  targeted rel profs s c reads where_ r = true ->
  using_ok rel profs s c r = true.
Proof.
  unfold targeted. rewrite !andb_true_iff. tauto.
Qed.

Lemma rls_insert_ok returning r rows out :
  rls_insert rel profs s returning r rows = Ok out ->
  check_ok rel profs s INSERT r = true /\
  conflicts rel r rows = false /\ out = rows ++ [r].
Proof.
  unfold rls_insert.
  destruct (check_ok rel profs s INSERT r); simpl; [|discriminate].
  destruct (returning && negb _); [discriminate|].
  destruct (conflicts rel r rows); [discriminate|].
  intros H. injection H as <-. auto.
Qed.
End StatementFacts.

(** ** The rewriter on the relations of the migration *)

Lemma row_security_no_sublinks {row} (rel : relation row) c reads :
  sublinks rel c reads = [] -> row_security rel c reads = Some (Ok tt).
Proof. unfold row_security. now intros ->. Qed.

Lemma row_security_journal_entries c reads :
  row_security journal_entries_rel c reads = Some (Ok tt).
Proof. destruct c, reads; reflexivity. Qed.

Lemma row_security_mood_entries c reads :
  row_security mood_entries_rel c reads = Some (Ok tt).
Proof. destruct c, reads; reflexivity. Qed.

Lemma row_security_shared_reflections c reads :
  row_security shared_reflections_rel c reads = Some (Ok tt).
Proof. destruct c, reads; reflexivity. Qed.

Lemma row_security_entry_access_logs c reads :
  row_security entry_access_logs_rel c reads = Some (Ok tt).
Proof. destruct c, reads; reflexivity. Qed.

Lemma row_security_private_notes c reads :
  row_security private_notes_rel c reads = Some (Ok tt).
Proof. destruct c, reads; reflexivity. Qed.

(** On profiles the SELECT policy sub-selects profiles: the rewriter
    refuses every statement it is added to, and only those. *)
Lemma row_security_profiles c reads :
  row_security profiles_rel c reads
  = if reads || command_eqb c SELECT
    then Some (Err infinite_recursion)
    else Some (Ok tt).
Proof. destruct c, reads; reflexivity. Qed.

Lemma row_security_storage_objects uuid_text storage_foldername c reads :
  row_security (storage_objects_rel uuid_text storage_foldername) c reads
  = if reads || command_eqb c SELECT
    then Some (Err infinite_recursion)
    else Some (Ok tt).
Proof. destruct c, reads; reflexivity. Qed.

Lemma select_from_profiles profs s rows :
  select_from profiles_rel profs s rows = Some (Err infinite_recursion).
Proof. reflexivity. Qed.

(** ** What a statement does to each table *)

Lemma exec_on_inv {row} (rel : relation row) get put s now o db db' e :
  exec_on rel get put s now o db = Some (db', e) ->
  (db' = db /\ e <> None) \/
  (exists out,
      row_security rel (op_command o) (op_reads o) = Some (Ok tt) /\
      run_op rel (db_profiles db) s now o (get db) = Ok out /\
      references_hold rel (map profiles.id (db_profiles db)) o (get db) out = true /\
      db' = put db out /\ e = None).
Proof.
  unfold exec_on, run_statement.
  destruct (row_security _ _ _) as [[[]|err]|]; [| |discriminate].
  - destruct (run_op _ _ _ _ _ _) as [out|err] eqn:R; simpl.
    + destruct (references_hold _ _ _ _ _) eqn:F; simpl;
        intros H; injection H as <- <-.
      * right. exists out. auto.
      * left. split; [reflexivity | discriminate].
    + intros H; injection H as <- <-. left. split; [reflexivity | discriminate].
  - simpl. intros H; injection H as <- <-. left. split; [reflexivity | discriminate].
Qed.

Lemma exec_on_failed {row} (rel : relation row) get put s now o db err :
  row_security rel (op_command o) (op_reads o) = Some (Ok tt) ->
  run_op rel (db_profiles db) s now o (get db) = Err err ->
  exec_on rel get put s now o db = Some (db, Some err).
Proof. unfold exec_on, run_statement. now intros -> ->. Qed.

Lemma exec_on_done {row} (rel : relation row) get put s now o db out :
  row_security rel (op_command o) (op_reads o) = Some (Ok tt) ->
  run_op rel (db_profiles db) s now o (get db) = Ok out ->
  references_hold rel (map profiles.id (db_profiles db)) o (get db) out = true ->
  exec_on rel get put s now o db = Some (put db out, None).
Proof. unfold exec_on, run_statement, checked. now intros -> -> ->. Qed.

Lemma same_reference_refl a : same_reference a a = true.
Proof. destruct a; simpl; [apply N.eqb_refl | reflexivity]. Qed.

(** An UPDATE that leaves the referencing columns alone passes the check
    of the foreign keys. *)
Lemma references_kept {row} (rel : relation row) ids reads where_ set_
    (f : row -> row) rows :
  (forall r, rel_references rel (f r) = rel_references rel r) ->
  references_hold rel ids (Update reads where_ set_) rows (map f rows) = true.
Proof.
  intros K. cbn [references_hold].
  induction rows as [|r rows IH]; [reflexivity|].
  cbn [map combine forallb fst snd]. rewrite IH, andb_true_r, K.
  induction (rel_references rel r) as [|a l IHl]; [reflexivity|].
  cbn [combine forallb fst snd]. now rewrite same_reference_refl, IHl.
Qed.

(** ** Owner-only writes, for any relation whose write policies say so *)

Section OwnerOnlyFacts.
Context {row : Type}.
Variable rel : relation row.
Variable profs : list profiles.row.
Variable s : session.
Variable now : timestamptz.
Variable mine : row -> Prop.
Hypothesis policies : owner_only_policies rel profs s mine.

Lemma owner_only_writes : writes_only_own rel profs s now mine.
Proof.
  repeat split.
  - intros returning r rows out H.
    apply rls_insert_ok in H as [C _]. now apply policies in C.
  - intros reads where_ set_ rows out H.
    apply rls_update_ok in H.
    eapply Forall2_impl; [|exact H].
    intros old new [[_ E] | [T [_ C]]]; [now left | right]. split.
    + apply targeted_using in T. now apply policies in T.
    + now apply policies in C.
  - intros reads where_ rows r Hin Hout.
    destruct (targeted rel profs s DELETE reads where_ r) eqn:T.
    + apply targeted_using in T. now apply policies in T.
    + exfalso. apply Hout. apply rls_delete_keeps. auto.
Qed.
End OwnerOnlyFacts.

Lemma journal_entries_owner_only profs s :
  owner_only_policies journal_entries_rel profs s
    (fun r => owns s (journal_entries.user_id r)).
Proof.
  intros r. unfold check_ok, using_ok, owns; simpl.
  rewrite !orb_false_r. repeat split; apply uid_is_true.
Qed.

Lemma journal_entries_owner_may profs s :
  owner_may_write journal_entries_rel profs s
    (fun r => owns s (journal_entries.user_id r)).
Proof.
  intros r. unfold check_ok, using_ok, owns; simpl.
  rewrite !orb_false_r. intros H. repeat split; now apply uid_is_true.
Qed.

Lemma mood_entries_owner_only profs s :
  owner_only_policies mood_entries_rel profs s
    (fun r => owns s (mood_entries.user_id r)).
Proof.
  intros r. unfold check_ok, using_ok, owns; simpl.
  rewrite !orb_false_r. repeat split; apply uid_is_true.
Qed.

Lemma mood_entries_owner_may profs s :
  owner_may_write mood_entries_rel profs s
    (fun r => owns s (mood_entries.user_id r)).
Proof.
  intros r. unfold check_ok, using_ok, owns; simpl.
  rewrite !orb_false_r. intros H. repeat split; now apply uid_is_true.
Qed.

Lemma journal_entries_select profs s r :
  using_ok journal_entries_rel profs s SELECT r = true <->
  owns s (journal_entries.user_id r) \/ listed s (journal_entries.shared_with r).
Proof.
  unfold using_ok, owns, listed; simpl.
  rewrite !orb_false_r, is_true_or, orb_true_iff, uid_is_true, is_true_any_N.
  tauto.
Qed.

Lemma mood_entries_select profs s r :
  using_ok mood_entries_rel profs s SELECT r = true <->
  owns s (mood_entries.user_id r) \/ listed s (mood_entries.shared_with r).
Proof.
  unfold using_ok, owns, listed; simpl.
  rewrite !orb_false_r, is_true_or, orb_true_iff, uid_is_true, is_true_any_N.
  tauto.
Qed.

Lemma rls_select_In {row} (rel : relation row) profs s rows r :
  In r (rls_select rel profs s rows) <->
  In r rows /\ using_ok rel profs s SELECT r = true.
Proof. unfold rls_select. apply filter_In. Qed.

(** ** Journal and mood entries *)

(** C2. For the journal-entry and mood-entry stores and every requesting
    session: a SELECT returns a row if and only if the requester owns it
    or appears in its [shared_with] allow-list; the INSERT, UPDATE and
    DELETE policies admit a row only when the requester is its owner (and
    do admit the owner), so an INSERT adds, an UPDATE changes and a DELETE
    removes only rows owned by the requester. *)
Theorem entries_read_owner_or_listed_write_owner
    (profs : list profiles.row) (s : session) (now : timestamptz) :
  ((forall rows r,
       In r (rls_select journal_entries_rel profs s rows) <->
       In r rows /\ (owns s (journal_entries.user_id r) \/
                     listed s (journal_entries.shared_with r))) /\
   owner_only_policies journal_entries_rel profs s
     (fun r => owns s (journal_entries.user_id r)) /\
   owner_may_write journal_entries_rel profs s
     (fun r => owns s (journal_entries.user_id r)) /\
   writes_only_own journal_entries_rel profs s now
     (fun r => owns s (journal_entries.user_id r))) /\
  ((forall rows r,
       In r (rls_select mood_entries_rel profs s rows) <->
       In r rows /\ (owns s (mood_entries.user_id r) \/
                     listed s (mood_entries.shared_with r))) /\
   owner_only_policies mood_entries_rel profs s
     (fun r => owns s (mood_entries.user_id r)) /\
   owner_may_write mood_entries_rel profs s
     (fun r => owns s (mood_entries.user_id r)) /\
   writes_only_own mood_entries_rel profs s now
     (fun r => owns s (mood_entries.user_id r))).
Proof.
  split; (split; [|split; [|split]]).
  - intros rows r. now rewrite rls_select_In, journal_entries_select.
  - apply journal_entries_owner_only.
  - apply journal_entries_owner_may.
  - apply owner_only_writes, journal_entries_owner_only.
  - intros rows r. now rewrite rls_select_In, mood_entries_select.
  - apply mood_entries_owner_only.
  - apply mood_entries_owner_may.
  - apply owner_only_writes, mood_entries_owner_only.
Qed.

Example journal_select_sample :
  let rows := [ entry_of 10 alice 5 "a" (Some [Some bob]);
                entry_of 11 alice 6 "b" (Some []);
                entry_of 12 bob 5 "c" None ] in
  map journal_entries.id (rls_select journal_entries_rel [] (signed_in bob) rows)
    = [10%N; 12%N] /\
  map journal_entries.id (rls_select journal_entries_rel [] (signed_in carol) rows)
    = [] /\
  map journal_entries.id (rls_select journal_entries_rel [] anonymous rows) = [].
Proof. repeat split. Qed.

Example journal_insert_sample :
  rls_insert journal_entries_rel [] (signed_in bob) false
    (entry_of 13 alice 7 "x" None) [] = Err insufficient_privilege /\
  rls_insert journal_entries_rel [] (signed_in alice) true
    (entry_of 13 alice 7 "x" None) [] = Ok [entry_of 13 alice 7 "x" None].
Proof. split; reflexivity. Qed.

(** ** Private notes *)

Lemma private_notes_author_policies profs s :
  owner_only_policies private_notes_rel profs s
    (fun r => owns s (private_notes.user_id r)).
Proof.
  intros r. unfold check_ok, using_ok, owns; simpl.
  rewrite !orb_false_r. repeat split; apply uid_is_true.
Qed.

Lemma private_notes_select profs s r :
  using_ok private_notes_rel profs s SELECT r = true <->
  owns s (private_notes.user_id r).
Proof.
  unfold using_ok, owns; simpl. rewrite !orb_false_r. apply uid_is_true.
Qed.

Lemma Forall2_In_l {A B} (R : A -> B -> Prop) l l' a :
  Forall2 R l l' -> In a l -> exists b, In b l' /\ R a b.
Proof.
  induction 1 as [|x y l l' Hxy F IH]; simpl; [intros []|].
  intros [-> | H]; [eauto|].
  destruct (IH H) as [b [Hb Rb]]. eauto.
Qed.

(** C4. A private note authored by V is out of reach of every session that
    is not signed in as V, whoever owns the annotated entry: no SELECT,
    whatever its WHERE clause, returns it; an UPDATE that goes through
    leaves it as it was; a DELETE leaves it in the table.  The owner O of
    the entry, with O <> V, is one such session. *)
Theorem private_note_author_only
    (profs : list profiles.row) (s : session) (now : timestamptz)
    (rows : list private_notes.row) (note : private_notes.row) :
  In note rows ->
  auth_uid s <> Some (private_notes.user_id note) ->
  (forall where_,
      ~ In note (filter where_ (rls_select private_notes_rel profs s rows))) /\
  (forall reads where_ set_ out,
      rls_update private_notes_rel profs s now reads where_ set_ rows = Ok out ->
      In note out /\
      Forall2 (fun old new => old = note -> new = note) rows out) /\
  (forall reads where_,
      In note (rls_delete private_notes_rel profs s reads where_ rows)).
Proof.
  intros Hin Hne.
  pose proof (owner_only_writes private_notes_rel profs s now _
                (private_notes_author_policies profs s)) as [_ [Hupd Hdel]].
  repeat split.
  - intros where_ H. apply filter_In in H as [H _].
    apply rls_select_In in H as [_ H]. now apply private_notes_select in H.
  - apply Hupd in H.
    destruct (Forall2_In_l _ _ _ _ H Hin) as [b [Hb [-> | [Hown _]]]];
      [assumption | contradiction].
  - apply Hupd in H. eapply Forall2_impl; [|exact H].
    intros old new [-> | [Hown _]] E; [assumption|]. subst old. contradiction.
  - intros reads where_. apply rls_delete_keeps. split; [assumption|].
    destruct (targeted private_notes_rel profs s DELETE reads where_ note) eqn:T;
      [|reflexivity].
    apply targeted_using in T. apply private_notes_author_policies in T.
    contradiction.
Qed.

Lemma private_note_author_only_witness :
  In sample_note [sample_note] /\
  auth_uid (signed_in alice) <> Some (private_notes.user_id sample_note) /\
  ~ In sample_note
      (filter (fun n => N.eqb (private_notes.entry_id n) 10)
              (rls_select private_notes_rel [] (signed_in alice) [sample_note])) /\
  In sample_note
     (rls_delete private_notes_rel [] (signed_in alice) true (fun _ => true)
                 [sample_note]).
Proof.
  assert (H1 : In sample_note [sample_note]) by (simpl; auto).
  assert (H2 : auth_uid (signed_in alice)
               <> Some (private_notes.user_id sample_note))
    by (simpl; discriminate).
  destruct (private_note_author_only [] (signed_in alice) 0%Z
              [sample_note] sample_note H1 H2) as [S [_ D]].
  repeat split; [exact H1 | exact H2 | apply S | apply D].
Defined.

(** ** Profiles *)

Lemma partner_of_requester_In profs s P :
  In (Some P) (partner_of_requester profs s) <->
  exists R, auth_uid s = Some R /\ names_partner profs R P.
Proof.
  unfold partner_of_requester, names_partner.
  rewrite in_map_iff. split.
  - intros [q [Hp Hq]]. apply filter_In in Hq as [Hq Hid].
    apply is_true_eq_N in Hid as [u [H1 H2]]. injection H1 as <-.
    exists (profiles.id q). split; [assumption|]. exists q. auto.
  - intros [R [HR [q [Hq [Hid Hp]]]]]. exists q. split; [assumption|].
    apply filter_In. split; [assumption|].
    apply is_true_eq_N. exists R. subst R. auto.
Qed.

Lemma profiles_select profs s r :
  using_ok profiles_rel profs s SELECT r = true <->
  exists R, auth_uid s = Some R /\
            (R = profiles.id r \/ profiles.partner_id r = Some R \/
             names_partner profs R (profiles.id r)).
Proof.
  unfold using_ok; simpl.
  rewrite !orb_false_r, !is_true_or, !orb_true_iff, uid_is_true,
    is_true_eq_N, is_true_in_N.
  split.
  - intros [[H | [u [H1 H2]]] | [u [H1 H2]]].
    + exists (profiles.id r). auto.
    + exists u. auto.
    + injection H1 as <-. apply partner_of_requester_In in H2 as [R [HR Hn]].
      exists R. auto.
  - intros [R [HR [-> | [H | H]]]].
    + left; left. assumption.
    + left; right. exists R. auto.
    + right. exists (profiles.id r). split; [reflexivity|].
      apply partner_of_requester_In. exists R. auto.
Qed.

Lemma profiles_self_policies profs s :
  owner_only_policies profiles_rel profs s (fun r => owns s (profiles.id r)).
Proof.
  intros r. unfold check_ok, using_ok, owns; simpl.
  rewrite !orb_false_r. repeat split; try apply uid_is_true; discriminate.
Qed.

Lemma filter_all {A} (f : A -> bool) l :
  (forall x, In x l -> f x = true) -> filter f l = l.
Proof.
  induction l as [|a l IH]; simpl; intros H; [reflexivity|].
  rewrite (H a) by auto. f_equal. apply IH. auto.
Qed.

Lemma removed_same profs u : removed profs profs u = false.
Proof. unfold removed. now destruct (has_id profs u). Qed.

Lemma profiles_never_deleted profs s reads where_ rows :
  rls_delete profiles_rel profs s reads where_ rows = rows.
Proof.
  unfold rls_delete. apply filter_all. intros r _.
  unfold targeted, using_ok; simpl. now rewrite andb_false_r.
Qed.

Lemma cascade_nothing db : cascade (db_profiles db) (db_profiles db) db = db.
Proof.
  destruct db; unfold cascade; simpl. f_equal;
    apply filter_all; intros r _; now rewrite !removed_same.
Qed.

Lemma set_profiles_same db : set_profiles db (db_profiles db) = db.
Proof. now destruct db. Qed.

Lemma set_random_calls_same db : set_random_calls db (db_random_calls db) = db.
Proof. now destruct db. Qed.

Lemma has_id_map a b u :
  map profiles.id a = map profiles.id b -> has_id a u = has_id b u.
Proof.
  unfold has_id. revert b.
  induction a as [|x a IH]; intros [|y b] H; simpl in *; try discriminate;
    [reflexivity|].
  injection H as H1 H2. now rewrite H1, (IH b H2).
Qed.

Lemma no_id_lost before after (db : database) :
  map profiles.id after = map profiles.id before ->
  dangling_partner before after || dangling_rows before after db = false.
Proof.
  intros H.
  assert (G : forall u, removed before after u = false).
  { intros u. unfold removed. rewrite (has_id_map after before u H).
    now destruct (has_id before u). }
  unfold dangling_partner, dangling_rows.
  rewrite !orb_false_iff. repeat split; apply not_true_iff_false; intros T;
    apply existsb_exists in T as [x [_ T]];
    try (destruct (profiles.partner_id x)); rewrite ?G in T; discriminate.
Qed.

Lemma ids_known_kept users before after :
  map profiles.id after = map profiles.id before ->
  ids_known users before after = true.
Proof.
  unfold ids_known. revert after.
  induction before as [|x before IH]; intros [|y after] H; try discriminate;
    try reflexivity.
  simpl in H. injection H as H1 H2. cbn [combine forallb fst snd].
  now rewrite H1, N.eqb_refl, (IH after H2).
Qed.

Lemma references_hold_same {row} (rel : relation row) ids reads where_ set_ rows :
  references_hold rel ids (Update reads where_ set_) rows rows = true.
Proof.
  rewrite <- (map_id rows) at 2. now apply references_kept.
Qed.

(** An UPDATE of profiles that does not read and finds no row to change
    leaves the database as it is. *)
Lemma exec_profiles_update_untargeted fuel src s now where_ set_ db :
  (forall r, using_ok profiles_rel (db_profiles db) s UPDATE r = false) ->
  exec fuel src s now (on_profiles (Update false where_ set_)) db
    = Some (db, None).
Proof.
  intros U. cbn [exec]. unfold exec_profiles.
  rewrite row_security_profiles. cbn [op_reads op_command orb command_eqb].
  unfold rls_update. rewrite update_loop_untargeted.
  2:{ intros r _. unfold targeted. now rewrite U, andb_false_r. }
  cbn [app]. rewrite no_id_lost by reflexivity.
  rewrite ids_known_kept by reflexivity.
  rewrite references_hold_same. cbn [negb orb].
  now rewrite set_profiles_same.
Qed.

Lemma exec_profiles_delete fuel src s now where_ db :
  exec fuel src s now (on_profiles (Delete false where_)) db = Some (db, None).
Proof.
  cbn [exec]. unfold exec_profiles.
  rewrite row_security_profiles. cbn [op_reads op_command orb command_eqb].
  rewrite profiles_never_deleted, cascade_nothing.
  pose proof (no_id_lost (db_profiles db) (db_profiles db) db eq_refl) as N.
  apply orb_false_iff in N as [N _]. now rewrite N.
Qed.

Lemma exec_profiles_reads fuel src s now o db :
  op_reads o = true ->
  exec fuel src s now (on_profiles o) db = Some (db, Some infinite_recursion).
Proof.
  intros R. cbn [exec]. unfold exec_profiles.
  rewrite row_security_profiles, R. reflexivity.
Qed.

(** C5, evaluated.  Alice, signed in, reads her own profile: the SELECT
    policy of profiles is added to the statement, its sub-select reads
    profiles, whose SELECT policy is being added, and the statement is
    refused with "infinite recursion detected in policy".  So is every
    SELECT on profiles by every session, and every INSERT, UPDATE and
    DELETE that reads the table (RETURNING, WHERE): nobody reads a
    profile, not even its own.  The other half of the claim holds: the
    INSERT and UPDATE policies admit a profile exactly when the requester
    is that profile, and a statement on profiles that goes through adds
    the requester's own profile, which must bring its invite code, or
    changes only the requester's own. *)
Theorem profile_reads_refused_writes_self
    (fuel : nat) (src : random_source) (s : session) (now : timestamptz)
    (db : database) :
  select_from profiles_rel sample_couple (signed_in alice)
              (filter (fun P => N.eqb (profiles.id P) alice) sample_couple)
    = Some (Err infinite_recursion) /\
  (forall rows,
      select_from profiles_rel (db_profiles db) s rows
        = Some (Err infinite_recursion)) /\
  (forall o,
      op_reads o = true ->
      exec fuel src s now (on_profiles o) db = Some (db, Some infinite_recursion)) /\
  (forall P,
      (check_ok profiles_rel (db_profiles db) s INSERT P = true
       <-> owns s (profiles.id P)) /\
      (using_ok profiles_rel (db_profiles db) s UPDATE P = true
       <-> owns s (profiles.id P)) /\
      (check_ok profiles_rel (db_profiles db) s UPDATE P = true
       <-> owns s (profiles.id P))) /\
  (forall o db',
      exec fuel src s now (on_profiles o) db = Some (db', None) ->
      match o with
      | Insert _ P =>
          db_profiles db' = db_profiles db ++ [P] /\
          owns s (profiles.id P) /\ profiles.invite_code P <> None
      | Update _ _ _ =>
          Forall2 (fun old new =>
                     new = old \/
                     (owns s (profiles.id old) /\ owns s (profiles.id new)))
                  (db_profiles db) (db_profiles db')
      | Delete _ _ => db_profiles db' = db_profiles db
      end).
Proof.
  split; [reflexivity|]. split; [reflexivity|]. split; [|split].
  - intros o R. now apply exec_profiles_reads.
  - intros P. unfold check_ok, using_ok, owns; simpl.
    rewrite !orb_false_r. repeat split; apply uid_is_true.
  - intros o db'. cbn [exec]. unfold exec_profiles.
    destruct (row_security _ _ _) as [[[]|err]|]; [|discriminate|discriminate].
    destruct o as [returning P|reads where_ set_|reads where_].
    + rewrite select_from_profiles. unfold set_invite_code.
      destruct (profiles.invite_code P) as [code|] eqn:C.
      * intros H. injection H as H.
        destruct (rls_insert _ _ _ _ _ _) as [rows|err] eqn:I;
          [|discriminate].
        destruct (_ && _); [|discriminate]. simpl in H. injection H as <-.
        apply rls_insert_ok in I as [Chk [_ ->]].
        split; [reflexivity|]. split; [|discriminate].
        destruct (profiles_self_policies (db_profiles db) s P) as [Hi _].
        now apply Hi.
      * destruct (generate_invite_code _ _). discriminate.
    + intros H. injection H as H.
      destruct (rls_update _ _ _ _ _ _ _ _) as [rows|err] eqn:U; [|discriminate].
      destruct (_ || _); [discriminate|]. injection H as <-.
      apply (owner_only_writes _ _ _ now _
               (profiles_self_policies (db_profiles db) s)) in U.
      exact U.
    + rewrite profiles_never_deleted, cascade_nothing.
      intros H. injection H as H.
      destruct (dangling_partner _ _); injection H as <-; reflexivity.
Qed.

(** What the statements of a couple on profiles come to. *)
Example profiles_statements_sample :
  let db := set_profiles empty_database sample_couple in
  exec 0 sample_source (signed_in alice) 1%Z
       (on_profiles (Update true (fun P => N.eqb (profiles.id P) alice)
                            (set_partner carol))) db
    = Some (db, Some infinite_recursion) /\
  exec 0 sample_source (signed_in bob) 1%Z
       (on_profiles (Insert false (profile_of carol "c@x" None None))) db
    = Some (set_random_calls db 8, Some infinite_recursion) /\
  exec 0 sample_source (signed_in bob) 1%Z
       (on_profiles (Insert false (profile_of carol "c@x" (Some "CAROL123") None))) db
    = Some (db, Some insufficient_privilege) /\
  select_from journal_entries_rel sample_couple (signed_in bob) sample_entries
    = Some (Ok sample_entries).
Proof. repeat split; vm_compute; reflexivity. Qed.

(** ** Access logs *)

Lemma access_logs_never_targeted profs s c reads where_ r :
  c = UPDATE \/ c = DELETE ->
  targeted entry_access_logs_rel profs s c reads where_ r = false.
Proof.
  intros [-> | ->]; unfold targeted, using_ok; simpl; now rewrite andb_false_r.
Qed.

Lemma access_logs_update_noop profs s now reads where_ set_ rows :
  rls_update entry_access_logs_rel profs s now reads where_ set_ rows = Ok rows.
Proof.
  unfold rls_update. rewrite update_loop_untargeted; [reflexivity|].
  intros r _. apply access_logs_never_targeted. auto.
Qed.

Lemma access_logs_delete_noop profs s reads where_ rows :
  rls_delete entry_access_logs_rel profs s reads where_ rows = rows.
Proof.
  unfold rls_delete. apply filter_all. intros r _.
  rewrite access_logs_never_targeted; auto.
Qed.

Lemma exec_on_wrote {row} (rel : relation row) get put s now o db db' e :
  (forall d rows, get (put d rows) = rows) ->
  exec_on rel get put s now o db = Some (db', e) ->
  wrote rel (db_profiles db) s now (get db) (get db') /\
  (db' = db \/ db' = put db (get db')).
Proof.
  intros G H. apply exec_on_inv in H as [[-> _] | [out [_ [R [_ [-> _]]]]]].
  - split; [now left | now left].
  - rewrite G. split; [right; now exists o | now right].
Qed.

Lemma exec_tables fuel src s now st db db' e :
  exec fuel src s now st db = Some (db', e) ->
  (db_profiles db' = db_profiles db \/
   (exists returning NEW,
       rls_insert profiles_rel (db_profiles db) s returning NEW (db_profiles db)
         = Ok (db_profiles db')) \/
   (exists reads where_ set_,
       rls_update profiles_rel (db_profiles db) s now reads where_ set_
                  (db_profiles db) = Ok (db_profiles db')) \/
   (exists uid mail name pos pos',
       handle_new_user fuel src (db_profiles db) uid mail name now pos
         = Some (Ok (db_profiles db'), pos'))) /\
  wrote journal_entries_rel (db_profiles db) s now
        (db_journal_entries db) (db_journal_entries db') /\
  wrote mood_entries_rel (db_profiles db) s now
        (db_mood_entries db) (db_mood_entries db') /\
  wrote shared_reflections_rel (db_profiles db) s now
        (db_shared_reflections db) (db_shared_reflections db') /\
  wrote entry_access_logs_rel (db_profiles db) s now
        (db_entry_access_logs db) (db_entry_access_logs db') /\
  wrote private_notes_rel (db_profiles db) s now
        (db_private_notes db) (db_private_notes db').
Proof.
  assert (Same : forall d : database,
            db_profiles d = db_profiles db ->
            db_journal_entries d = db_journal_entries db ->
            db_mood_entries d = db_mood_entries db ->
            db_shared_reflections d = db_shared_reflections db ->
            db_entry_access_logs d = db_entry_access_logs db ->
            db_private_notes d = db_private_notes db ->
            (db_profiles d = db_profiles db \/
             (exists returning NEW,
                 rls_insert profiles_rel (db_profiles db) s returning NEW (db_profiles db)
                   = Ok (db_profiles d)) \/
             (exists reads where_ set_,
                 rls_update profiles_rel (db_profiles db) s now reads where_ set_
                            (db_profiles db) = Ok (db_profiles d)) \/
             (exists uid mail name pos pos',
                 handle_new_user fuel src (db_profiles db) uid mail name now pos
                   = Some (Ok (db_profiles d), pos'))) /\
            wrote journal_entries_rel (db_profiles db) s now
                  (db_journal_entries db) (db_journal_entries d) /\
            wrote mood_entries_rel (db_profiles db) s now
                  (db_mood_entries db) (db_mood_entries d) /\
            wrote shared_reflections_rel (db_profiles db) s now
                  (db_shared_reflections db) (db_shared_reflections d) /\
            wrote entry_access_logs_rel (db_profiles db) s now
                  (db_entry_access_logs db) (db_entry_access_logs d) /\
            wrote private_notes_rel (db_profiles db) s now
                  (db_private_notes db) (db_private_notes d)).
  { intros d -> -> -> -> -> ->. unfold wrote. repeat split; now left. }
  assert (Profs : forall d : database,
            db_journal_entries d = db_journal_entries db ->
            db_mood_entries d = db_mood_entries db ->
            db_shared_reflections d = db_shared_reflections db ->
            db_entry_access_logs d = db_entry_access_logs db ->
            db_private_notes d = db_private_notes db ->
            wrote journal_entries_rel (db_profiles db) s now
                  (db_journal_entries db) (db_journal_entries d) /\
            wrote mood_entries_rel (db_profiles db) s now
                  (db_mood_entries db) (db_mood_entries d) /\
            wrote shared_reflections_rel (db_profiles db) s now
                  (db_shared_reflections db) (db_shared_reflections d) /\
            wrote entry_access_logs_rel (db_profiles db) s now
                  (db_entry_access_logs db) (db_entry_access_logs d) /\
            wrote private_notes_rel (db_profiles db) s now
                  (db_private_notes db) (db_private_notes d)).
  { intros d -> -> -> -> ->. unfold wrote. repeat split; now left. }
  destruct st as [o|o|o|o|o|o|uid mail name]; cbn [exec].
  - unfold exec_profiles.
    destruct (row_security _ _ _) as [[[]|err]|]; [| |discriminate].
    2:{ intros H; injection H as <- _. now apply Same. }
    destruct o as [returning r|reads where_ set_|reads where_].
    + destruct (select_from _ _ _ _) as [visible|]; [|discriminate].
      destruct (set_invite_code _ _ _ _ _) as [[[NEW|err] pos]|]; [| |discriminate].
      * intros H. injection H as H.
        destruct (rls_insert _ _ _ _ _ _) as [rows|err] eqn:I.
        -- destruct (_ && _); simpl in H; injection H as <- _.
           ++ split; [|now apply Profs].
              right; left. exists returning, NEW. exact I.
           ++ now apply Same.
        -- simpl in H; injection H as <- _. now apply Same.
      * intros H; injection H as <- _. now apply Same.
    + intros H. injection H as H.
      destruct (rls_update _ _ _ _ _ _ _ _) as [rows|err] eqn:U.
      * destruct (_ || _); injection H as <- _; [now apply Same|].
        split; [|now apply Profs].
        right; right; left. exists reads, where_, set_. exact U.
      * injection H as <- _. now apply Same.
    + rewrite profiles_never_deleted, cascade_nothing.
      intros H. injection H as H.
      destruct (dangling_partner _ _); injection H as <- _; now apply Same.
  - intros H.
    apply (exec_on_wrote journal_entries_rel db_journal_entries set_journal_entries s now o db db' e
             (fun _ _ => eq_refl)) in H
      as [W [-> | ->]]; [now apply Same|].
    split; [now left|]. split; [exact W|]. unfold wrote. repeat split; now left.
  - intros H.
    apply (exec_on_wrote mood_entries_rel db_mood_entries set_mood_entries s now o db db' e
             (fun _ _ => eq_refl)) in H
      as [W [-> | ->]]; [now apply Same|].
    split; [now left|]. split; [now left|]. split; [exact W|].
    unfold wrote. repeat split; now left.
  - intros H.
    apply (exec_on_wrote shared_reflections_rel db_shared_reflections set_shared_reflections s now o db db' e
             (fun _ _ => eq_refl)) in H
      as [W [-> | ->]]; [now apply Same|].
    split; [now left|]. split; [now left|]. split; [now left|]. split; [exact W|].
    unfold wrote. repeat split; now left.
  - intros H.
    apply (exec_on_wrote entry_access_logs_rel db_entry_access_logs set_entry_access_logs s now o db db' e
             (fun _ _ => eq_refl)) in H
      as [W [-> | ->]]; [now apply Same|].
    split; [now left|]. split; [now left|]. split; [now left|]. split; [now left|].
    split; [exact W|]. now left.
  - intros H.
    apply (exec_on_wrote private_notes_rel db_private_notes set_private_notes s now o db db' e
             (fun _ _ => eq_refl)) in H
      as [W [-> | ->]]; [now apply Same|].
    split; [now left|]. split; [now left|]. split; [now left|]. split; [now left|].
    split; [now left|]. exact W.
  - destruct (existsb _ _); [intros H; injection H as <- _; now apply Same|].
    destruct (handle_new_user _ _ _ _ _ _ _ _) as [[[rows|err] pos]|] eqn:U;
      [| |discriminate]; intros H; injection H as <- _.
    + split; [|now apply Profs].
      right; right; right. exists uid, mail, name, (db_random_calls db), pos. exact U.
    + now apply Same.
Qed.

Lemma exec_extends_logs fuel src s now st db db' e :
  exec fuel src s now st db = Some (db', e) ->
  exists added,
    db_entry_access_logs db' = db_entry_access_logs db ++ added.
Proof.
  intros H. apply exec_tables in H as [_ [_ [_ [_ [[-> | [o R]] _]]]]].
  - exists []. now rewrite app_nil_r.
  - destruct o as [returning r|reads where_ set_|reads where_]; simpl in R.
    + apply rls_insert_ok in R as [_ [_ ->]]. exists [r]. reflexivity.
    + rewrite access_logs_update_noop in R. injection R as <-.
      exists []. now rewrite app_nil_r.
    + rewrite access_logs_delete_noop in R. injection R as <-.
      exists []. now rewrite app_nil_r.
Qed.

Lemma steps_extend_logs db db' :
  steps db db' ->
  exists added,
    db_entry_access_logs db' = db_entry_access_logs db ++ added.
Proof.
  induction 1 as [db | fuel src s now st db db' db'' e _ [a1 IH] H].
  - exists []. now rewrite app_nil_r.
  - apply exec_extends_logs in H as [a2 H].
    exists (a1 ++ a2). now rewrite H, IH, app_assoc.
Qed.

Lemma entry_access_logs_select profs s r :
  using_ok entry_access_logs_rel profs s SELECT r = true <->
  owns s (entry_access_logs.accessed_by r) \/
  owns s (entry_access_logs.entry_owner r).
Proof.
  unfold using_ok, owns; simpl.
  rewrite !orb_false_r, is_true_or, orb_true_iff, !uid_is_true. tauto.
Qed.

(** C6. Access-log records are append-only: whatever statements any
    sessions run, the log table after them is the log table before them
    with records added at the end, and an UPDATE or a DELETE on the table
    leaves it as it is; the INSERT policy admits a record exactly when the
    session's identity equals its [accessed_by] field; a SELECT returns a
    record exactly when the requester is its [accessed_by] viewer or its
    [entry_owner]. *)
Theorem access_logs_append_only :
  (forall db db',
      steps db db' ->
      exists added,
        db_entry_access_logs db' = db_entry_access_logs db ++ added) /\
  (forall profs s now reads where_ set_ rows,
      rls_update entry_access_logs_rel profs s now reads where_ set_ rows
        = Ok rows /\
      rls_delete entry_access_logs_rel profs s reads where_ rows = rows) /\
  (forall profs s r,
      check_ok entry_access_logs_rel profs s INSERT r = true <->
      owns s (entry_access_logs.accessed_by r)) /\
  (forall profs s returning r rows out,
      rls_insert entry_access_logs_rel profs s returning r rows = Ok out ->
      owns s (entry_access_logs.accessed_by r) /\ out = rows ++ [r]) /\
  (forall profs s rows r,
      In r (rls_select entry_access_logs_rel profs s rows) <->
      In r rows /\ (owns s (entry_access_logs.accessed_by r) \/
                    owns s (entry_access_logs.entry_owner r))).
Proof.
  split; [|split; [|split; [|split]]].
  - apply steps_extend_logs.
  - intros. split.
    + apply access_logs_update_noop.
    + apply access_logs_delete_noop.
  - intros profs s r. unfold check_ok, owns; simpl.
    rewrite !orb_false_r. apply uid_is_true.
  - intros profs s returning r rows out H.
    apply rls_insert_ok in H as [C [_ ->]]. split; [|reflexivity].
    unfold check_ok in C; simpl in C. rewrite !orb_false_r in C.
    now apply uid_is_true.
  - intros profs s rows r.
    now rewrite rls_select_In, entry_access_logs_select.
Qed.

(** ** UNIQUE constraints as invariants *)

Section UniqueKey.
Context {row K : Type}.
Variable rel : relation row.
Variable key : row -> K.
Variable same : row -> row -> bool.
Hypothesis same_listed : In same (rel_unique rel).
Hypothesis same_key : forall a b, same a b = true <-> key a = key b.

Lemma conflicts_key r rows :
  In (key r) (map key rows) -> conflicts rel r rows = true.
Proof.
  intros H. apply in_map_iff in H as [r' [E Hin]].
  unfold conflicts. apply existsb_exists. exists r'. split; [assumption|].
  apply existsb_exists. exists same. split; [assumption|].
  now apply same_key.
Qed.

Lemma insert_keeps_keys profs s returning r rows out :
  NoDup (map key rows) ->
  rls_insert rel profs s returning r rows = Ok out ->
  NoDup (map key out).
Proof.
  intros ND H. apply rls_insert_ok in H as [_ [C ->]].
  rewrite map_app. simpl.
  apply (Permutation_NoDup
           (Permutation_cons_append (map key rows) (key r))).
  constructor; [|assumption].
  intros Hin. apply conflicts_key in Hin. congruence.
Qed.

Lemma filter_keeps_keys (f : row -> bool) rows :
  NoDup (map key rows) -> NoDup (map key (filter f rows)).
Proof.
  induction rows as [|r rows IH]; simpl; intros ND; [constructor|].
  inversion ND as [|x l Hnot ND']; subst.
  destruct (f r); simpl; [|auto].
  constructor; [|auto].
  intros Hin. apply Hnot. apply in_map_iff in Hin as [r' [E Hin]].
  apply filter_In in Hin as [Hin _]. apply in_map_iff. eauto.
Qed.

Lemma update_loop_keeps_keys profs s now reads where_ set_ todo :
  forall done out,
    NoDup (map key (done ++ todo)) ->
    update_loop rel profs s now reads where_ set_ done todo = Ok out ->
    NoDup (map key out).
Proof.
  induction todo as [|r rest IH]; simpl; intros done out ND H.
  - injection H as <-. now rewrite app_nil_r in ND.
  - destruct (targeted rel profs s UPDATE reads where_ r).
    + destruct (check_ok rel profs s UPDATE _); simpl in H; [|discriminate].
      destruct (reads && negb _); [discriminate|].
      destruct (conflicts rel _ (done ++ rest)) eqn:C; [discriminate|].
      apply IH in H; [assumption|].
      rewrite <- app_assoc. simpl.
      rewrite map_app in *. simpl in *.
      apply NoDup_remove_1 in ND.
      apply (Permutation_NoDup
               (Permutation_middle _ _ _)).
      constructor; [|assumption].
      intros Hin. rewrite <- map_app in Hin.
      apply conflicts_key in Hin. congruence.
    + apply IH in H; [assumption|]. now rewrite <- app_assoc.
Qed.

Lemma run_op_keeps_keys profs s now o rows out :
  NoDup (map key rows) ->
  run_op rel profs s now o rows = Ok out ->
  NoDup (map key out).
Proof.
  intros ND. destruct o as [returning r|reads where_ set_|reads where_]; simpl.
  - now apply insert_keeps_keys.
  - now apply update_loop_keeps_keys.
  - intros H. injection H as <-. now apply filter_keeps_keys.
Qed.

(** A duplicate key makes the INSERT fail, with the conflict when the
    policies admit the row. *)
Lemma insert_duplicate profs s returning r rows :
  In (key r) (map key rows) ->
  exists e, rls_insert rel profs s returning r rows = Err e /\
            (check_ok rel profs s INSERT r = true ->
             using_ok rel profs s SELECT r = true ->
             e = unique_violation).
Proof.
  intros H. apply conflicts_key in H. unfold rls_insert. rewrite H.
  destruct (check_ok rel profs s INSERT r); simpl.
  - destruct (using_ok rel profs s SELECT r); simpl.
    + rewrite andb_false_r. eauto.
    + destruct returning; simpl; eexists; split; try reflexivity;
        intros _ D; discriminate.
  - eexists; split; [reflexivity|]. discriminate.
Qed.
End UniqueKey.

Lemma NoDup_key_at_most_one {row K} (key : row -> K) (test : row -> bool) rows :
  (forall a b, test a = true -> test b = true -> key a = key b) ->
  NoDup (map key rows) ->
  List.length (filter test rows) <= 1.
Proof.
  intros Htest. induction rows as [|r rows IH]; simpl; intros ND; [lia|].
  inversion ND as [|x l Hnot ND']; subst.
  destruct (test r) eqn:T; [|auto].
  simpl. destruct (filter test rows) as [|r' rest] eqn:F; [simpl; lia|].
  exfalso. apply Hnot.
  assert (Hin : In r' (filter test rows)) by (rewrite F; simpl; auto).
  apply filter_In in Hin as [Hin T'].
  rewrite (Htest r r' T T'). now apply in_map.
Qed.

Lemma journal_same_key a b :
  N.eqb (journal_entries.user_id a) (journal_entries.user_id b)
  && Z.eqb (journal_entries.date a) (journal_entries.date b) = true <->
  journal_key a = journal_key b.
Proof.
  unfold journal_key. rewrite andb_true_iff, N.eqb_eq, Z.eqb_eq. split.
  - intros [-> ->]. reflexivity.
  - intros H. injection H. auto.
Qed.

Lemma mood_same_key a b :
  N.eqb (mood_entries.user_id a) (mood_entries.user_id b)
  && Z.eqb (mood_entries.date a) (mood_entries.date b) = true <->
  mood_key a = mood_key b.
Proof.
  unfold mood_key. rewrite andb_true_iff, N.eqb_eq, Z.eqb_eq. split.
  - intros [-> ->]. reflexivity.
  - intros H. injection H. auto.
Qed.

Lemma journal_run_op_keys profs s now o rows out :
  NoDup (map journal_key rows) ->
  run_op journal_entries_rel profs s now o rows = Ok out ->
  NoDup (map journal_key out).
Proof.
  apply (run_op_keeps_keys journal_entries_rel journal_key _
           (or_intror (or_introl eq_refl)) journal_same_key).
Qed.

Lemma mood_run_op_keys profs s now o rows out :
  NoDup (map mood_key rows) ->
  run_op mood_entries_rel profs s now o rows = Ok out ->
  NoDup (map mood_key out).
Proof.
  apply (run_op_keeps_keys mood_entries_rel mood_key _
           (or_intror (or_introl eq_refl)) mood_same_key).
Qed.

Lemma exec_daily_keys fuel src s now st db db' e :
  daily_keys db ->
  exec fuel src s now st db = Some (db', e) ->
  daily_keys db'.
Proof.
  intros [J M] H. apply exec_tables in H as [_ [Wj [Wm _]]]. split.
  - destruct Wj as [-> | [o R]]; [assumption|].
    eapply journal_run_op_keys; eauto.
  - destruct Wm as [-> | [o R]]; [assumption|].
    eapply mood_run_op_keys; eauto.
Qed.

Lemma reachable_daily_keys db : reachable db -> daily_keys db.
Proof.
  unfold reachable. remember empty_database as db0 eqn:E.
  induction 1 as [db | fuel src s now st db db' db'' e _ IH H].
  - subst db. split; constructor.
  - eapply exec_daily_keys; [|exact H]. auto.
Qed.

(** C3. In every database the statements can produce there is at most one
    journal entry and at most one mood entry for an owner O and a date D;
    an INSERT of a row whose (owner, date) an existing row already has
    fails and leaves the database as it was, and the failure is the
    unique-key conflict when the inserting session is the row's owner. *)
Theorem one_entry_per_owner_and_day :
  (forall db O D,
      reachable db ->
      List.length (journal_entries_of O D (db_journal_entries db)) <= 1 /\
      List.length (mood_entries_of O D (db_mood_entries db)) <= 1) /\
  (forall fuel src s now db returning r existing,
      In existing (db_journal_entries db) ->
      journal_entries.user_id existing = journal_entries.user_id r ->
      journal_entries.date existing = journal_entries.date r ->
      exists e,
        exec fuel src s now (on_journal_entries (Insert returning r)) db
          = Some (db, Some e) /\
        (owns s (journal_entries.user_id r) -> e = unique_violation)) /\
  (forall fuel src s now db returning r existing,
      In existing (db_mood_entries db) ->
      mood_entries.user_id existing = mood_entries.user_id r ->
      mood_entries.date existing = mood_entries.date r ->
      exists e,
        exec fuel src s now (on_mood_entries (Insert returning r)) db
          = Some (db, Some e) /\
        (owns s (mood_entries.user_id r) -> e = unique_violation)).
Proof.
  split; [|split].
  - intros db O D R. apply reachable_daily_keys in R as [J M]. split.
    + eapply NoDup_key_at_most_one; [|exact J].
      intros a b Ha Hb. apply andb_true_iff in Ha as [Ha1 Ha2].
      apply andb_true_iff in Hb as [Hb1 Hb2].
      apply N.eqb_eq in Ha1, Hb1. apply Z.eqb_eq in Ha2, Hb2.
      unfold journal_key. congruence.
    + eapply NoDup_key_at_most_one; [|exact M].
      intros a b Ha Hb. apply andb_true_iff in Ha as [Ha1 Ha2].
      apply andb_true_iff in Hb as [Hb1 Hb2].
      apply N.eqb_eq in Ha1, Hb1. apply Z.eqb_eq in Ha2, Hb2.
      unfold mood_key. congruence.
  - intros fuel src s now db returning r existing Hin Hu Hd.
    assert (K : In (journal_key r) (map journal_key (db_journal_entries db))).
    { apply in_map_iff. exists existing. split; [|assumption].
      unfold journal_key. congruence. }
    destruct (insert_duplicate journal_entries_rel journal_key _
                (or_intror (or_introl eq_refl)) journal_same_key
                (db_profiles db) s returning r _ K) as [e [E He]].
    exists e. split.
    { apply exec_on_failed; [apply row_security_journal_entries | exact E]. }
    intros Hown. apply He.
    + now apply journal_entries_owner_may.
    + apply journal_entries_select. now left.
  - intros fuel src s now db returning r existing Hin Hu Hd.
    assert (K : In (mood_key r) (map mood_key (db_mood_entries db))).
    { apply in_map_iff. exists existing. split; [|assumption].
      unfold mood_key. congruence. }
    destruct (insert_duplicate mood_entries_rel mood_key _
                (or_intror (or_introl eq_refl)) mood_same_key
                (db_profiles db) s returning r _ K) as [e [E He]].
    exists e. split.
    { apply exec_on_failed; [apply row_security_mood_entries | exact E]. }
    intros Hown. apply He.
    + now apply mood_entries_owner_may.
    + apply mood_entries_select. now left.
Qed.

Example journal_duplicate_sample :
  rls_insert journal_entries_rel [] (signed_in alice) false
    (entry_of 11 alice 5 "again" None) sample_entries = Err unique_violation /\
  rls_insert journal_entries_rel [] (signed_in alice) false
    (entry_of 11 alice 6 "next day" None) sample_entries
    = Ok (sample_entries ++ [entry_of 11 alice 6 "next day" None]) /\
  rls_update journal_entries_rel [] (signed_in alice) 9%Z true (fun _ => true)
    (fun r => entry_of 10 alice 5 "edited" None) sample_entries
    = Ok [ journal_entries_touch 9%Z (entry_of 10 alice 5 "edited" None) ].
Proof. repeat split. Qed.

(** ** Shared reflections *)

(** C1, evaluated.  The service role inserts a reflection for date 5 and
    the pair (alice, bob).  A second reflection for the same date with the
    array in the same order is refused as a duplicate key; with the two
    participants in the other order it is accepted, and the table then
    holds two reflections for that date and that couple. *)
Theorem reflections_swapped_pair_both_accepted :
  let src : random_source := fun _ => 0%Q in
  let first := reflection_of 30 5 [Some alice; Some bob] "one" in
  let again := reflection_of 31 5 [Some alice; Some bob] "two" in
  let swapped := reflection_of 31 5 [Some bob; Some alice] "two" in
  let db1 := set_shared_reflections empty_database [first] in
  exec 0 src service 0%Z (on_shared_reflections (Insert false first))
       empty_database = Some (db1, None) /\
  exec 0 src service 0%Z (on_shared_reflections (Insert false again)) db1
    = Some (db1, Some unique_violation) /\
  exec 0 src service 0%Z (on_shared_reflections (Insert false swapped)) db1
    = Some (set_shared_reflections db1 [first; swapped], None).
Proof. repeat split. Qed.

(** ** Audio objects *)

Section AudioObjects.
Variable uuid_text : uuid -> text.
Variable storage_foldername : text -> list text.
Hypothesis uuid_text_inj : forall a b, uuid_text a = uuid_text b -> a = b.

Lemma own_folder_true profs s o :
  is_true (own_folder uuid_text storage_foldername profs s o) = true <->
  own_object uuid_text storage_foldername s o.
Proof.
  unfold own_folder, own_object, in_bucket, uid_text.
  rewrite is_true_and, andb_true_iff, is_true_eq_string, is_true_Some.
  rewrite String.eqb_eq. split.
  - intros [B [u [H1 H2]]]. split; [assumption|].
    destruct (auth_uid s) as [R|]; [|discriminate].
    exists R. simpl in H1. injection H1 as <-. auto.
  - intros [B [R [H1 H2]]]. split; [assumption|].
    exists (uuid_text R). rewrite H1. auto.
Qed.

Lemma objects_own_policies profs s :
  owner_only_policies (storage_objects_rel uuid_text storage_foldername) profs s
    (own_object uuid_text storage_foldername s).
Proof.
  intros r. unfold check_ok, using_ok; simpl.
  rewrite !orb_false_r.
  split; [|split; [|split]]; apply own_folder_true.
Qed.

Lemma own_object_owner s o O :
  storage_objects.bucket_id o = "audio-journal" ->
  folder1 storage_foldername o = Some (uuid_text O) ->
  own_object uuid_text storage_foldername s o <-> owns s O.
Proof.
  intros B F. unfold own_object, owns. split.
  - intros [_ [R [H1 H2]]]. rewrite F in H2. injection H2 as H2.
    apply uuid_text_inj in H2. congruence.
  - intros H. split; [assumption|]. exists O. auto.
Qed.

End AudioObjects.

Lemma journal_entries_write_iff profs s e :
  (check_ok journal_entries_rel profs s INSERT e = true <->
   owns s (journal_entries.user_id e)) /\
  (using_ok journal_entries_rel profs s UPDATE e = true <->
   owns s (journal_entries.user_id e)) /\
  (check_ok journal_entries_rel profs s UPDATE e = true <->
   owns s (journal_entries.user_id e)) /\
  (using_ok journal_entries_rel profs s DELETE e = true <->
   owns s (journal_entries.user_id e)).
Proof.
  unfold check_ok, using_ok, owns; simpl.
  rewrite !orb_false_r. repeat split; apply uid_is_true.
Qed.

Section AudioObjectsAccess.
Variable uuid_text : uuid -> text.
Variable storage_foldername : text -> list text.
Hypothesis uuid_text_inj : forall a b, uuid_text a = uuid_text b -> a = b.

Lemma objects_write_iff profs s o O :
  storage_objects.bucket_id o = "audio-journal" ->
  folder1 storage_foldername o = Some (uuid_text O) ->
  (check_ok (storage_objects_rel uuid_text storage_foldername) profs s INSERT o = true <-> owns s O) /\
  (using_ok (storage_objects_rel uuid_text storage_foldername) profs s UPDATE o = true <-> owns s O) /\
  (check_ok (storage_objects_rel uuid_text storage_foldername) profs s UPDATE o = true <-> owns s O) /\
  (using_ok (storage_objects_rel uuid_text storage_foldername) profs s DELETE o = true <-> owns s O).
Proof.
  intros B F. unfold check_ok, using_ok; simpl. rewrite !orb_false_r.
  rewrite (own_folder_true uuid_text storage_foldername).
  rewrite (own_object_owner uuid_text storage_foldername uuid_text_inj s o O B F).
  tauto.
Qed.

(** C8, evaluated.  An audio object [o] in owner O's partition of the
    bucket.  The SELECT policy of the objects sub-selects profiles, whose
    own SELECT policy sub-selects profiles again: every SELECT on the
    objects is refused with "infinite recursion detected in policy", for
    the owner as for the partner, and so is every INSERT, UPDATE and
    DELETE that reads the objects (RETURNING, WHERE); a journal entry of O
    is returned to O by a SELECT.  Writing holds as claimed: the four
    write checks admit [o] exactly when the requester is O, as they do
    for a journal entry of O, a statement that does not read is run, and
    it adds, changes and removes only objects of the requester's own
    partition. *)
Theorem audio_objects_reads_refused_owner_writes
    (profs : list profiles.row) (s : session) (now : timestamptz)
    (o : storage_objects.row) (O : uuid) :
  storage_objects.bucket_id o = "audio-journal" ->
  folder1 storage_foldername o = Some (uuid_text O) ->
  (forall objects,
      select_from (storage_objects_rel uuid_text storage_foldername) profs s objects
        = Some (Err infinite_recursion)) /\
  (forall op objects,
      op_reads op = true ->
      run_statement (storage_objects_rel uuid_text storage_foldername)
                    profs s now op objects
        = Some (Err infinite_recursion)) /\
  (forall e rows,
      journal_entries.user_id e = O -> owns s O -> In e rows ->
      exists out, select_from journal_entries_rel profs s rows = Some (Ok out) /\
                  In e out) /\
  ((check_ok (storage_objects_rel uuid_text storage_foldername) profs s INSERT o = true <-> owns s O) /\
   (using_ok (storage_objects_rel uuid_text storage_foldername) profs s UPDATE o = true <-> owns s O) /\
   (check_ok (storage_objects_rel uuid_text storage_foldername) profs s UPDATE o = true <-> owns s O) /\
   (using_ok (storage_objects_rel uuid_text storage_foldername) profs s DELETE o = true <-> owns s O)) /\
  (forall e : journal_entries.row,
      journal_entries.user_id e = O ->
      check_ok (storage_objects_rel uuid_text storage_foldername) profs s INSERT o
        = check_ok journal_entries_rel profs s INSERT e /\
      using_ok (storage_objects_rel uuid_text storage_foldername) profs s UPDATE o
        = using_ok journal_entries_rel profs s UPDATE e /\
      check_ok (storage_objects_rel uuid_text storage_foldername) profs s UPDATE o
        = check_ok journal_entries_rel profs s UPDATE e /\
      using_ok (storage_objects_rel uuid_text storage_foldername) profs s DELETE o
        = using_ok journal_entries_rel profs s DELETE e) /\
  (forall op objects,
      op_reads op = false ->
      run_statement (storage_objects_rel uuid_text storage_foldername)
                    profs s now op objects
        = Some (run_op (storage_objects_rel uuid_text storage_foldername)
                       profs s now op objects)) /\
  writes_only_own (storage_objects_rel uuid_text storage_foldername) profs s now
    (own_object uuid_text storage_foldername s).
Proof.
  intros B F.
  destruct (objects_write_iff profs s o O B F) as [Wi [Wu [Wc Wd]]].
  split; [reflexivity|]. split; [|split; [|split; [|split; [|split]]]].
  - intros op objects R. unfold run_statement.
    rewrite row_security_storage_objects, R. reflexivity.
  - intros e rows He Hown Hin. eexists. split; [reflexivity|].
    apply rls_select_In. split; [assumption|].
    apply journal_entries_select. left. now rewrite He.
  - tauto.
  - intros e He.
    destruct (journal_entries_write_iff profs s e) as [Ji [Ju [Jc Jd]]].
    rewrite He in Ji, Ju, Jc, Jd.
    repeat split; apply eq_true_iff_eq; tauto.
  - intros op objects R. unfold run_statement.
    rewrite row_security_storage_objects, R.
    destruct op; reflexivity.
  - apply owner_only_writes, objects_own_policies.
Qed.
End AudioObjectsAccess.

Lemma sample_uuid_text_inj a b : sample_uuid_text a = sample_uuid_text b -> a = b.
Proof.
  unfold sample_uuid_text. intros H.
  apply (f_equal NilEmpty.uint_of_string) in H.
  rewrite !NilEmpty.usu in H. injection H as H.
  apply (f_equal N.of_uint) in H. now rewrite !DecimalN.Unsigned.of_to in H.
Qed.

Lemma audio_objects_reads_refused_owner_writes_witness :
  storage_objects.bucket_id sample_object = "audio-journal" /\
  folder1 sample_foldername sample_object = Some (sample_uuid_text alice) /\
  select_from (storage_objects_rel sample_uuid_text sample_foldername)
              sample_couple (signed_in alice) [sample_object]
    = Some (Err infinite_recursion) /\
  select_from (storage_objects_rel sample_uuid_text sample_foldername)
              sample_couple (signed_in bob) [sample_object]
    = Some (Err infinite_recursion) /\
  select_from journal_entries_rel sample_couple (signed_in alice) sample_entries
    = Some (Ok sample_entries) /\
  run_statement (storage_objects_rel sample_uuid_text sample_foldername)
                sample_couple (signed_in alice) 0%Z
                (Delete false (fun _ => true)) [sample_object]
    = Some (Ok []) /\
  run_statement (storage_objects_rel sample_uuid_text sample_foldername)
                sample_couple (signed_in bob) 0%Z
                (Delete false (fun _ => true)) [sample_object]
    = Some (Ok [sample_object]).
Proof.
  assert (B : storage_objects.bucket_id sample_object = "audio-journal")
    by reflexivity.
  assert (F : folder1 sample_foldername sample_object
              = Some (sample_uuid_text alice)) by reflexivity.
  split; [exact B|]. split; [exact F|].
  destruct (audio_objects_reads_refused_owner_writes
              sample_uuid_text sample_foldername sample_uuid_text_inj
              sample_couple (signed_in alice) 0%Z sample_object alice B F)
    as [Ra [_ [_ [_ [_ [Wa _]]]]]].
  destruct (audio_objects_reads_refused_owner_writes
              sample_uuid_text sample_foldername sample_uuid_text_inj
              sample_couple (signed_in bob) 0%Z sample_object alice B F)
    as [Rb [_ [_ [_ [_ [Wb _]]]]]].
  split; [apply Ra|]. split; [apply Rb|]. split; [reflexivity|].
  split.
  - rewrite Wa by reflexivity. reflexivity.
  - rewrite Wb by reflexivity. reflexivity.
Defined.

(** ** Invite codes *)

Section DoublePrecision.
Local Open Scope Q_scope.

Lemma pow2_pos e : 0 < 2 ^ e.
Proof. apply Qpower_0_lt. reflexivity. Qed.

Lemma pow2_add a b : 2 ^ (a + b) == 2 ^ a * 2 ^ b.
Proof. apply Qpower_plus. discriminate. Qed.

Lemma pow2_le a b : (a <= b)%Z -> 2 ^ a <= 2 ^ b.
Proof. intros H. apply Qpower_le_compat_l; [assumption | discriminate]. Qed.

Lemma pow2_lt_inv a b : 2 ^ a < 2 ^ b -> (a < b)%Z.
Proof. intros H. eapply Qpower_lt_compat_l_inv; [exact H | reflexivity]. Qed.

Lemma pow2_Z n : (0 <= n)%Z -> 2 ^ n == inject_Z (2 ^ n).
Proof. intros H. symmetry. apply (Zpower_Qpower 2 n H). Qed.

Lemma pow2_succ a : 2 ^ (a + 1) == 2 * 2 ^ a.
Proof. rewrite pow2_add. change (2 ^ 1) with 2. ring. Qed.

Lemma pow2_pred a : 2 ^ (a - 1) == 2 ^ a / 2.
Proof.
  unfold Z.sub. rewrite pow2_add. change (2 ^ (-1)) with (/ 2). reflexivity.
Qed.

Lemma log2_floor_spec q :
  0 < q -> 2 ^ log2_floor q <= q /\ q < 2 ^ (log2_floor q + 1).
Proof.
  intros Hq. destruct q as [a b]. unfold log2_floor. cbn [Qnum Qden].
  assert (Ha : (0 < a)%Z).
  { unfold Qlt in Hq. simpl in Hq. lia. }
  set (la := Z.log2 a). set (lb := Z.log2 (Zpos b)).
  assert (La : (0 <= la)%Z) by apply Z.log2_nonneg.
  assert (Lb : (0 <= lb)%Z) by apply Z.log2_nonneg.
  destruct (Z.log2_spec a Ha) as [A1 A2]. fold la in A1, A2.
  destruct (Z.log2_spec (Zpos b) (Pos2Z.is_pos b)) as [B1 B2]. fold lb in B1, B2.
  rewrite Z.pow_succ_r in A2, B2 by assumption.
  assert (PA : 2 ^ la == inject_Z (2 ^ la)) by now apply pow2_Z.
  assert (PB : 2 ^ lb == inject_Z (2 ^ lb)) by now apply pow2_Z.
  assert (Pab : 2 ^ (la - lb) == inject_Z (2 ^ la) / inject_Z (2 ^ lb)).
  { rewrite Qpower_minus by discriminate. now rewrite PA, PB. }
  assert (Bpos : 0 < inject_Z (2 ^ lb)).
  { rewrite <- PB. apply pow2_pos. }
  assert (Q1 : (a # b) == inject_Z a / inject_Z (Zpos b)) by apply Qmake_Qdiv.
  assert (bpos : 0 < inject_Z (Zpos b)) by reflexivity.
  assert (Up : (a # b) < 2 * (inject_Z (2 ^ la) / inject_Z (2 ^ lb))).
  { rewrite Q1. apply Qlt_shift_div_r; [assumption|].
    unfold Qdiv. 
    setoid_replace (2 * (inject_Z (2 ^ la) * / inject_Z (2 ^ lb)) * inject_Z (Z.pos b))
      with ((2 * inject_Z (2 ^ la) * inject_Z (Z.pos b)) / inject_Z (2 ^ lb))
      by (unfold Qdiv; ring).
    apply Qlt_shift_div_l; [assumption|].
    change 2 with (inject_Z 2). rewrite <- !inject_Z_mult, <- Zlt_Qlt. nia. }
  assert (Lo : (inject_Z (2 ^ la) / inject_Z (2 ^ lb)) / 2 < (a # b)).
  { rewrite Q1. apply Qlt_shift_div_l; [assumption|].
    setoid_replace (inject_Z (2 ^ la) / inject_Z (2 ^ lb) / 2 * inject_Z (Z.pos b))
      with ((inject_Z (2 ^ la) * inject_Z (Z.pos b)) / (2 * inject_Z (2 ^ lb)))
      by (field; intros C; rewrite C in Bpos; discriminate).
    apply Qlt_shift_div_r; [lra|].
    change 2 with (inject_Z 2). rewrite <- !inject_Z_mult, <- Zlt_Qlt. nia. }
  destruct (Qle_bool (2 ^ (la - lb)) (a # b)) eqn:T.
  - apply Qle_bool_iff in T. split; [assumption|].
    rewrite pow2_succ, Pab. exact Up.
  - assert (T' : (a # b) < 2 ^ (la - lb)).
    { apply Qnot_le_lt. intros C. apply Qle_bool_iff in C. congruence. }
    split.
    + rewrite pow2_pred, Pab. apply Qlt_le_weak. exact Lo.
    + now replace (la - lb - 1 + 1)%Z with (la - lb)%Z by lia.
Qed.

Lemma log2_floor_unique q l :
  2 ^ l <= q -> q < 2 ^ (l + 1) -> log2_floor q = l.
Proof.
  intros L U.
  assert (Hq : 0 < q) by (eapply Qlt_le_trans; [apply pow2_pos | exact L]).
  destruct (log2_floor_spec q Hq) as [L' U'].
  assert (log2_floor q < l + 1)%Z
    by (apply pow2_lt_inv; eapply Qle_lt_trans; eassumption).
  assert (l < log2_floor q + 1)%Z
    by (apply pow2_lt_inv; eapply Qle_lt_trans; eassumption).
  lia.
Qed.

Lemma log2_floor_lt q l : 0 < q -> q < 2 ^ l -> (log2_floor q < l)%Z.
Proof.
  intros Hq U. destruct (log2_floor_spec q Hq) as [L' _].
  apply pow2_lt_inv. eapply Qle_lt_trans; eassumption.
Qed.

Lemma log2_floor_ge q l : 2 ^ l <= q -> (l <= log2_floor q)%Z.
Proof.
  intros L.
  assert (Hq : 0 < q) by (eapply Qlt_le_trans; [apply pow2_pos | exact L]).
  destruct (log2_floor_spec q Hq) as [_ U'].
  assert (l < log2_floor q + 1)%Z
    by (apply pow2_lt_inv; eapply Qle_lt_trans; eassumption).
  lia.
Qed.

(** Rounding to the nearest integer *)
Lemma round_half_even_near q :
  q - (1 # 2) <= inject_Z (round_half_even q) /\
  inject_Z (round_half_even q) <= q + (1 # 2).
Proof.
  unfold round_half_even.
  pose proof (Qfloor_le q) as F1. pose proof (Qlt_floor q) as F2.
  rewrite inject_Z_plus in F2. change (inject_Z 1) with 1 in F2.
  destruct (Qcompare_spec (q - inject_Z (Qfloor q)) (1 # 2)) as [E|L|G].
  - destruct (Z.even (Qfloor q)); rewrite ?inject_Z_plus;
      change (inject_Z 1) with 1; lra.
  - lra.
  - rewrite inject_Z_plus. change (inject_Z 1) with 1. lra.
Qed.

Lemma round_half_even_ge q n : inject_Z n <= q -> (n <= round_half_even q)%Z.
Proof.
  intros H. assert (F : (n <= Qfloor q)%Z).
  { rewrite <- (Qfloor_Z n). now apply Qfloor_resp_le. }
  unfold round_half_even.
  destruct (_ ?= _); [destruct (Z.even _)| |]; lia.
Qed.

Lemma Qabs_pos_eq q : 0 < q -> Qabs q = q.
Proof.
  destruct q as [a b]. unfold Qlt, Qabs. simpl. intros H.
  f_equal. apply Z.abs_eq. lia.
Qed.

Lemma round_double_pos q :
  0 < q ->
  round_double q
  = inject_Z (round_half_even (q / 2 ^ ulp_exponent q)) * 2 ^ ulp_exponent q.
Proof.
  intros H. unfold round_double.
  destruct (Qeq_bool q 0) eqn:E; [|reflexivity].
  apply Qeq_bool_eq in E. rewrite E in H. discriminate.
Qed.

Lemma ulp_exponent_pos q :
  0 < q -> ulp_exponent q = Z.max (log2_floor q - 52) (-1074).
Proof. intros H. unfold ulp_exponent. now rewrite Qabs_pos_eq. Qed.

(** The rounded value is within half a unit in the last place. *)
Lemma round_double_near q :
  0 < q ->
  q - 2 ^ ulp_exponent q * (1 # 2) <= round_double q /\
  round_double q <= q + 2 ^ ulp_exponent q * (1 # 2).
Proof.
  intros H. rewrite (round_double_pos q H).
  set (p := 2 ^ ulp_exponent q).
  assert (P : 0 < p) by apply pow2_pos.
  destruct (round_half_even_near (q / p)) as [L U].
  set (K := inject_Z (round_half_even (q / p))) in *.
  assert (E1 : q - p * (1 # 2) == (q / p - (1 # 2)) * p) by (field; lra).
  assert (E2 : q + p * (1 # 2) == (q / p + (1 # 2)) * p) by (field; lra).
  rewrite E1, E2. split; apply Qmult_le_compat_r; lra.
Qed.

Lemma round_double_nonneg q : 0 <= q -> 0 <= round_double q.
Proof.
  intros H. unfold round_double. destruct (Qeq_bool q 0) eqn:E; [lra|].
  apply Qmult_le_0_compat; [|apply Qlt_le_weak, pow2_pos].
  change 0 with (inject_Z 0). rewrite <- Zle_Qle.
  apply round_half_even_ge. change (inject_Z 0) with 0.
  apply Qle_shift_div_l; [apply pow2_pos |]. now rewrite Qmult_0_l.
Qed.

(** A value at or above the smallest normal one is not rounded below the
    power of two under it. *)
Lemma round_double_ge_pow q :
  0 < q -> (-1022 <= log2_floor q)%Z -> 2 ^ log2_floor q <= round_double q.
Proof.
  intros H N. rewrite (round_double_pos q H), (ulp_exponent_pos q H).
  rewrite Z.max_l by lia.
  set (l := log2_floor q).
  destruct (log2_floor_spec q H) as [L _]. fold l in L.
  assert (E : 2 ^ l == inject_Z (2 ^ 52) * 2 ^ (l - 52)).
  { rewrite <- (pow2_Z 52) by lia. rewrite <- pow2_add. now replace (52 + (l - 52))%Z with l by lia. }
  rewrite E. apply Qmult_le_compat_r; [|apply Qlt_le_weak, pow2_pos].
  rewrite <- Zle_Qle. apply round_half_even_ge.
  apply Qle_shift_div_l; [apply pow2_pos|]. now rewrite <- E.
Qed.

(** The largest double below one. *)
Lemma double_below_one r :
  is_double r -> 0 < r -> r < 1 -> r <= 1 - 2 ^ (-53).
Proof.
  intros D H0 H1. unfold is_double in D.
  rewrite (round_double_pos r H0), (ulp_exponent_pos r H0) in D.
  assert (L : (log2_floor r < 0)%Z) by (apply log2_floor_lt; assumption).
  destruct (Z.eq_dec (log2_floor r) (-1)) as [E|E].
  - rewrite E in D. change (Z.max (-1 - 52) (-1074)) with (-53)%Z in D.
    set (K := round_half_even (r / 2 ^ (-53))) in D.
    assert (P : 2 ^ (-53) == 1 # 9007199254740992) by reflexivity.
    rewrite P in *.
    assert (HK : inject_Z K < inject_Z 9007199254740992).
    { change (inject_Z 9007199254740992) with 9007199254740992. lra. }
    rewrite <- Zlt_Qlt in HK.
    assert (HK' : inject_Z K <= inject_Z 9007199254740991)
      by (rewrite <- Zle_Qle; lia).
    change (inject_Z 9007199254740991) with 9007199254740991 in HK'. lra.
  - destruct (log2_floor_spec r H0) as [_ U].
    assert (U' : 2 ^ (log2_floor r + 1) <= 2 ^ (-1)) by (apply pow2_le; lia).
    assert (P : 2 ^ (-53) == 1 # 9007199254740992) by reflexivity.
    change (2 ^ (-1)) with (1 # 2) in U'. rewrite P.
    set (t := 2 ^ (log2_floor r + 1)) in *. lra.
Qed.

Lemma Qfloor_between v (a b : Z) :
  inject_Z a <= v -> v < inject_Z b -> (a <= Qfloor v < b)%Z.
Proof.
  intros A B. split.
  - rewrite <- (Qfloor_Z a). now apply Qfloor_resp_le.
  - rewrite Zlt_Qlt. eapply Qle_lt_trans; [apply Qfloor_le | exact B].
Qed.

Lemma random_index_range r :
  is_double r -> 0 <= r -> r < 1 -> (1 <= random_index r <= 36)%Z.
Proof.
  intros D H0 H1. unfold random_index, float8pl, float8mul.
  change (inject_Z (Z.of_nat (String.length chars))) with 36.
  assert (P47 : 2 ^ (-47) == 1 # 140737488355328) by reflexivity.
  assert (P53 : 2 ^ (-53) == 1 # 9007199254740992) by reflexivity.
  assert (X : 0 <= round_double (r * 36) /\
              round_double (r * 36) <= 36 - 2 ^ (-47)).
  { split; [apply round_double_nonneg; lra|].
    destruct (Qle_lt_or_eq _ _ H0) as [Hpos | Hzero].
    2:{ unfold round_double.
        assert (Z0 : Qeq_bool (r * 36) 0 = true)
          by (apply Qeq_bool_iff; rewrite <- Hzero; reflexivity).
        rewrite Z0, P47. lra. }
    pose proof (double_below_one r D Hpos H1) as B. rewrite P53 in B.
    assert (Xpos : 0 < r * 36) by lra.
    destruct (round_double_near _ Xpos) as [_ U].
    rewrite (ulp_exponent_pos _ Xpos) in U.
    destruct (Qlt_le_dec (r * 36) 32) as [Small | Big].
    - assert (L : (log2_floor (r * 36) < 5)%Z).
      { apply log2_floor_lt; [assumption|]. change (2 ^ 5) with 32. exact Small. }
      assert (E : 2 ^ Z.max (log2_floor (r * 36) - 52) (-1074) <= 2 ^ (-48))
        by (apply pow2_le; lia).
      assert (P48 : 2 ^ (-48) == 1 # 281474976710656) by reflexivity.
      rewrite P48 in E. rewrite P47.
      set (t := 2 ^ Z.max (log2_floor (r * 36) - 52) (-1074)) in *.
      clearbody t. clear P47 P48 P53. lra.
    - assert (L : log2_floor (r * 36) = 5%Z).
      { apply log2_floor_unique; [change (2 ^ 5) with 32; exact Big|].
        change (2 ^ (5 + 1)) with 64. lra. }
      rewrite L in U. change (Z.max (5 - 52) (-1074)) with (-47)%Z in U.
      rewrite (round_double_pos _ Xpos), (ulp_exponent_pos _ Xpos), L in U |- *.
      change (Z.max (5 - 52) (-1074)) with (-47)%Z in U |- *.
      set (K := round_half_even (r * 36 / 2 ^ (-47))) in *.
      rewrite P47 in *.
      assert (HK : inject_Z K < inject_Z 5066549580791808).
      { change (inject_Z 5066549580791808) with 5066549580791808. lra. }
      rewrite <- Zlt_Qlt in HK.
      assert (HK' : inject_Z K <= inject_Z 5066549580791807)
        by (rewrite <- Zle_Qle; lia).
      change (inject_Z 5066549580791807) with 5066549580791807 in HK'. lra. }
  destruct X as [X0 X1]. rewrite P47 in X1.
  set (y := round_double (r * 36) + 1) in *.
  assert (Ypos : 0 < y) by (unfold y; lra).
  assert (L0 : (0 <= log2_floor y)%Z).
  { apply log2_floor_ge. change (2 ^ 0) with 1. unfold y. lra. }
  assert (L5 : (log2_floor y < 6)%Z).
  { apply log2_floor_lt; [assumption|]. change (2 ^ 6) with 64. unfold y. lra. }
  assert (R : 1 <= round_double y /\ round_double y < 37).
  { split.
    - eapply Qle_trans; [|apply round_double_ge_pow; [assumption | lia]].
      change 1 with (2 ^ 0). apply pow2_le. lia.
    - destruct (round_double_near _ Ypos) as [_ U].
      rewrite (ulp_exponent_pos _ Ypos) in U.
      assert (E : 2 ^ Z.max (log2_floor y - 52) (-1074) <= 2 ^ (-47))
        by (apply pow2_le; lia).
      rewrite P47 in E.
      set (t := 2 ^ Z.max (log2_floor y - 52) (-1074)) in *.
      clearbody t. clear P47 P53.
      eapply Qle_lt_trans; [exact U|]. unfold y. lra. }
  destruct R as [R1 R37].
  pose proof (Qfloor_between (round_double y) 1 37 R1 R37). lia.
Qed.
End DoublePrecision.

Lemma substr_chars k :
  (1 <= k <= 36)%Z ->
  exists c, substr chars k 1 = String c "" /\ in_alphabet c = true.
Proof.
  intros H. unfold substr. rewrite Z.max_l by lia.
  destruct (Z.leb_spec (k + 1) k) as [L|L]; [lia|].
  replace (Z.to_nat (k + 1 - k)) with 1%nat by lia.
  remember (Z.to_nat (k - 1)) as n eqn:E.
  assert (Hn : (n < 36)%nat) by lia. clear E L H k.
  do 36 (destruct n as [|n]; [eexists; split; reflexivity|]).
  lia.
Qed.

Lemma length_append (a b : string) :
  String.length (a ++ b)%string = String.length a + String.length b.
Proof. induction a as [|c a IH]; simpl; [reflexivity | now rewrite IH]. Qed.

Lemma all_in_alphabet_append (a b : string) :
  all_in_alphabet (a ++ b)%string = all_in_alphabet a && all_in_alphabet b.
Proof.
  induction a as [|c a IH]; simpl; [reflexivity|].
  now rewrite IH, andb_assoc.
Qed.

Lemma generate_loop_shape src (Hsrc : unit_interval src) n :
  forall pos acc,
    all_in_alphabet acc = true ->
    String.length (fst (generate_loop src n pos acc)) = String.length acc + n /\
    all_in_alphabet (fst (generate_loop src n pos acc)) = true /\
    snd (generate_loop src n pos acc) = pos + n.
Proof.
  induction n as [|n IH]; simpl; intros pos acc Hacc.
  - repeat split; auto.
  - destruct (Hsrc pos) as [D [H0 H1]].
    destruct (substr_chars _ (random_index_range _ D H0 H1)) as [c [E Hc]].
    rewrite E.
    destruct (IH (S pos) (acc ++ String c "")%string) as [L [A P]].
    + rewrite all_in_alphabet_append, Hacc. simpl. now rewrite Hc.
    + rewrite L, A, P, length_append. simpl. repeat split; lia.
Qed.

Lemma generate_loop_calls src n :
  forall pos acc, snd (generate_loop src n pos acc) = pos + n.
Proof.
  induction n as [|n IH]; simpl; intros pos acc; [lia|].
  rewrite IH. lia.
Qed.

Lemma generate_invite_code_eq src pos :
  generate_invite_code src pos = (attempt src pos 0, pos + 8).
Proof.
  unfold attempt. replace (pos + 8 * 0) with pos by lia.
  unfold generate_invite_code.
  rewrite (surjective_pairing (generate_loop src 8 pos "")).
  now rewrite generate_loop_calls.
Qed.

Lemma attempt_shift src pos j k :
  attempt src (pos + 8 * j) k = attempt src pos (j + k).
Proof. unfold attempt. f_equal. f_equal. lia. Qed.

Lemma attempt_shape src (Hsrc : unit_interval src) pos k :
  String.length (attempt src pos k) = 8 /\
  all_in_alphabet (attempt src pos k) = true.
Proof.
  unfold attempt, generate_invite_code.
  destruct (generate_loop_shape src Hsrc 8 (pos + 8 * k) "" eq_refl)
    as [L [A _]].
  auto.
Qed.

(** The loop stops at the first attempt that is free. *)
Lemma ensure_unique_first src visible pos k :
  forall j fuel,
    k <= fuel ->
    (forall i, i < k -> code_exists visible (attempt src pos (j + i)) = true) ->
    code_exists visible (attempt src pos (j + k)) = false ->
    ensure_unique fuel src visible (attempt src pos j) (pos + 8 * (j + 1))
      = Some (attempt src pos (j + k), pos + 8 * (j + k + 1)).
Proof.
  induction k as [|k IH]; intros j fuel Hf Hbusy Hfree.
  - replace (j + 0) with j in * by lia.
    destruct fuel; cbn [ensure_unique]; rewrite Hfree; reflexivity.
  - destruct fuel as [|fuel]; [lia|]. cbn [ensure_unique].
    assert (B : code_exists visible (attempt src pos j) = true).
    { specialize (Hbusy 0). rewrite Nat.add_0_r in Hbusy. apply Hbusy. lia. }
    rewrite B, generate_invite_code_eq, attempt_shift, Nat.add_0_r.
    replace (pos + 8 * (j + 1) + 8) with (pos + 8 * (j + 1 + 1)) by lia.
    rewrite (IH (j + 1) fuel).
    + now replace (j + 1 + k) with (j + S k) by lia.
    + lia.
    + intros i Hi. replace (j + 1 + i) with (j + S i) by lia.
      apply Hbusy. lia.
    + now replace (j + 1 + k) with (j + S k) by lia.
Qed.

(** Whatever the loop returns is free, and is the code it was given or
    one it generated. *)
Lemma ensure_unique_sound src visible fuel :
  forall code pos code' pos',
    ensure_unique fuel src visible code pos = Some (code', pos') ->
    code_exists visible code' = false /\
    (code' = code \/ exists q, code' = attempt src q 0).
Proof.
  induction fuel as [|fuel IH]; cbn [ensure_unique];
    intros code pos code' pos' H.
  - destruct (code_exists visible code) eqn:E; [discriminate|].
    injection H as <- <-. auto.
  - destruct (code_exists visible code) eqn:E.
    + rewrite generate_invite_code_eq in H.
      apply IH in H as [F [-> | [q ->]]]; split; eauto.
    + injection H as <- <-. auto.
Qed.

Lemma code_exists_false visible code :
  code_exists visible code = false <->
  forall p, In p visible -> profiles.invite_code p <> Some code.
Proof.
  unfold code_exists. split.
  - intros H p Hin E.
    assert (T : existsb (fun p => opt_same String.eqb (profiles.invite_code p)
                                    (Some code)) visible = true).
    { apply existsb_exists. exists p. split; [assumption|].
      unfold opt_same. apply is_true_eq_string. eauto. }
    congruence.
  - intros H. apply not_true_iff_false. intros T.
    apply existsb_exists in T as [p [Hin T]].
    unfold opt_same in T. apply is_true_eq_string in T as [u [H1 H2]].
    injection H2 as <-. now apply (H p).
Qed.

Lemma set_invite_code_sound src (Hsrc : unit_interval src)
    fuel visible NEW pos NEW' pos' :
  profiles.invite_code NEW = None ->
  set_invite_code fuel src (Ok visible) NEW pos = Some (Ok NEW', pos') ->
  exists code,
    NEW' = with_invite_code NEW (Some code) /\
    String.length code = 8 /\ all_in_alphabet code = true /\
    forall p, In p visible -> profiles.invite_code p <> Some code.
Proof.
  intros Hnull. unfold set_invite_code. rewrite Hnull, generate_invite_code_eq.
  destruct (ensure_unique _ _ _ _ _) as [[code p'']|] eqn:E; [|discriminate].
  intros H. injection H as <- <-.
  apply ensure_unique_sound in E as [F S].
  exists code. split; [reflexivity|].
  assert (Shape : String.length code = 8 /\ all_in_alphabet code = true).
  { destruct S as [-> | [q ->]]; now apply attempt_shape. }
  destruct Shape. repeat split; auto. now apply code_exists_false.
Qed.

(** C9. With [random()] returning double precision values in [0, 1):
    every generated invite code has length 8 and only characters of the
    alphabet; for a profile inserted without a code the trigger, when the
    SELECT of its loop is answered, regenerates as long as the attempt
    collides with an existing code and returns the first attempt that
    does not, so whatever it assigns is carried by no profile it looks
    at; when that SELECT is refused the trigger ends with the error after
    the first draw and assigns nothing; and a profile created by
    [handle_new_user], which comes without a code, is added with such a
    code, distinct from the code of every existing profile. *)
Theorem invite_codes_fixed_shape_and_unique (src : random_source) :
  unit_interval src ->
  (forall pos,
      String.length (fst (generate_invite_code src pos)) = 8 /\
      all_in_alphabet (fst (generate_invite_code src pos)) = true) /\
  (forall visible NEW pos k fuel,
      profiles.invite_code NEW = None ->
      k <= fuel ->
      (forall i, i < k -> code_exists visible (attempt src pos i) = true) ->
      code_exists visible (attempt src pos k) = false ->
      set_invite_code fuel src (Ok visible) NEW pos
        = Some (Ok (with_invite_code NEW (Some (attempt src pos k))),
                pos + 8 * (k + 1))) /\
  (forall fuel visible NEW pos NEW' pos',
      profiles.invite_code NEW = None ->
      set_invite_code fuel src (Ok visible) NEW pos = Some (Ok NEW', pos') ->
      exists code,
        NEW' = with_invite_code NEW (Some code) /\
        String.length code = 8 /\ all_in_alphabet code = true /\
        forall p, In p visible -> profiles.invite_code p <> Some code) /\
  (forall fuel e NEW pos,
      profiles.invite_code NEW = None ->
      set_invite_code fuel src (Err e) NEW pos = Some (Err e, pos + 8)) /\
  (forall fuel profs uid mail name now pos rows pos',
      handle_new_user fuel src profs uid mail name now pos
        = Some (Ok rows, pos') ->
      exists NEW code,
        rows = profs ++ [NEW] /\
        profiles.id NEW = uid /\
        profiles.invite_code NEW = Some code /\
        String.length code = 8 /\ all_in_alphabet code = true /\
        forall p, In p profs -> profiles.invite_code p <> Some code).
Proof.
  intros Hsrc. split; [|split; [|split; [|split]]].
  - intros pos. rewrite generate_invite_code_eq. simpl.
    now apply attempt_shape.
  - intros visible NEW pos k fuel Hnull Hf Hbusy Hfree.
    unfold set_invite_code. rewrite Hnull, generate_invite_code_eq.
    pose proof (ensure_unique_first src visible pos k 0 fuel Hf) as E.
    simpl in E. rewrite E; auto.
  - intros fuel visible NEW pos NEW' pos'. now apply set_invite_code_sound.
  - intros fuel e NEW pos Hnull.
    unfold set_invite_code. now rewrite Hnull, generate_invite_code_eq.
  - intros fuel profs uid mail name now pos rows pos'.
    unfold handle_new_user.
    destruct (set_invite_code _ _ _ _ _) as [[[NEW|err] p'']|] eqn:E;
      [| discriminate | discriminate].
    apply (set_invite_code_sound src Hsrc) in E; [|reflexivity].
    destruct E as [code [-> [L [A F]]]].
    destruct (conflicts _ _ _); intros H; [discriminate|].
    injection H as <- <-.
    exists (with_invite_code (new_profile uid mail name now) (Some code)), code.
    repeat split; auto.
Qed.

Lemma sample_source_unit : unit_interval sample_source.
Proof.
  intros n. unfold sample_source.
  destruct (Nat.ltb n 8); (split; [reflexivity | split; lra]).
Qed.

(** The draw at which rounding matters: the exact product is just below
    34, the rounded one is 34, and the character drawn is the 35th. *)
Example random_index_rounds :
  random_index (4253399648072135 # 4503599627370496) = 35%Z /\
  Qfloor ((4253399648072135 # 4503599627370496) * 36 + 1)%Q = 34%Z /\
  substr chars 35 1 = "8" /\
  random_index 0 = 1%Z /\
  random_index (9007199254740991 # 9007199254740992) = 36%Z.
Proof. repeat split; vm_compute; reflexivity. Qed.

Lemma invite_codes_fixed_shape_and_unique_witness :
  unit_interval sample_source /\
  fst (generate_invite_code sample_source 0) = "AAAAAAAA" /\
  String.length (fst (generate_invite_code sample_source 0)) = 8 /\
  set_invite_code 1 sample_source
    (Ok [profile_of alice "a@x" (Some "AAAAAAAA") None])
    (new_profile bob "b@x" None 0%Z) 0
  = Some (Ok (with_invite_code (new_profile bob "b@x" None 0%Z) (Some "SSSSSSSS")),
          16).
Proof.
  destruct (invite_codes_fixed_shape_and_unique sample_source sample_source_unit)
    as [Shape [First _]].
  split; [exact sample_source_unit|]. split; [vm_compute; reflexivity|].
  split; [apply Shape|].
  apply (First [profile_of alice "a@x" (Some "AAAAAAAA") None]
               (new_profile bob "b@x" None 0%Z) 0 1 1).
  - reflexivity.
  - lia.
  - intros i Hi. assert (i = 0) as -> by lia. vm_compute; reflexivity.
  - vm_compute; reflexivity.
Defined.

(** ** The client handlers *)

Lemma trimStart_nil s : trimStart s = [] <-> forallb is_white_space s = true.
Proof.
  induction s as [|c s IH]; simpl; [tauto|].
  destruct (is_white_space c); simpl; [exact IH|].
  split; discriminate.
Qed.

Lemma trimStart_suffix s :
  forallb is_white_space (trimStart s) = true -> trimStart s = [].
Proof.
  induction s as [|c s IH]; simpl; [reflexivity|].
  destruct (is_white_space c) eqn:W; [exact IH|].
  simpl. rewrite W. discriminate.
Qed.

Lemma forallb_rev {A} (f : A -> bool) l : forallb f (rev l) = forallb f l.
Proof.
  induction l as [|a l IH]; simpl; [reflexivity|].
  rewrite forallb_app, IH. simpl. rewrite andb_true_r. apply andb_comm.
Qed.

(** [!text.trim()] holds exactly for the empty and the all-whitespace
    strings. *)
Lemma trim_blank s :
  truthy (trim s) = false <-> forallb is_white_space s = true.
Proof.
  unfold trim, trimEnd. split.
  - intros H.
    assert (E : trimStart (rev (trimStart s)) = []).
    { destruct (trimStart (rev (trimStart s))) as [|x l] eqn:E; [reflexivity|].
      simpl in H. destruct (rev l ++ [x]) eqn:E'; [|discriminate].
      now apply app_eq_nil in E' as [_ E']. }
    apply trimStart_nil in E. rewrite forallb_rev in E.
    apply trimStart_suffix in E. now apply trimStart_nil.
  - intros H. apply trimStart_nil in H. rewrite H. reflexivity.
Qed.

Lemma url_differs (base a b : jsstring) :
  a <> b -> base ++ a <> base ++ b.
Proof. intros N E. now apply app_inv_head in E. Qed.

(** C10. For every client state: when the journal text is empty or
    consists only of whitespace, [saveJournalEntry] is the program that
    returns at once, so it issues no request, shows nothing and leaves
    the state as it is; when the text is not blank, the journal request
    is issued first, and a request to the mood endpoint is issued only if
    a mood is selected (and is then the mood request of that state). *)
Theorem save_blank_entry_does_nothing
    (BACKEND_URL currentMonth : jsstring) (c : client) :
  (forallb is_white_space (journalEntry c) = true ->
   saveJournalEntry BACKEND_URL currentMonth c = Ret c /\
   forall backend seen,
     run backend seen (saveJournalEntry BACKEND_URL currentMonth c) = (c, [])) /\
  (forallb is_white_space (journalEntry c) = false ->
   forall backend seen,
     (exists tr,
         snd (run backend seen (saveJournalEntry BACKEND_URL currentMonth c))
         = Requested (journal_request BACKEND_URL c) :: tr) /\
     (forall rq,
         In rq (requests_of
                  (snd (run backend seen
                            (saveJournalEntry BACKEND_URL currentMonth c)))) ->
         req_url rq = API BACKEND_URL ++ js "/mood" ->
         truthy (selectedMood c) = true /\ rq = mood_request BACKEND_URL c)).
Proof.
  split.
  - intros B. apply trim_blank in B.
    unfold saveJournalEntry. rewrite B. simpl. auto.
  - intros B backend seen.
    assert (T : truthy (trim (journalEntry c)) = true).
    { destruct (truthy (trim (journalEntry c))) eqn:E; [reflexivity|].
      apply trim_blank in E. congruence. }
    unfold saveJournalEntry. rewrite T. simpl.
    destruct (backend seen (journal_request BACKEND_URL c)) as [d1|e1]; simpl.
    + destruct (truthy (selectedMood c)) eqn:M; simpl.
      * destruct (backend _ (mood_request BACKEND_URL c)) as [d2|e2]; simpl.
        -- destruct (backend _ (stats_request BACKEND_URL)) as [d3|e3];
             destruct (backend _ (calendar_request BACKEND_URL currentMonth))
               as [d4|e4]; simpl;
             (split; [eexists; reflexivity|]);
             intros rq [<- | [<- | [<- | [<- | []]]]] U; simpl in U;
             try (apply app_inv_head in U; discriminate); auto.
        -- split; [eexists; reflexivity|].
           intros rq [<- | [<- | []]] U; simpl in U;
             try (apply app_inv_head in U; discriminate); auto.
      * destruct (backend _ (stats_request BACKEND_URL)) as [d3|e3];
          destruct (backend _ (calendar_request BACKEND_URL currentMonth))
            as [d4|e4]; simpl;
          (split; [eexists; reflexivity|]);
          intros rq [<- | [<- | [<- | []]]] U; simpl in U;
          apply app_inv_head in U; discriminate.
    + split; [eexists; reflexivity|].
      intros rq [<- | []] U; simpl in U.
      apply app_inv_head in U. discriminate.
Qed.

(** C7, counterexample.  The client has typed an entry and picked a mood;
    the backend takes the journal POST and rejects the mood POST with a
    detail message.  The save fails, the alert shows the fixed text and
    not the detail, and the journal POST that was fulfilled before the
    failure stays fulfilled: nothing is requested to undo it. *)
Lemma save_entry_partial_write :
  mood_taken_backend [] (journal_request sample_url sample_client)
    = Fulfilled JNull /\
  mood_taken_backend [journal_request sample_url sample_client]
                     (mood_request sample_url sample_client)
    = Rejected (Some (js "Mood already recorded for this date")) /\
  run mood_taken_backend []
      (saveJournalEntry sample_url (js "2024-01") sample_client)
    = (sample_client,
       [ Requested (journal_request sample_url sample_client);
         Requested (mood_request sample_url sample_client);
         Effect (ConsoleError (js "Failed to save entry:"));
         Effect (Alert (js "Failed to save entry")) ]) /\
  js "Failed to save entry" <> js "Mood already recorded for this date".
Proof. repeat split. discriminate. Qed.

(** C7, as amended.  When the backend rejects the journal, mood,
    reflection or invite request of a handler, the handler requests
    nothing further (no retry, and nothing to undo a request fulfilled
    before), shows one alert and returns the client state it started
    from; for [generateReflection] and [invitePartner] the alert is the
    detail message of the rejection when it carries a non-empty one, and
    a fixed text otherwise. *)
Theorem handler_failure_contained
    (BACKEND_URL currentMonth : jsstring)
    (backend : list request -> request -> response)
    (seen : list request) (c : client) :
  (forall d,
      truthy (trim (journalEntry c)) = true ->
      backend seen (journal_request BACKEND_URL c) = Rejected d ->
      exists msg,
        run backend seen (saveJournalEntry BACKEND_URL currentMonth c)
        = (c, [ Requested (journal_request BACKEND_URL c);
                Effect (ConsoleError (js "Failed to save entry:"));
                Effect (Alert msg) ])) /\
  (forall data d,
      truthy (trim (journalEntry c)) = true ->
      truthy (selectedMood c) = true ->
      backend seen (journal_request BACKEND_URL c) = Fulfilled data ->
      backend (seen ++ [journal_request BACKEND_URL c])
              (mood_request BACKEND_URL c) = Rejected d ->
      exists msg,
        run backend seen (saveJournalEntry BACKEND_URL currentMonth c)
        = (c, [ Requested (journal_request BACKEND_URL c);
                Requested (mood_request BACKEND_URL c);
                Effect (ConsoleError (js "Failed to save entry:"));
                Effect (Alert msg) ])) /\
  (forall date_ d,
      let rq := axios_post (API BACKEND_URL ++ js "/generate-reflection/" ++ date_)
                           None in
      backend seen rq = Rejected d ->
      run backend seen (generateReflection BACKEND_URL currentMonth date_ c)
      = (c, [ Requested rq;
              Effect (ConsoleError (js "Failed to generate reflection:"));
              Effect (Alert (detail_or d (js "Failed to generate reflection"))) ])) /\
  (forall d,
      let rq := axios_post (API BACKEND_URL ++ js "/invite-partner")
                  (Some (JObject [ (js "invite_code", JString (inviteCode c)) ])) in
      truthy (trim (inviteCode c)) = true ->
      backend seen rq = Rejected d ->
      run backend seen (invitePartner BACKEND_URL c)
      = (c, [ Requested rq;
              Effect (ConsoleError (js "Failed to invite partner:"));
              Effect (Alert (detail_or d (js "Failed to invite partner"))) ])).
Proof.
  split; [|split; [|split]].
  - intros d T R. unfold saveJournalEntry. rewrite T. simpl. rewrite R.
    eexists. reflexivity.
  - intros data d T M R1 R2. unfold saveJournalEntry. rewrite T. simpl.
    rewrite R1, M. simpl. rewrite R2. eexists. reflexivity.
  - intros date_ d rq R. subst rq. unfold generateReflection. cbn [run].
    rewrite R. reflexivity.
  - intros d rq T R. subst rq. unfold invitePartner. rewrite T.
    cbn [negb run]. rewrite R. reflexivity.
Qed.

Example save_entry_conflict_sample :
  run conflict_backend []
      (saveJournalEntry sample_url (js "2024-01") sample_client)
    = (sample_client,
       [ Requested (journal_request sample_url sample_client);
         Effect (ConsoleError (js "Failed to save entry:"));
         Effect (Alert (js "Failed to save entry")) ]) /\
  run conflict_backend []
      (generateReflection sample_url (js "2024-01") (js "2024-01-01") sample_client)
    = (sample_client,
       [ Requested (axios_post (API sample_url ++ js "/generate-reflection/"
                                ++ js "2024-01-01") None);
         Effect (ConsoleError (js "Failed to generate reflection:"));
         Effect (Alert (js "Entry already exists for this date")) ]).
Proof. split; reflexivity. Qed.

Example save_entry_success_sample :
  run (fun _ _ => Fulfilled (JObject [])) []
      (saveJournalEntry sample_url (js "2024-01") sample_client)
    = (setCalendarData (JObject [])
         (setStats (JObject [])
            (setSelectedMood [] (setJournalEntry [] sample_client))),
       [ Requested (journal_request sample_url sample_client);
         Requested (mood_request sample_url sample_client);
         Requested (stats_request sample_url);
         Requested (calendar_request sample_url (js "2024-01"));
         Effect (Alert (js "Entry saved successfully!")) ]).
Proof. reflexivity. Qed.

(** ** More runs on sample data *)

Example access_log_sample :
  rls_insert entry_access_logs_rel [] (signed_in bob) false
    (log_of 40 10 bob alice) [] = Ok [log_of 40 10 bob alice] /\
  rls_insert entry_access_logs_rel [] (signed_in carol) false
    (log_of 40 10 bob alice) [] = Err insufficient_privilege /\
  rls_update entry_access_logs_rel [] (signed_in bob) 0%Z false (fun _ => true)
    (fun r => log_of 40 10 bob carol) [log_of 40 10 bob alice]
    = Ok [log_of 40 10 bob alice] /\
  rls_delete entry_access_logs_rel [] (signed_in alice) false (fun _ => true)
    [log_of 40 10 bob alice] = [log_of 40 10 bob alice] /\
  rls_select entry_access_logs_rel [] (signed_in alice) [log_of 40 10 bob alice]
    = [log_of 40 10 bob alice] /\
  rls_select entry_access_logs_rel [] (signed_in carol) [log_of 40 10 bob alice]
    = [].
Proof. repeat split. Qed.

Example mood_sample :
  rls_insert mood_entries_rel [] (signed_in alice) false
    (mood_of 51 alice 5 "Happy" None) [mood_of 50 alice 5 "Tired" None]
    = Err unique_violation /\
  rls_select mood_entries_rel [] (signed_in bob)
    [mood_of 50 alice 5 "Tired" (Some [None; Some bob])]
    = [mood_of 50 alice 5 "Tired" (Some [None; Some bob])] /\
  rls_select mood_entries_rel [] (signed_in carol)
    [mood_of 50 alice 5 "Tired" (Some [None; Some bob])] = [].
Proof. repeat split. Qed.

Example reflection_select_sample :
  rls_select shared_reflections_rel [] (signed_in bob)
    [reflection_of 30 5 [Some alice; Some bob] "one"]
    = [reflection_of 30 5 [Some alice; Some bob] "one"] /\
  rls_select shared_reflections_rel [] (signed_in carol)
    [reflection_of 30 5 [Some alice; Some bob] "one"] = [] /\
  rls_insert shared_reflections_rel [] (signed_in alice) false
    (reflection_of 31 6 [Some alice; Some bob] "mine") []
    = Err insufficient_privilege.
Proof. repeat split. Qed.

(** Two sign-ups, an entry, a second entry for the same day, and an
    attempt to delete every profile. *)
Example database_run_sample :
  exists db1 db2 db3,
    exec 1 sample_source anonymous 0%Z
         (auth_user_created alice "a@x" None) empty_database = Some (db1, None) /\
    exec 1 sample_source anonymous 0%Z
         (auth_user_created bob "b@x" None) db1 = Some (db2, None) /\
    map profiles.invite_code (db_profiles db2)
      = [Some "AAAAAAAA"; Some "SSSSSSSS"] /\
    exec 0 sample_source (signed_in alice) 1%Z
         (on_journal_entries (Insert true (entry_of 10 alice 5 "home" None))) db2
      = Some (db3, None) /\
    exec 0 sample_source (signed_in alice) 2%Z
         (on_journal_entries (Insert true (entry_of 11 alice 5 "again" None))) db3
      = Some (db3, Some unique_violation) /\
    exec 0 sample_source (signed_in bob) 2%Z
         (on_journal_entries (Insert true (entry_of 11 alice 5 "again" None))) db3
      = Some (db3, Some insufficient_privilege) /\
    exec 0 sample_source (signed_in alice) 3%Z
         (on_profiles (Delete false (fun _ => true))) db3 = Some (db3, None) /\
    reachable db3.
Proof.
  eexists. eexists. eexists.
  split; [vm_compute; reflexivity|]. split; [vm_compute; reflexivity|].
  split; [vm_compute; reflexivity|]. split; [vm_compute; reflexivity|].
  split; [vm_compute; reflexivity|]. split; [vm_compute; reflexivity|].
  split; [vm_compute; reflexivity|].
  eapply (steps_exec 0 sample_source (signed_in alice) 1%Z
            (on_journal_entries (Insert true (entry_of 10 alice 5 "home" None)))
            _ _ _ None).
  - eapply (steps_exec 1 sample_source anonymous 0%Z
              (auth_user_created bob "b@x" None) _ _ _ None).
    + eapply (steps_exec 1 sample_source anonymous 0%Z
                (auth_user_created alice "a@x" None) _ _ _ None).
      * apply steps_refl.
      * vm_compute; reflexivity.
    + vm_compute; reflexivity.
  - vm_compute; reflexivity.
Qed.

Example invite_partner_sample :
  run (fun _ _ => Fulfilled (JObject [(js "partner_name", JString (js "Bob"))])) []
      (invitePartner sample_url (setInviteCode (js "SSSSSSSS") sample_client))
    = (setShowInviteModal false (setInviteCode [] (setInviteCode (js "SSSSSSSS") sample_client)),
       [ Requested (axios_post (API sample_url ++ js "/invite-partner")
                      (Some (JObject [(js "invite_code", JString (js "SSSSSSSS"))])));
         Effect (Alert (js "Partner linked successfully! Welcome Bob!"));
         Requested (stats_request sample_url);
         Effect Reload ]) /\
  run conflict_backend [] (invitePartner sample_url sample_client)
    = (sample_client, []) /\
  run conflict_backend []
      (saveJournalEntry sample_url (js "2024-01")
         (setJournalEntry [32; 9; 160; 10]%N sample_client))
    = (setJournalEntry [32; 9; 160; 10]%N sample_client, []).
Proof. repeat split. Qed.

(** * Further properties of the schema *)

(** ** Every constraint, as an invariant of the statements *)

Lemma conflicts_app {row} (rel : relation row) r l1 l2 :
  conflicts rel r (l1 ++ l2) = conflicts rel r l1 || conflicts rel r l2.
Proof. unfold conflicts. apply existsb_app. Qed.

Lemma conflicts_one {row} (rel : relation row) r x :
  conflicts rel r [x] = existsb (fun same => same r x) (rel_unique rel).
Proof. unfold conflicts. simpl. apply orb_false_r. Qed.

Section DistinctRows.
Context {row : Type}.
Variable rel : relation row.
Hypothesis symmetric : symmetric_constraints rel.

Lemma conflicts_sym r x : conflicts rel r [x] = conflicts rel x [r].
Proof.
  rewrite !conflicts_one.
  assert (G : forall l,
             (forall same, In same l -> forall a b, same a b = same b a) ->
             existsb (fun same => same r x) l = existsb (fun same => same x r) l).
  { induction l as [|same l IH]; simpl; intros S; [reflexivity|].
    rewrite IH by auto. f_equal. apply S. now left. }
  apply G, symmetric.
Qed.

Lemma conflicts_cons r x l :
  conflicts rel r (x :: l) = conflicts rel r [x] || conflicts rel r l.
Proof. apply (conflicts_app rel r [x] l). Qed.

(** A row in the middle: the table without it is distinct and it
    collides with none of the others. *)
Lemma distinct_middle l1 x l2 :
  distinct_rows rel (l1 ++ x :: l2) <->
  distinct_rows rel (l1 ++ l2) /\ conflicts rel x (l1 ++ l2) = false.
Proof.
  induction l1 as [|a l1 IH]; cbn [app distinct_rows].
  - tauto.
  - rewrite IH.
    rewrite (conflicts_app rel a l1 (x :: l2)), (conflicts_cons a x l2).
    rewrite (conflicts_app rel a l1 l2), (conflicts_cons x a (l1 ++ l2)).
    rewrite !orb_false_iff, (conflicts_sym a x). tauto.
Qed.

Lemma distinct_append rows r :
  distinct_rows rel rows -> conflicts rel r rows = false ->
  distinct_rows rel (rows ++ [r]).
Proof.
  intros D C. apply distinct_middle. rewrite app_nil_r. auto.
Qed.

Lemma distinct_filter (f : row -> bool) rows :
  distinct_rows rel rows -> distinct_rows rel (filter f rows).
Proof.
  induction rows as [|r rows IH]; simpl; [auto|].
  intros [C D]. destruct (f r); simpl; [|auto].
  split; [|auto].
  apply not_true_iff_false. intros T.
  unfold conflicts in T. apply existsb_exists in T as [x [Hx T]].
  apply filter_In in Hx as [Hx _].
  assert (conflicts rel r rows = true)
    by (unfold conflicts; apply existsb_exists; eauto).
  congruence.
Qed.

Lemma distinct_insert profs s returning r rows out :
  distinct_rows rel rows ->
  rls_insert rel profs s returning r rows = Ok out ->
  distinct_rows rel out.
Proof.
  intros D H. apply rls_insert_ok in H as [_ [C ->]].
  now apply distinct_append.
Qed.

Lemma distinct_update_loop profs s now reads where_ set_ todo :
  forall done out,
    distinct_rows rel (done ++ todo) ->
    update_loop rel profs s now reads where_ set_ done todo = Ok out ->
    distinct_rows rel out.
Proof.
  induction todo as [|r rest IH]; simpl; intros done out D H.
  - injection H as <-. now rewrite app_nil_r in D.
  - destruct (targeted rel profs s UPDATE reads where_ r).
    + destruct (check_ok rel profs s UPDATE _); simpl in H; [|discriminate].
      destruct (reads && negb _); [discriminate|].
      destruct (conflicts rel _ (done ++ rest)) eqn:C; [discriminate|].
      apply IH in H; [assumption|].
      rewrite <- app_assoc. simpl.
      apply distinct_middle in D as [D _].
      apply distinct_middle. auto.
    + apply IH in H; [assumption|]. now rewrite <- app_assoc.
Qed.

Lemma distinct_run_op profs s now o rows out :
  distinct_rows rel rows ->
  run_op rel profs s now o rows = Ok out ->
  distinct_rows rel out.
Proof.
  intros D. destruct o as [returning r|reads where_ set_|reads where_]; simpl.
  - now apply distinct_insert.
  - now apply distinct_update_loop.
  - intros H. injection H as <-. now apply distinct_filter.
Qed.

(** What the invariant says for one constraint, read through a key. *)
Lemma distinct_NoDup {K} (key : row -> K) same rows :
  In same (rel_unique rel) ->
  (forall a b, key a = key b -> same a b = true) ->
  distinct_rows rel rows -> NoDup (map key rows).
Proof.
  intros Hin Hkey. induction rows as [|r rows IH]; simpl; [constructor|].
  intros [C D]. constructor; [|auto].
  intros Hk. apply in_map_iff in Hk as [x [E Hx]].
  assert (conflicts rel r rows = true); [|congruence].
  unfold conflicts. apply existsb_exists. exists x. split; [assumption|].
  apply existsb_exists. exists same. split; [assumption|]. now apply Hkey.
Qed.

Lemma present_In {K} (col : row -> option K) rows k :
  In k (present col rows) <-> exists r, In r rows /\ col r = Some k.
Proof.
  unfold present. rewrite in_flat_map. split.
  - intros [r [Hr Hk]]. exists r. split; [assumption|].
    destruct (col r) as [k'|]; simpl in Hk; [|contradiction].
    destruct Hk as [-> | []]. reflexivity.
  - intros [r [Hr Hk]]. exists r. split; [assumption|].
    rewrite Hk. simpl. auto.
Qed.

Lemma distinct_NoDup_present {K} (col : row -> option K) same rows :
  In same (rel_unique rel) ->
  (forall a b k, col a = Some k -> col b = Some k -> same a b = true) ->
  distinct_rows rel rows -> NoDup (present col rows).
Proof.
  intros Hin Hkey. induction rows as [|r rows IH]; simpl; [constructor|].
  intros [C D]. specialize (IH D).
  destruct (col r) as [k|] eqn:E; simpl; [|assumption].
  constructor; [|assumption].
  intros Hk. apply present_In in Hk as [x [Hx Ex]].
  assert (conflicts rel r rows = true); [|congruence].
  unfold conflicts. apply existsb_exists. exists x. split; [assumption|].
  apply existsb_exists. exists same. split; [assumption|]. eapply Hkey; eauto.
Qed.
End DistinctRows.

Lemma array_eqb_sym a : forall b, array_eqb a b = array_eqb b a.
Proof.
  induction a as [|[x|] a IH]; intros [|[y|] b]; simpl; try reflexivity.
  - now rewrite N.eqb_sym, IH.
  - apply IH.
Qed.

Lemma opt_same_string_sym (x y : option text) :
  opt_same String.eqb x y = opt_same String.eqb y x.
Proof.
  destruct x, y; unfold opt_same, sql_eq; try reflexivity.
  now rewrite String.eqb_sym.
Qed.

Lemma entry_type_eqb_sym a b : entry_type_eqb a b = entry_type_eqb b a.
Proof. now destruct a, b. Qed.

Lemma profiles_symmetric : symmetric_constraints profiles_rel.
Proof.
  intros same Hin a b. simpl in Hin.
  destruct Hin as [<- | [<- | [<- | []]]].
  - apply N.eqb_sym.
  - apply String.eqb_sym.
  - apply opt_same_string_sym.
Qed.

Lemma journal_entries_symmetric : symmetric_constraints journal_entries_rel.
Proof.
  intros same Hin a b. simpl in Hin.
  destruct Hin as [<- | [<- | []]].
  - apply N.eqb_sym.
  - f_equal; [apply N.eqb_sym | apply Z.eqb_sym].
Qed.

Lemma mood_entries_symmetric : symmetric_constraints mood_entries_rel.
Proof.
  intros same Hin a b. simpl in Hin.
  destruct Hin as [<- | [<- | []]].
  - apply N.eqb_sym.
  - f_equal; [apply N.eqb_sym | apply Z.eqb_sym].
Qed.

Lemma shared_reflections_symmetric : symmetric_constraints shared_reflections_rel.
Proof.
  intros same Hin a b. simpl in Hin.
  destruct Hin as [<- | [<- | []]].
  - apply N.eqb_sym.
  - f_equal; [apply Z.eqb_sym | apply array_eqb_sym].
Qed.

Lemma entry_access_logs_symmetric : symmetric_constraints entry_access_logs_rel.
Proof.
  intros same Hin a b. simpl in Hin.
  destruct Hin as [<- | []]. apply N.eqb_sym.
Qed.

Lemma private_notes_symmetric : symmetric_constraints private_notes_rel.
Proof.
  intros same Hin a b. simpl in Hin.
  destruct Hin as [<- | [<- | []]].
  - apply N.eqb_sym.
  - f_equal; [f_equal; apply N.eqb_sym | apply entry_type_eqb_sym].
Qed.

Lemma handle_new_user_distinct fuel src profs uid mail name now pos out pos' :
  distinct_rows profiles_rel profs ->
  handle_new_user fuel src profs uid mail name now pos = Some (Ok out, pos') ->
  distinct_rows profiles_rel out.
Proof.
  intros D. unfold handle_new_user.
  destruct (set_invite_code _ _ _ _ _) as [[[NEW|err] p]|];
    [| discriminate | discriminate].
  destruct (conflicts profiles_rel NEW profs) eqn:C; intros H; [discriminate|].
  injection H as <- _.
  now apply (distinct_append profiles_rel profiles_symmetric).
Qed.

Lemma wrote_distinct {row} (rel : relation row) profs s now before after :
  symmetric_constraints rel ->
  distinct_rows rel before ->
  wrote rel profs s now before after ->
  distinct_rows rel after.
Proof.
  intros S D [-> | [o R]]; [assumption|].
  now apply (distinct_run_op rel S) in R.
Qed.

Lemma exec_well_keyed fuel src s now st db db' e :
  well_keyed db ->
  exec fuel src s now st db = Some (db', e) ->
  well_keyed db'.
Proof.
  intros [P [J [M [R [L N]]]]] H.
  apply exec_tables in H as [Wp [Wj [Wm [Wr [Wl Wn]]]]].
  split; [|split; [|split; [|split; [|split]]]].
  - destruct Wp as [-> | [[returning [NEW I]] | [[reads [where_ [set_ U]]]
                   | [uid [mail [name [pos [pos' U]]]]]]]].
    + assumption.
    + now apply (distinct_insert profiles_rel profiles_symmetric) in I.
    + now apply (distinct_update_loop profiles_rel profiles_symmetric) in U.
    + now apply handle_new_user_distinct in U.
  - eapply wrote_distinct; [apply journal_entries_symmetric | exact J | exact Wj].
  - eapply wrote_distinct; [apply mood_entries_symmetric | exact M | exact Wm].
  - eapply wrote_distinct; [apply shared_reflections_symmetric | exact R | exact Wr].
  - eapply wrote_distinct; [apply entry_access_logs_symmetric | exact L | exact Wl].
  - eapply wrote_distinct; [apply private_notes_symmetric | exact N | exact Wn].
Qed.

Lemma steps_well_keyed db db' : steps db db' -> well_keyed db -> well_keyed db'.
Proof.
  induction 1 as [db | fuel src s now st db db' db'' e _ IH H]; intros W.
  - exact W.
  - eapply exec_well_keyed; [|exact H]. auto.
Qed.

Lemma reachable_well_keyed db : reachable db -> well_keyed db.
Proof.
  intros R. apply (steps_well_keyed _ _ R). repeat split.
Qed.

Lemma sample_database_reachable : reachable sample_database.
Proof.
  eapply (steps_exec 0 sample_source (signed_in alice) 1%Z
            (on_journal_entries (Insert true (entry_of 10 alice 5 "home" None)))
            _ _ _ None).
  - eapply (steps_exec 1 sample_source anonymous 0%Z
              (auth_user_created bob "b@x" None) _ _ _ None).
    + eapply (steps_exec 1 sample_source anonymous 0%Z
                (auth_user_created alice "a@x" None) _ _ _ None).
      * apply steps_refl.
      * vm_compute; reflexivity.
    + vm_compute; reflexivity.
  - vm_compute; reflexivity.
Qed.

(** X1. In every database the statements can produce, no two profiles
    share an id, an email or a (non-NULL) invite code. *)
Theorem profiles_identities_unique (db : database) :
  reachable db ->
  NoDup (map profiles.id (db_profiles db)) /\
  NoDup (map profiles.email (db_profiles db)) /\
  NoDup (present profiles.invite_code (db_profiles db)).
Proof.
  intros R. apply reachable_well_keyed in R as [P _].
  split; [|split].
  - eapply (distinct_NoDup profiles_rel profiles.id); [| |exact P].
    + simpl. left. reflexivity.
    + intros a b E. simpl. rewrite E. apply N.eqb_refl.
  - eapply (distinct_NoDup profiles_rel profiles.email); [| |exact P].
    + simpl. right. left. reflexivity.
    + intros a b E. simpl. rewrite E. apply String.eqb_refl.
  - eapply (distinct_NoDup_present profiles_rel profiles.invite_code); [| |exact P].
    + simpl. right. right. left. reflexivity.
    + intros a b k Ea Eb. simpl. rewrite Ea, Eb.
      unfold opt_same. apply is_true_eq_string. eauto.
Qed.

Lemma profiles_identities_unique_witness :
  reachable sample_database /\
  NoDup (present profiles.invite_code (db_profiles sample_database)).
Proof.
  split; [exact sample_database_reachable|].
  apply (profiles_identities_unique sample_database sample_database_reachable).
Defined.

Lemma note_same_key a b :
  N.eqb (private_notes.user_id a) (private_notes.user_id b)
  && N.eqb (private_notes.entry_id a) (private_notes.entry_id b)
  && entry_type_eqb (private_notes.entry_type a) (private_notes.entry_type b)
  = true <->
  note_key a = note_key b.
Proof.
  unfold note_key. rewrite !andb_true_iff, !N.eqb_eq. split.
  - intros [[-> ->] T].
    destruct (private_notes.entry_type a), (private_notes.entry_type b);
      simpl in T; congruence.
  - intros H. injection H as -> -> ->.
    repeat split. now destruct (private_notes.entry_type b).
Qed.

(** X2. In every database the statements can produce there is at most
    one private note per (author, entry, entry kind); an INSERT of a note
    whose author, entry and kind an existing note already has fails and
    leaves the database as it was, with the unique-key conflict when the
    inserting session is the author. *)
Theorem one_note_per_author_and_entry :
  (forall db, reachable db -> NoDup (map note_key (db_private_notes db))) /\
  (forall fuel src s now db returning r existing,
      In existing (db_private_notes db) ->
      note_key existing = note_key r ->
      exists e,
        exec fuel src s now (on_private_notes (Insert returning r)) db
          = Some (db, Some e) /\
        (owns s (private_notes.user_id r) -> e = unique_violation)).
Proof.
  split.
  - intros db R. apply reachable_well_keyed in R as [_ [_ [_ [_ [_ N]]]]].
    eapply (distinct_NoDup private_notes_rel note_key); [| |exact N].
    + simpl. right. left. reflexivity.
    + intros a b E. now apply note_same_key.
  - intros fuel src s now db returning r existing Hin Hk.
    assert (K : In (note_key r) (map note_key (db_private_notes db))).
    { apply in_map_iff. exists existing. auto. }
    destruct (insert_duplicate private_notes_rel note_key _
                (or_intror (or_introl eq_refl)) note_same_key
                (db_profiles db) s returning r _ K) as [e [E He]].
    exists e. split.
    { apply exec_on_failed; [apply row_security_private_notes | exact E]. }
    intros Hown. apply He.
    + unfold check_ok; simpl. rewrite !orb_false_r. now apply uid_is_true.
    + now apply private_notes_select.
Qed.

(** X3. In every database the statements can produce, the primary key
    [id] identifies at most one row of [journal_entries], [mood_entries],
    [shared_reflections], [entry_access_logs] and [private_notes], whether
    the ids were generated or supplied by the inserting session. *)
Theorem primary_keys_unique (db : database) :
  reachable db ->
  NoDup (map journal_entries.id (db_journal_entries db)) /\
  NoDup (map mood_entries.id (db_mood_entries db)) /\
  NoDup (map shared_reflections.id (db_shared_reflections db)) /\
  NoDup (map entry_access_logs.id (db_entry_access_logs db)) /\
  NoDup (map private_notes.id (db_private_notes db)).
Proof.
  intros R. apply reachable_well_keyed in R as [_ [J [M [S [L N]]]]].
  repeat split.
  - eapply (distinct_NoDup journal_entries_rel); [| |exact J];
      [simpl; left; reflexivity|].
    intros a b E. simpl. rewrite E. apply N.eqb_refl.
  - eapply (distinct_NoDup mood_entries_rel); [| |exact M];
      [simpl; left; reflexivity|].
    intros a b E. simpl. rewrite E. apply N.eqb_refl.
  - eapply (distinct_NoDup shared_reflections_rel); [| |exact S];
      [simpl; left; reflexivity|].
    intros a b E. simpl. rewrite E. apply N.eqb_refl.
  - eapply (distinct_NoDup entry_access_logs_rel); [| |exact L];
      [simpl; left; reflexivity|].
    intros a b E. simpl. rewrite E. apply N.eqb_refl.
  - eapply (distinct_NoDup private_notes_rel); [| |exact N];
      [simpl; left; reflexivity|].
    intros a b E. simpl. rewrite E. apply N.eqb_refl.
Qed.

Lemma primary_keys_unique_witness :
  reachable sample_database /\
  NoDup (map journal_entries.id (db_journal_entries sample_database)).
Proof.
  split; [exact sample_database_reachable|].
  apply (primary_keys_unique sample_database sample_database_reachable).
Defined.

(** ** Sessions no policy admits *)

Section NoPolicyAdmits.
Context {row : Type}.
Variable rel : relation row.
Variable profs : list profiles.row.
Variable s : session.
Variable now : timestamptz.

Lemma filter_none (f : row -> bool) rows :
  (forall r, f r = false) -> filter f rows = [].
Proof.
  intros H. induction rows as [|r rows IH]; simpl; [reflexivity|].
  now rewrite H.
Qed.

Lemma no_write_read_only :
  (forall r, check_ok rel profs s INSERT r = false) ->
  (forall r, using_ok rel profs s UPDATE r = false) ->
  (forall r, using_ok rel profs s DELETE r = false) ->
  read_only rel profs s now.
Proof.
  intros I U D. split; [|split].
  - intros returning r rows. unfold rls_insert. now rewrite I.
  - intros reads where_ set_ rows. unfold rls_update.
    rewrite update_loop_untargeted; [reflexivity|].
    intros r _. unfold targeted. now rewrite U, andb_false_r.
  - intros reads where_ rows. unfold rls_delete. apply filter_all.
    intros r _. unfold targeted. now rewrite D, andb_false_r.
Qed.

Lemma nothing_admitted_shut_out :
  (forall c reads, row_security rel c reads = Some (Ok tt)) ->
  (forall r, using_ok rel profs s SELECT r = false) ->
  (forall r, check_ok rel profs s INSERT r = false) ->
  (forall r, using_ok rel profs s UPDATE r = false) ->
  (forall r, using_ok rel profs s DELETE r = false) ->
  shut_out rel profs s now.
Proof.
  intros RS S I U D. destruct (no_write_read_only I U D) as [Hi [Hu Hd]].
  unfold shut_out, select_from, run_statement.
  split; [|split; [|split]]; intros; rewrite RS; cbn [run_op].
  - unfold rls_select. now rewrite filter_none.
  - now rewrite Hi.
  - now rewrite Hu.
  - now rewrite Hd.
Qed.
End NoPolicyAdmits.

Lemma uid_is_null s u : auth_uid s = None -> is_true (uid_is s u) = false.
Proof. intros H. unfold uid_is. now rewrite H. Qed.

Lemma sql_in_null_N l : is_true (sql_in N.eqb None l) = false.
Proof.
  apply not_true_iff_false. intros H.
  apply is_true_in_N in H as [u [H _]]. discriminate.
Qed.

Lemma partner_of_anonymous profs s :
  auth_uid s = None -> partner_of_requester profs s = [].
Proof.
  intros H. unfold partner_of_requester. rewrite H.
  rewrite (filter_none (fun p => is_true (sql_eq N.eqb (Some (profiles.id p)) None)));
    [reflexivity|].
  intros p. reflexivity.
Qed.

Lemma service_role_true s :
  is_true (role_is s "service_role") = String.eqb (auth_role s) "service_role".
Proof. unfold role_is. apply is_true_Some. Qed.

Lemma sql_any_null_N arr : is_true (sql_any N.eqb None arr) = false.
Proof.
  apply not_true_iff_false. intros H.
  apply is_true_any_N in H as [u [l [H _]]]. discriminate.
Qed.

Lemma sql_eq_null_N y : is_true (sql_eq N.eqb None y) = false.
Proof. reflexivity. Qed.

Ltac no_identity U Rb :=
  apply nothing_admitted_shut_out;
  [ intros c reads; destruct c, reads; reflexivity
  | intros r; unfold using_ok, check_ok; simpl;
    rewrite ?is_true_or, ?service_role_true, ?Rb;
    rewrite ?(uid_is_null _ _ U), ?(partner_of_anonymous _ _ U);
    rewrite ?U, ?sql_in_null_N, ?sql_any_null_N, ?sql_eq_null_N;
    reflexivity .. ].

(** X4. A request without an identity ([auth.uid()] is NULL) that does
    not carry the service role reads no row of any of the six tables and
    changes none.  On the five tables that reference profiles every
    comparison with NULL is unknown and a policy admits a row only when
    its expression is true: a SELECT returns no row, an INSERT is refused
    as a violation of row security, an UPDATE and a DELETE find no row.
    On profiles a SELECT, and every statement that reads the table, is
    refused by the rewriter; an INSERT without a code is refused in the
    trigger, after it drew a code, and one with a code as a violation of
    row security; an UPDATE and a DELETE that do not read find no row. *)
Theorem anonymous_shut_out
    (profs : list profiles.row) (s : session) (now : timestamptz) :
  auth_uid s = None ->
  auth_role s <> "service_role" ->
  (shut_out journal_entries_rel profs s now /\
   shut_out mood_entries_rel profs s now /\
   shut_out shared_reflections_rel profs s now /\
   shut_out entry_access_logs_rel profs s now /\
   shut_out private_notes_rel profs s now) /\
  (forall rows,
      select_from profiles_rel profs s rows = Some (Err infinite_recursion)) /\
  (forall fuel src db o,
      op_reads o = true ->
      exec fuel src s now (on_profiles o) db
        = Some (db, Some infinite_recursion)) /\
  (forall fuel src db P,
      exec fuel src s now (on_profiles (Insert false P)) db
      = match profiles.invite_code P with
        | None => Some (set_random_calls db (db_random_calls db + 8),
                        Some infinite_recursion)
        | Some _ => Some (db, Some insufficient_privilege)
        end) /\
  (forall fuel src db where_ set_,
      exec fuel src s now (on_profiles (Update false where_ set_)) db
        = Some (db, None)) /\
  (forall fuel src db where_,
      exec fuel src s now (on_profiles (Delete false where_)) db
        = Some (db, None)).
Proof.
  intros U R.
  assert (Rb : String.eqb (auth_role s) "service_role" = false)
    by now apply String.eqb_neq.
  split; [|split; [|split; [|split; [|split]]]].
  - split; [|split; [|split; [|split]]]; no_identity U Rb.
  - reflexivity.
  - intros fuel src db o Ro. now apply exec_profiles_reads.
  - intros fuel src db P. cbn [exec]. unfold exec_profiles.
    rewrite row_security_profiles. cbn [op_reads op_command orb command_eqb].
    rewrite select_from_profiles. unfold set_invite_code.
    destruct (profiles.invite_code P) as [code|].
    + unfold rls_insert.
      assert (C : check_ok profiles_rel (db_profiles db) s INSERT P = false).
      { unfold check_ok; simpl. now rewrite (uid_is_null _ _ U). }
      rewrite C. cbn [negb lift]. now rewrite set_random_calls_same.
    + now rewrite generate_invite_code_eq.
  - intros fuel src db where_ set_. apply exec_profiles_update_untargeted.
    intros r. unfold using_ok; simpl. now rewrite (uid_is_null _ _ U).
  - intros. apply exec_profiles_delete.
Qed.

Lemma anonymous_shut_out_witness :
  auth_uid anonymous = None /\
  auth_role anonymous <> "service_role" /\
  select_from journal_entries_rel [] anonymous sample_entries = Some (Ok []) /\
  select_from profiles_rel [] anonymous sample_couple
    = Some (Err infinite_recursion) /\
  exec 0 sample_source anonymous 0%Z
       (on_profiles (Insert false (profile_of alice "a@x" None None)))
       empty_database
    = Some (set_random_calls empty_database 8, Some infinite_recursion).
Proof.
  assert (U : auth_uid anonymous = None) by reflexivity.
  assert (R : auth_role anonymous <> "service_role") by discriminate.
  destruct (anonymous_shut_out [] anonymous 0%Z U R)
    as [[[Js _] _] [Ps [_ [Pi _]]]].
  split; [exact U|]. split; [exact R|]. split; [apply Js|].
  split; [apply Ps|].
  exact (Pi 0 sample_source empty_database (profile_of alice "a@x" None None)).
Defined.

(** ** Shared reflections *)

(** X5. A SELECT on [shared_reflections] returns a row exactly when the
    requester's identity is an element of its [user_ids] or the request
    carries the service role; a request without the service role can
    neither insert, change nor delete a reflection, and one with the
    service role passes every write check, whatever its identity. *)
Theorem reflections_read_by_pair_written_by_service
    (profs : list profiles.row) (s : session) (now : timestamptz) :
  (forall rows r,
      In r (rls_select shared_reflections_rel profs s rows) <->
      In r rows /\
      ((exists R, auth_uid s = Some R /\
                  In (Some R) (shared_reflections.user_ids r)) \/
       auth_role s = "service_role")) /\
  (auth_role s <> "service_role" ->
   read_only shared_reflections_rel profs s now) /\
  (auth_role s = "service_role" ->
   forall r,
     check_ok shared_reflections_rel profs s INSERT r = true /\
     using_ok shared_reflections_rel profs s UPDATE r = true /\
     check_ok shared_reflections_rel profs s UPDATE r = true /\
     using_ok shared_reflections_rel profs s DELETE r = true).
Proof.
  split; [|split].
  - intros rows r. rewrite rls_select_In. unfold using_ok; simpl.
    rewrite orb_false_r, orb_true_iff, is_true_in_N, service_role_true,
      String.eqb_eq.
    tauto.
  - intros R.
    assert (Rb : String.eqb (auth_role s) "service_role" = false)
      by now apply String.eqb_neq.
    apply no_write_read_only; intros r; unfold using_ok, check_ok; simpl;
      now rewrite service_role_true, Rb.
  - intros R r. unfold using_ok, check_ok; simpl.
    rewrite service_role_true, R. repeat split.
Qed.

(** ** Audio objects outside a partition *)

Lemma sql_in_null_string l : is_true (sql_in String.eqb None l) = false.
Proof.
  apply not_true_iff_false. intros H.
  apply is_true_in_string in H as [u [H _]]. discriminate.
Qed.

(** X6. An object of another bucket, or one that sits at the root of the
    audio bucket (no folder in its name), passes no policy: nobody reads,
    uploads, changes or deletes it, its uploader included. *)
Theorem objects_outside_partitions
    (uuid_text : uuid -> text) (storage_foldername : text -> list text)
    (profs : list profiles.row) (s : session) (o : storage_objects.row) :
  storage_objects.bucket_id o <> "audio-journal" \/
  folder1 storage_foldername o = None ->
  using_ok (storage_objects_rel uuid_text storage_foldername) profs s SELECT o
    = false /\
  check_ok (storage_objects_rel uuid_text storage_foldername) profs s INSERT o
    = false /\
  using_ok (storage_objects_rel uuid_text storage_foldername) profs s UPDATE o
    = false /\
  check_ok (storage_objects_rel uuid_text storage_foldername) profs s UPDATE o
    = false /\
  using_ok (storage_objects_rel uuid_text storage_foldername) profs s DELETE o
    = false.
Proof.
  intros H. unfold using_ok, check_ok; simpl. unfold own_folder.
  rewrite !orb_false_r, !is_true_and, is_true_or.
  unfold in_bucket. rewrite is_true_Some.
  destruct H as [B | F].
  - apply String.eqb_neq in B. rewrite B. repeat split.
  - rewrite F, sql_in_null_string. unfold sql_eq, is_true.
    destruct (uid_text uuid_text s); rewrite !andb_false_r; repeat split.
Qed.

Lemma objects_outside_partitions_witness :
  folder1 sample_foldername sample_root_object = None /\
  check_ok (storage_objects_rel sample_uuid_text sample_foldername)
           sample_couple (signed_in alice) INSERT sample_root_object = false.
Proof.
  assert (F : folder1 sample_foldername sample_root_object = None)
    by reflexivity.
  split; [exact F|].
  apply (objects_outside_partitions sample_uuid_text sample_foldername
           sample_couple (signed_in alice) sample_root_object (or_intror F)).
Defined.

(** ** What an UPDATE keeps and what the trigger stamps *)

Lemma Forall2_map_eq {A B} (f : A -> B) (P : A -> A -> Prop) l l' :
  (forall a b, P a b -> f b = f a) -> Forall2 P l l' -> map f l' = map f l.
Proof.
  intros H. induction 1 as [|a b l l' Hab _ IH]; simpl; [reflexivity|].
  now rewrite (H a b Hab), IH.
Qed.

Lemma owner_update_keeps {row} (rel : relation row) (owner : row -> uuid)
    profs s now reads where_ set_ rows out :
  owner_only_policies rel profs s (fun r => owns s (owner r)) ->
  rls_update rel profs s now reads where_ set_ rows = Ok out ->
  map owner out = map owner rows.
Proof.
  intros Hp H.
  destruct (owner_only_writes rel profs s now _ Hp) as [_ [U _]].
  apply U in H. eapply Forall2_map_eq; [|exact H].
  intros a b [-> | [Ha Hb]]; [reflexivity|].
  unfold owns in *. congruence.
Qed.

(** X7. An UPDATE that goes through never moves a row to another owner:
    the [user_id] of every journal entry, mood entry and private note, and
    the [id] of every profile, is after the statement what it was before,
    whatever the SET clause assigns. *)
Theorem update_keeps_owner
    (profs : list profiles.row) (s : session) (now : timestamptz) (reads : bool) :
  (forall where_ set_ rows out,
      rls_update journal_entries_rel profs s now reads where_ set_ rows = Ok out ->
      map journal_entries.user_id out = map journal_entries.user_id rows) /\
  (forall where_ set_ rows out,
      rls_update mood_entries_rel profs s now reads where_ set_ rows = Ok out ->
      map mood_entries.user_id out = map mood_entries.user_id rows) /\
  (forall where_ set_ rows out,
      rls_update private_notes_rel profs s now reads where_ set_ rows = Ok out ->
      map private_notes.user_id out = map private_notes.user_id rows) /\
  (forall where_ set_ rows out,
      rls_update profiles_rel profs s now reads where_ set_ rows = Ok out ->
      map profiles.id out = map profiles.id rows).
Proof.
  repeat split; intros where_ set_ rows out H.
  - eapply owner_update_keeps; [apply journal_entries_owner_only | exact H].
  - eapply owner_update_keeps; [apply mood_entries_owner_only | exact H].
  - eapply owner_update_keeps; [apply private_notes_author_policies | exact H].
  - eapply owner_update_keeps; [apply profiles_self_policies | exact H].
Qed.

Example update_to_other_owner_sample :
  rls_update journal_entries_rel [] (signed_in alice) 9%Z true (fun _ => true)
    (fun r => entry_of 10 bob 5 "yours now" None) sample_entries
  = Err insufficient_privilege.
Proof. reflexivity. Qed.

(** X8. The [update_updated_at_column] trigger.  In an UPDATE that goes
    through, every row of [journal_entries], [profiles] and
    [private_notes] that the UPDATE targets (it matches the WHERE clause
    and the policies let the session at it) is afterwards the row the SET
    clause produced with [updated_at = NOW()], whatever value the SET
    clause gave that column, and every row the UPDATE does not target is
    left as it is.  On [mood_entries], which has no such trigger, a
    targeted row is the row the SET clause produced. *)
Theorem update_stamps_updated_at
    (profs : list profiles.row) (s : session) (now : timestamptz) (reads : bool) :
  (forall where_ set_ rows out,
      rls_update journal_entries_rel profs s now reads where_ set_ rows = Ok out ->
      Forall2 (fun old new =>
                 if targeted journal_entries_rel profs s UPDATE reads where_ old
                 then new = journal_entries_touch now (set_ old) /\
                      journal_entries.updated_at new = Some now
                 else new = old)
              rows out) /\
  (forall where_ set_ rows out,
      rls_update profiles_rel profs s now reads where_ set_ rows = Ok out ->
      Forall2 (fun old new =>
                 if targeted profiles_rel profs s UPDATE reads where_ old
                 then new = profiles_touch now (set_ old) /\
                      profiles.updated_at new = Some now
                 else new = old)
              rows out) /\
  (forall where_ set_ rows out,
      rls_update private_notes_rel profs s now reads where_ set_ rows = Ok out ->
      Forall2 (fun old new =>
                 if targeted private_notes_rel profs s UPDATE reads where_ old
                 then new = private_notes_touch now (set_ old) /\
                      private_notes.updated_at new = Some now
                 else new = old)
              rows out) /\
  (forall where_ set_ rows out,
      rls_update mood_entries_rel profs s now reads where_ set_ rows = Ok out ->
      Forall2 (fun old new =>
                 if targeted mood_entries_rel profs s UPDATE reads where_ old
                 then new = set_ old
                 else new = old)
              rows out).
Proof.
  split; [|split; [|split]]; intros where_ set_ rows out H;
    apply rls_update_ok in H; (eapply Forall2_impl; [|exact H]);
    intros old new [[T ->] | [T [-> _]]]; rewrite T; auto.
Qed.

Example update_stamps_sample :
  rls_update journal_entries_rel [] (signed_in alice) 9%Z true
    (fun r => N.eqb (journal_entries.id r) 10)
    (fun r => entry_of 10 alice 5 "edited" None)
    [ entry_of 10 alice 5 "home" None; entry_of 12 alice 6 "away" None;
      entry_of 13 bob 5 "his" None ]
  = Ok [ journal_entries_touch 9%Z (entry_of 10 alice 5 "edited" None);
         entry_of 12 alice 6 "away" None; entry_of 13 bob 5 "his" None ].
Proof. reflexivity. Qed.

(** ** Profiles stay *)

Lemma exec_keeps_profile_ids fuel src s now st db db' e :
  exec fuel src s now st db = Some (db', e) ->
  exists added,
    map profiles.id (db_profiles db') = map profiles.id (db_profiles db) ++ added.
Proof.
  intros H. apply exec_tables in H as [Wp _].
  destruct Wp as [-> | [[returning [NEW I]] | [[reads [where_ [set_ U]]]
                 | [uid [mail [name [pos [pos' U]]]]]]]].
  - exists []. now rewrite app_nil_r.
  - apply rls_insert_ok in I as [_ [_ ->]].
    exists [profiles.id NEW]. now rewrite map_app.
  - exists []. rewrite app_nil_r.
    eapply owner_update_keeps; [apply profiles_self_policies | exact U].
  - unfold handle_new_user in U.
    destruct (set_invite_code _ _ _ _ _) as [[[NEW|err] p]|];
      [| discriminate | discriminate].
    destruct (conflicts profiles_rel NEW (db_profiles db)); [discriminate|].
    injection U as <- _. exists [profiles.id NEW]. now rewrite map_app.
Qed.

(** X9. Profiles stay: no statement of any session removes a profile or
    changes its id (there is no DELETE policy on profiles, and the UPDATE
    policy ties the id to the requester), so the ids of the profiles after
    any sequence of statements are those before it, in the same order, with
    new ones added at the end. *)
Theorem profiles_never_removed (db db' : database) :
  steps db db' ->
  exists added,
    map profiles.id (db_profiles db') = map profiles.id (db_profiles db) ++ added.
Proof.
  induction 1 as [db | fuel src s now st db db' db'' e _ [a1 IH] H].
  - exists []. now rewrite app_nil_r.
  - apply exec_keeps_profile_ids in H as [a2 H].
    exists (a1 ++ a2). now rewrite H, IH, app_assoc.
Qed.

Lemma profiles_never_removed_witness :
  steps empty_database sample_database /\
  exists added,
    map profiles.id (db_profiles sample_database)
    = map profiles.id (db_profiles empty_database) ++ added.
Proof.
  split; [exact sample_database_reachable|].
  apply (profiles_never_removed empty_database sample_database
           sample_database_reachable).
Defined.

(** ** An UPDATE that leaves the key columns alone *)

Section KeyPreservingUpdate.
Context {row : Type}.
Variable rel : relation row.
Variable profs : list profiles.row.
Variable s : session.
Variable now : timestamptz.
Variable reads : bool.
Variable where_ : row -> bool.
Variable set_ : row -> row.
Hypothesis symmetric : symmetric_constraints rel.
Hypothesis keys_kept :
  forall same, In same (rel_unique rel) ->
  forall r x, same (rel_before_update rel now (set_ r)) x = same r x.
Hypothesis admitted :
  forall r, targeted rel profs s UPDATE reads where_ r = true ->
    check_ok rel profs s UPDATE (rel_before_update rel now (set_ r)) = true /\
    using_ok rel profs s SELECT (rel_before_update rel now (set_ r)) = true.

Lemma existsb_ext_in {A} (f g : A -> bool) l :
  (forall a, In a l -> f a = g a) -> existsb f l = existsb g l.
Proof.
  induction l as [|a l IH]; simpl; intros H; [reflexivity|].
  rewrite (H a) by auto. rewrite IH by auto. reflexivity.
Qed.

Lemma conflicts_new r l :
  conflicts rel (rel_before_update rel now (set_ r)) l = conflicts rel r l.
Proof.
  unfold conflicts. apply existsb_ext_in. intros x _.
  apply existsb_ext_in. intros same Hs. now apply keys_kept.
Qed.

Lemma conflicts_updated r l :
  conflicts rel r (map (update_row rel profs s now reads where_ set_) l)
  = conflicts rel r l.
Proof.
  induction l as [|x l IH]; [reflexivity|].
  simpl map.
  rewrite (conflicts_cons rel r _ (map _ l)), (conflicts_cons rel r x l), IH.
  f_equal.
  unfold update_row. destruct (targeted _ _ _ _ _ _ x); [|reflexivity].
  rewrite (conflicts_sym rel symmetric r), conflicts_new.
  apply (conflicts_sym rel symmetric).
Qed.

Lemma update_loop_applies todo :
  forall before,
    distinct_rows rel (before ++ todo) ->
    update_loop rel profs s now reads where_ set_
      (map (update_row rel profs s now reads where_ set_) before) todo
    = Ok (map (update_row rel profs s now reads where_ set_) (before ++ todo)).
Proof.
  induction todo as [|r rest IH]; simpl; intros before D.
  - now rewrite app_nil_r.
  - destruct (targeted rel profs s UPDATE reads where_ r) eqn:T.
    + destruct (admitted r T) as [C S]. rewrite C, S. simpl.
      rewrite andb_false_r.
      apply distinct_middle in D as [D C']; [|assumption].
      rewrite conflicts_new, conflicts_app, conflicts_updated.
      rewrite <- conflicts_app, C'.
      replace (map (update_row rel profs s now reads where_ set_) before
               ++ [rel_before_update rel now (set_ r)])
        with (map (update_row rel profs s now reads where_ set_) (before ++ [r])).
      * rewrite IH; rewrite <- app_assoc; [reflexivity|].
        simpl. apply distinct_middle; auto.
      * rewrite map_app. simpl. unfold update_row at 2. now rewrite T.
    + replace (map (update_row rel profs s now reads where_ set_) before ++ [r])
        with (map (update_row rel profs s now reads where_ set_) (before ++ [r])).
      * rewrite IH; rewrite <- app_assoc; [reflexivity | exact D].
      * rewrite map_app. simpl. unfold update_row at 2. now rewrite T.
Qed.

Lemma rls_update_applies rows :
  distinct_rows rel rows ->
  rls_update rel profs s now reads where_ set_ rows
  = Ok (map (update_row rel profs s now reads where_ set_) rows).
Proof. intros D. apply (update_loop_applies rows [] D). Qed.
End KeyPreservingUpdate.

(** ** Sharing an entry *)

Lemma share_keys_kept now V :
  forall same, In same (rel_unique journal_entries_rel) ->
  forall r x,
    same (rel_before_update journal_entries_rel now (share_with V r)) x
    = same r x.
Proof.
  intros same Hin r x. simpl in Hin.
  destruct Hin as [<- | [<- | []]]; reflexivity.
Qed.

Lemma share_admitted profs s now reads where_ V :
  forall r,
    targeted journal_entries_rel profs s UPDATE reads where_ r = true ->
    check_ok journal_entries_rel profs s UPDATE
      (rel_before_update journal_entries_rel now (share_with V r)) = true /\
    using_ok journal_entries_rel profs s SELECT
      (rel_before_update journal_entries_rel now (share_with V r)) = true.
Proof.
  intros r T. apply targeted_using in T.
  apply journal_entries_owner_only in T.
  split.
  - now apply journal_entries_owner_may.
  - apply journal_entries_select. now left.
Qed.

(** X10. Sharing round trip.  In a database the statements can produce,
    the owner's [UPDATE journal_entries SET shared_with =
    array_append(shared_with, V) WHERE id = ...] goes through, and
    afterwards a SELECT by V returns the entry: the row with its owner,
    date and content as before, V at the end of its allow-list and
    [updated_at] stamped. *)
Theorem share_then_read
    (fuel : nat) (src : random_source) (s : session) (now : timestamptz)
    (db : database) (e : journal_entries.row) (V : uuid) (role : text) :
  reachable db ->
  In e (db_journal_entries db) ->
  owns s (journal_entries.user_id e) ->
  exists db',
    exec fuel src s now
         (on_journal_entries
            (Update true
               (fun r => N.eqb (journal_entries.id r) (journal_entries.id e))
               (share_with V))) db
    = Some (db', None) /\
    In (journal_entries_touch now (share_with V e))
       (rls_select journal_entries_rel (db_profiles db')
          {| auth_uid := Some V; auth_role := role |}
          (db_journal_entries db')).
Proof.
  intros R Hin Hown.
  apply reachable_well_keyed in R as [_ [J _]].
  pose proof (rls_update_applies journal_entries_rel (db_profiles db) s now true
                (fun r => N.eqb (journal_entries.id r) (journal_entries.id e))
                (share_with V) journal_entries_symmetric
                (share_keys_kept now V)
                (share_admitted (db_profiles db) s now true _ V) _ J) as Done.
  eexists. split.
  { cbn [exec]. apply exec_on_done.
    - apply row_security_journal_entries.
    - exact Done.
    - apply references_kept. intros r. unfold update_row.
      now destruct (targeted _ _ _ _ _ _ _). }
  cbn [set_journal_entries db_profiles db_journal_entries].
  apply rls_select_In. split.
  - apply in_map_iff. exists e. split; [|assumption].
    unfold update_row.
    assert (T : targeted journal_entries_rel (db_profiles db) s UPDATE true
                  (fun r => N.eqb (journal_entries.id r) (journal_entries.id e))
                  e = true).
    { unfold targeted. rewrite N.eqb_refl. simpl.
      rewrite (proj2 (journal_entries_select _ s e) (or_introl Hown)).
      destruct (journal_entries_owner_may (db_profiles db) s e Hown)
        as [_ [U _]].
      now rewrite U. }
    rewrite T. reflexivity.
  - apply journal_entries_select. right.
    exists V. simpl.
    destruct (journal_entries.shared_with e) as [l|]; eexists;
      (split; [reflexivity|]); (split; [reflexivity|]).
    + apply in_or_app. right. simpl. auto.
    + simpl. auto.
Qed.

Lemma share_then_read_witness :
  reachable sample_database /\
  In (entry_of 10 alice 5 "home" None) (db_journal_entries sample_database) /\
  owns (signed_in alice) alice /\
  rls_select journal_entries_rel (db_profiles sample_database) (signed_in bob)
    (db_journal_entries sample_database) = [] /\
  exists db',
    exec 0 sample_source (signed_in alice) 7%Z
         (on_journal_entries
            (Update true (fun r => N.eqb (journal_entries.id r) 10)
               (share_with bob))) sample_database
    = Some (db', None) /\
    In (journal_entries_touch 7%Z (share_with bob (entry_of 10 alice 5 "home" None)))
       (rls_select journal_entries_rel (db_profiles db') (signed_in bob)
          (db_journal_entries db')).
Proof.
  assert (H1 : In (entry_of 10 alice 5 "home" None)
                  (db_journal_entries sample_database)) by (simpl; auto).
  assert (H2 : owns (signed_in alice)
                    (journal_entries.user_id (entry_of 10 alice 5 "home" None)))
    by reflexivity.
  split; [exact sample_database_reachable|]. split; [exact H1|].
  split; [exact H2|]. split; [reflexivity|].
  exact (share_then_read 0 sample_source (signed_in alice) 7%Z sample_database
           (entry_of 10 alice 5 "home" None) bob "authenticated"
           sample_database_reachable H1 H2).
Defined.

(** ** Naming a partner *)

Lemma partner_keys_kept now O :
  forall same, In same (rel_unique profiles_rel) ->
  forall r x,
    same (rel_before_update profiles_rel now (set_partner O r)) x = same r x.
Proof.
  intros same Hin r x. simpl in Hin.
  destruct Hin as [<- | [<- | [<- | []]]]; reflexivity.
Qed.

Lemma partner_admitted profs s now reads where_ O :
  forall r,
    targeted profiles_rel profs s UPDATE reads where_ r = true ->
    check_ok profiles_rel profs s UPDATE
      (rel_before_update profiles_rel now (set_partner O r)) = true /\
    using_ok profiles_rel profs s SELECT
      (rel_before_update profiles_rel now (set_partner O r)) = true.
Proof.
  intros r T. apply targeted_using in T.
  apply profiles_self_policies in T. unfold owns in T.
  split.
  - unfold check_ok; simpl. rewrite !orb_false_r. now apply uid_is_true.
  - apply profiles_select. exists (profiles.id r). simpl. auto.
Qed.

Lemma update_row_profile_id profs s now reads where_ O r :
  profiles.id (update_row profiles_rel profs s now reads where_ (set_partner O) r)
  = profiles.id r.
Proof. unfold update_row. now destruct (targeted _ _ _ _ _ _ r). Qed.

Lemma forallb_combine_map {A} (f : A * A -> bool) (g : A -> A) l :
  (forall a, In a l -> f (a, g a) = true) ->
  forallb f (combine l (map g l)) = true.
Proof.
  induction l as [|a l IH]; intros H; [reflexivity|].
  cbn [map combine forallb]. rewrite (H a) by (left; reflexivity).
  apply IH. intros x Hx. apply H. now right.
Qed.

Lemma in_ids rows (q : profiles.row) ids :
  In q rows -> map profiles.id rows = ids ->
  existsb (N.eqb (profiles.id q)) ids = true.
Proof.
  intros Hq <-. apply existsb_exists. exists (profiles.id q).
  split; [now apply in_map | apply N.eqb_refl].
Qed.

(** X11. Naming a partner grants no read.  In a database the statements
    can produce, the session of profile [p] names the profile [q] as its
    partner.  With a WHERE clause on the id the UPDATE is refused by the
    rewriter, for the SELECT policy of profiles is added to it, and
    nothing changes.  Without a WHERE clause, [UPDATE profiles SET
    partner_id = O], the UPDATE goes through: the row of [p] gets the
    partner and the time stamp, every other row stays as it is, and [q]
    takes no part.  Afterwards the session reads neither [q]'s profile
    nor [q]'s audio objects: every SELECT on profiles and on the objects
    is refused as before. *)
Theorem naming_a_partner_grants_no_read
    (fuel : nat) (src : random_source) (s : session) (now : timestamptz)
    (db : database) (p q : profiles.row) :
  reachable db ->
  In p (db_profiles db) ->
  In q (db_profiles db) ->
  owns s (profiles.id p) ->
  exec fuel src s now
       (on_profiles
          (Update true
             (fun r => N.eqb (profiles.id r) (profiles.id p))
             (set_partner (profiles.id q)))) db
    = Some (db, Some infinite_recursion) /\
  exists db',
    exec fuel src s now
         (on_profiles (Update false (fun _ => true) (set_partner (profiles.id q))))
         db
    = Some (db', None) /\
    db_profiles db'
    = map (fun r => if N.eqb (profiles.id p) (profiles.id r)
                    then profiles_touch now (set_partner (profiles.id q) r)
                    else r)
          (db_profiles db) /\
    select_from profiles_rel (db_profiles db') s (db_profiles db')
      = Some (Err infinite_recursion) /\
    (forall uuid_text storage_foldername objects,
        select_from (storage_objects_rel uuid_text storage_foldername)
                    (db_profiles db') s objects
          = Some (Err infinite_recursion)).
Proof.
  intros R Hp Hq Hown.
  apply reachable_well_keyed in R as [P _].
  split; [now apply exec_profiles_reads|].
  set (upd := update_row profiles_rel (db_profiles db) s now false
                (fun _ => true) (set_partner (profiles.id q))).
  assert (Ids : map profiles.id (map upd (db_profiles db))
                = map profiles.id (db_profiles db)).
  { rewrite map_map. apply map_ext. intros r. apply update_row_profile_id. }
  exists (set_profiles db (map upd (db_profiles db))).
  split; [|split; [|split; [reflexivity | reflexivity]]].
  - cbn [exec]. unfold exec_profiles.
    rewrite row_security_profiles. cbn [op_reads op_command orb command_eqb].
    rewrite (rls_update_applies profiles_rel (db_profiles db) s now false
               (fun _ => true) (set_partner (profiles.id q)) profiles_symmetric
               (partner_keys_kept now (profiles.id q))
               (partner_admitted (db_profiles db) s now false _ (profiles.id q))
               _ P).
    fold upd. rewrite (no_id_lost _ _ db Ids), (ids_known_kept _ _ _ Ids).
    assert (F : references_hold profiles_rel
                  (map profiles.id (map upd (db_profiles db)))
                  (Update false (fun _ => true) (set_partner (profiles.id q)))
                  (db_profiles db) (map upd (db_profiles db)) = true).
    { pose proof (in_ids _ q _ Hq (eq_sym Ids)) as Q.
      set (ids := map profiles.id (map upd (db_profiles db))) in *.
      clearbody ids.
      cbn [references_hold]. apply forallb_combine_map. intros r _.
      cbn [fst snd rel_references profiles_rel combine forallb].
      rewrite andb_true_r. unfold upd, update_row.
      destruct (targeted _ _ _ _ _ _ r).
      - cbn [rel_before_update profiles_rel profiles_touch set_partner
             profiles.partner_id refers_to].
        rewrite Q. apply orb_true_r.
      - now rewrite same_reference_refl. }
    rewrite F. reflexivity.
  - cbn [set_profiles db_profiles]. apply map_ext. intros r.
    unfold upd, update_row, targeted, using_ok. simpl.
    unfold uid_is. unfold owns in Hown. rewrite Hown.
    unfold sql_eq, is_true. rewrite orb_false_r.
    now destruct (N.eqb (profiles.id p) (profiles.id r)).
Qed.

Lemma naming_a_partner_grants_no_read_witness :
  reachable sample_database /\
  exec 0 sample_source (signed_in bob) 7%Z
       (on_profiles
          (Update true (fun r => N.eqb (profiles.id r) bob) (set_partner alice)))
       sample_database
    = Some (sample_database, Some infinite_recursion) /\
  exists db',
    exec 0 sample_source (signed_in bob) 7%Z
         (on_profiles (Update false (fun _ => true) (set_partner alice)))
         sample_database
    = Some (db', None) /\
    map profiles.partner_id (db_profiles db') = [None; Some alice] /\
    select_from profiles_rel (db_profiles db') (signed_in bob) (db_profiles db')
      = Some (Err infinite_recursion).
Proof.
  split; [exact sample_database_reachable|].
  destruct (naming_a_partner_grants_no_read 0 sample_source (signed_in bob) 7%Z
              sample_database
              (with_invite_code (new_profile bob "b@x" None 0%Z) (Some "SSSSSSSS"))
              (with_invite_code (new_profile alice "a@x" None 0%Z) (Some "AAAAAAAA"))
              sample_database_reachable)
    as [Refused [db' [E [Rows [Sel _]]]]].
  - simpl. auto.
  - simpl. auto.
  - reflexivity.
  - split; [exact Refused|]. exists db'. split; [exact E|].
    split; [rewrite Rows; reflexivity | exact Sel].
Defined.

(** ** When an INSERT is accepted *)

Lemma journal_conflicts_iff e rows :
  conflicts journal_entries_rel e rows = true <->
  exists r, In r rows /\
            (journal_entries.id r = journal_entries.id e \/
             journal_key r = journal_key e).
Proof.
  unfold conflicts. rewrite existsb_exists. split.
  - intros [r [Hr T]]. exists r. split; [assumption|].
    simpl in T. rewrite orb_false_r in T. apply orb_true_iff in T as [T | T].
    + left. apply N.eqb_eq in T. auto.
    + right. apply journal_same_key in T. auto.
  - intros [r [Hr H]]. exists r. split; [assumption|].
    simpl. rewrite orb_false_r. apply orb_true_iff.
    destruct H as [H | H]; [left | right].
    + rewrite H. apply N.eqb_refl.
    + now apply journal_same_key.
Qed.

(** X12. An INSERT of a journal entry by its owner is accepted exactly
    when no existing entry has its id or its (owner, date) pair and the
    owner has a profile; it then adds the row as given at the end of the
    table, and the owner's SELECT returns it.  When an existing entry has
    the id or the pair the owner gets the unique-key conflict, and
    otherwise, without a profile, the foreign-key violation; the table
    stays as it is in both. *)
Theorem owner_insert_accepted_iff
    (fuel : nat) (src : random_source) (s : session) (now : timestamptz)
    (db : database) (returning : bool) (e : journal_entries.row) :
  owns s (journal_entries.user_id e) ->
  let st := on_journal_entries (Insert returning e) in
  let taken :=
    exists r, In r (db_journal_entries db) /\
              (journal_entries.id r = journal_entries.id e \/
               journal_key r = journal_key e) in
  let known := In (journal_entries.user_id e) (map profiles.id (db_profiles db)) in
  (exec fuel src s now st db
     = Some (set_journal_entries db (db_journal_entries db ++ [e]), None)
   <-> ~ taken /\ known) /\
  (exec fuel src s now st db = Some (db, Some unique_violation) <-> taken) /\
  (exec fuel src s now st db = Some (db, Some foreign_key_violation)
   <-> ~ taken /\ ~ known) /\
  In e (rls_select journal_entries_rel (db_profiles db) s
          (db_journal_entries db ++ [e])).
Proof.
  intros Hown st taken known. unfold st.
  assert (C : check_ok journal_entries_rel (db_profiles db) s INSERT e = true)
    by now apply journal_entries_owner_may.
  assert (S : using_ok journal_entries_rel (db_profiles db) s SELECT e = true)
    by (apply journal_entries_select; now left).
  assert (Kn : existsb (N.eqb (journal_entries.user_id e))
                       (map profiles.id (db_profiles db)) = true <-> known).
  { unfold known. rewrite existsb_exists. split.
    - intros [u [Hu E]]. apply N.eqb_eq in E. now subst u.
    - intros H. eexists. split; [exact H | apply N.eqb_refl]. }
  pose proof (journal_conflicts_iff e (db_journal_entries db)) as K.
  fold taken in K.
  assert (E : exec fuel src s now (on_journal_entries (Insert returning e)) db
              = Some (if conflicts journal_entries_rel e (db_journal_entries db)
                      then (db, Some unique_violation)
                      else if existsb (N.eqb (journal_entries.user_id e))
                                      (map profiles.id (db_profiles db))
                           then (set_journal_entries db
                                   (db_journal_entries db ++ [e]), None)
                           else (db, Some foreign_key_violation))).
  { cbn [exec]. unfold exec_on, run_statement.
    rewrite row_security_journal_entries. cbn [run_op]. unfold rls_insert.
    rewrite C, S. cbn [negb]. rewrite andb_false_r.
    destruct (conflicts _ _ _); [reflexivity|].
    unfold checked. cbn [references_hold rel_references journal_entries_rel
                         forallb refers_to].
    rewrite andb_true_r. now destruct (existsb _ _). }
  rewrite E. clear E.
  split; [|split; [|split]].
  - destruct (conflicts _ _ _).
    + split; [discriminate|]. intros [N _]. exfalso. apply N, K. reflexivity.
    + destruct (existsb _ _).
      * split; [|reflexivity]. intros _. split; [|now apply Kn].
        intros T. apply K in T. discriminate.
      * split; [discriminate|]. intros [_ Y]. apply Kn in Y. discriminate.
  - destruct (conflicts _ _ _).
    + split; [|reflexivity]. intros _. now apply K.
    + split.
      * destruct (existsb _ _); discriminate.
      * intros T. apply K in T. discriminate.
  - destruct (conflicts _ _ _).
    + split; [discriminate|]. intros [N _]. exfalso. apply N, K. reflexivity.
    + destruct (existsb _ _).
      * split; [discriminate|]. intros [_ N]. exfalso. apply N, Kn. reflexivity.
      * split; [|reflexivity]. intros _. split.
        -- intros T. apply K in T. discriminate.
        -- intros Y. apply Kn in Y. discriminate.
  - apply rls_select_In. split; [|exact S].
    apply in_or_app. right. simpl. auto.
Qed.

Lemma owner_insert_accepted_iff_witness :
  owns (signed_in alice) alice /\
  exec 0 sample_source (signed_in alice) 2%Z
       (on_journal_entries (Insert true (entry_of 11 alice 6 "next day" None)))
       sample_database
    = Some (set_journal_entries sample_database
              (db_journal_entries sample_database
               ++ [entry_of 11 alice 6 "next day" None]), None) /\
  exec 0 sample_source (signed_in carol) 2%Z
       (on_journal_entries (Insert true (entry_of 12 carol 6 "no profile" None)))
       sample_database
    = Some (sample_database, Some foreign_key_violation).
Proof.
  assert (Ha : owns (signed_in alice)
                 (journal_entries.user_id (entry_of 11 alice 6 "next day" None)))
    by reflexivity.
  assert (Hc : owns (signed_in carol)
                 (journal_entries.user_id (entry_of 12 carol 6 "no profile" None)))
    by reflexivity.
  split; [exact Ha|]. split.
  - apply (owner_insert_accepted_iff 0 sample_source (signed_in alice) 2%Z
             sample_database true (entry_of 11 alice 6 "next day" None) Ha).
    split.
    + intros [r [[<- | []] [H | H]]]; discriminate.
    + simpl. auto.
  - apply (owner_insert_accepted_iff 0 sample_source (signed_in carol) 2%Z
             sample_database true (entry_of 12 carol 6 "no profile" None) Hc).
    split.
    + intros [r [[<- | []] [H | H]]]; discriminate.
    + simpl. intros [H | [H | []]]; discriminate.
Defined.

(** ** Sign-up and supplied invite codes *)

Lemma profiles_conflicts_iff r profs :
  conflicts profiles_rel r profs = true <->
  exists p, In p profs /\
            (profiles.id p = profiles.id r \/
             profiles.email p = profiles.email r \/
             exists c, profiles.invite_code r = Some c /\
                       profiles.invite_code p = Some c).
Proof.
  unfold conflicts. rewrite existsb_exists. split.
  - intros [p [Hp T]]. exists p. split; [assumption|].
    simpl in T. rewrite orb_false_r in T.
    apply orb_true_iff in T as [T | T]; [|apply orb_true_iff in T as [T | T]].
    + left. apply N.eqb_eq in T. auto.
    + right. left. apply String.eqb_eq in T. auto.
    + right. right. unfold opt_same in T.
      apply is_true_eq_string in T as [c [H1 H2]]. eauto.
  - intros [p [Hp H]]. exists p. split; [assumption|].
    simpl. rewrite orb_false_r, !orb_true_iff.
    destruct H as [H | [H | [c [H1 H2]]]].
    + left. rewrite H. apply N.eqb_refl.
    + right. left. rewrite H. apply String.eqb_refl.
    + right. right. unfold opt_same. apply is_true_eq_string. eauto.
Qed.

Lemma set_invite_code_free fuel src visible NEW pos r pos' :
  profiles.invite_code NEW = None ->
  set_invite_code fuel src (Ok visible) NEW pos = Some (r, pos') ->
  exists code,
    r = Ok (with_invite_code NEW (Some code)) /\
    forall p, In p visible -> profiles.invite_code p <> Some code.
Proof.
  intros Hnull. unfold set_invite_code. rewrite Hnull, generate_invite_code_eq.
  destruct (ensure_unique _ _ _ _ _) as [[code p'']|] eqn:E; [|discriminate].
  intros H. injection H as <- <-.
  apply ensure_unique_sound in E as [F _].
  exists code. split; [reflexivity|]. now apply code_exists_false.
Qed.

(** X13. Sign-up.  When [handle_new_user] returns, it has failed exactly
    when a profile with the new user's id or email exists already, and
    then with the unique-key conflict; the invite code the trigger
    assigned is never the reason, whatever [random()] returned. *)
Theorem sign_up_fails_iff_taken
    (fuel : nat) (src : random_source) (profs : list profiles.row)
    (uid : uuid) (mail : text) (name : option text) (now : timestamptz)
    (pos pos' : nat) (r : result (list profiles.row)) :
  handle_new_user fuel src profs uid mail name now pos = Some (r, pos') ->
  (r = Err unique_violation <->
   exists p, In p profs /\ (profiles.id p = uid \/ profiles.email p = mail)) /\
  (forall e, r = Err e -> e = unique_violation) /\
  (forall rows, r = Ok rows ->
     exists NEW, rows = profs ++ [NEW] /\ profiles.id NEW = uid /\
                 profiles.email NEW = mail /\ profiles.full_name NEW = name /\
                 profiles.partner_id NEW = None).
Proof.
  unfold handle_new_user.
  destruct (set_invite_code _ _ _ _ _) as [[NEW p'']|] eqn:E; [|discriminate].
  apply set_invite_code_free in E as [code [-> F]]; [|reflexivity].
  cbv iota beta.
  pose proof (profiles_conflicts_iff
                (with_invite_code (new_profile uid mail name now) (Some code))
                profs) as K.
  simpl in K.
  destruct (conflicts profiles_rel _ profs) eqn:X; intros H;
    injection H as <- <-.
  - split; [|split].
    + split; [intros _|reflexivity].
      destruct (proj1 K eq_refl) as [p [Hp [H | [H | [c [H1 H2]]]]]]; eauto.
      injection H1 as <-. now destruct (F p Hp).
    + intros e H. now injection H as <-.
    + discriminate.
  - split; [|split].
    + split; [discriminate|]. intros [p [Hp H]].
      assert (false = true); [|discriminate].
      apply K. exists p. tauto.
    + discriminate.
    + intros rows H. injection H as <-. eexists. repeat split.
Qed.

Lemma sign_up_fails_iff_taken_witness :
  handle_new_user 0 sample_source
    [with_invite_code (new_profile alice "a@x" None 0%Z) (Some "AAAAAAAA")]
    carol "a@x" None 3%Z 8
  = Some (Err unique_violation, 16) /\
  exists p,
    In p [with_invite_code (new_profile alice "a@x" None 0%Z) (Some "AAAAAAAA")] /\
    (profiles.id p = carol \/ profiles.email p = "a@x").
Proof.
  assert (H : handle_new_user 0 sample_source
                [with_invite_code (new_profile alice "a@x" None 0%Z)
                                  (Some "AAAAAAAA")]
                carol "a@x" None 3%Z 8 = Some (Err unique_violation, 16))
    by (vm_compute; reflexivity).
  split; [exact H|].
  now apply (sign_up_fails_iff_taken _ _ _ _ _ _ _ _ _ _ H).
Defined.

(** * Further properties of the client *)

(** ** The fetches *)

(** X14. The fetches [JournalApp] starts when it mounts: whatever the
    backend answers, exactly the stats and the calendar request are
    issued, in that order, and no alert is shown; each of [stats] and
    [calendarData] becomes the data of its response when that is
    fulfilled and keeps its value when it is rejected, independently of
    the other; nothing else of the state changes. *)
Theorem mount_fetches_fail_silently
    (BACKEND_URL currentMonth : jsstring)
    (backend : list request -> request -> response)
    (seen : list request) (c : client) :
  let res := run backend seen (JournalApp_mount BACKEND_URL currentMonth c) in
  requests_of (snd res)
    = [stats_request BACKEND_URL; calendar_request BACKEND_URL currentMonth] /\
  alerts_of (snd res) = [] /\
  stats (fst res)
    = match backend seen (stats_request BACKEND_URL) with
      | Fulfilled data => data
      | Rejected _ => stats c
      end /\
  calendarData (fst res)
    = match backend (seen ++ [stats_request BACKEND_URL])
                    (calendar_request BACKEND_URL currentMonth) with
      | Fulfilled data => data
      | Rejected _ => calendarData c
      end /\
  journalEntry (fst res) = journalEntry c /\
  selectedMood (fst res) = selectedMood c /\
  selectedDate (fst res) = selectedDate c /\
  inviteCode (fst res) = inviteCode c /\
  showInviteModal (fst res) = showInviteModal c /\
  currentView (fst res) = currentView c.
Proof.
  unfold JournalApp_mount. cbn [run].
  destruct (backend seen (stats_request BACKEND_URL)) as [d1|e1];
    destruct (backend (seen ++ [stats_request BACKEND_URL])
                      (calendar_request BACKEND_URL currentMonth)) as [d2|e2];
    cbn; repeat split.
Qed.

(** ** The handlers, whatever the backend answers *)

(** X15. [saveJournalEntry] with a text that is not blank shows exactly
    one alert whatever the backend answers; the text and the mood are
    cleared only when the journal POST, and the mood POST if a mood is
    selected, were fulfilled, and are otherwise left as typed; the date,
    the invite code, the modal and the view never change. *)
Theorem save_shows_one_alert_and_clears_on_success
    (BACKEND_URL currentMonth : jsstring)
    (backend : list request -> request -> response)
    (seen : list request) (c : client) :
  truthy (trim (journalEntry c)) = true ->
  let res := run backend seen (saveJournalEntry BACKEND_URL currentMonth c) in
  let saved :=
    match backend seen (journal_request BACKEND_URL c) with
    | Rejected _ => false
    | Fulfilled _ =>
        if truthy (selectedMood c)
        then match backend (seen ++ [journal_request BACKEND_URL c])
                           (mood_request BACKEND_URL c) with
             | Fulfilled _ => true
             | Rejected _ => false
             end
        else true
    end in
  List.length (alerts_of (snd res)) = 1 /\
  alerts_of (snd res)
    = [if saved then js "Entry saved successfully!" else js "Failed to save entry"] /\
  journalEntry (fst res) = (if saved then [] else journalEntry c) /\
  selectedMood (fst res) = (if saved then [] else selectedMood c) /\
  (saved = false -> fst res = c) /\
  selectedDate (fst res) = selectedDate c /\
  inviteCode (fst res) = inviteCode c /\
  showInviteModal (fst res) = showInviteModal c /\
  currentView (fst res) = currentView c.
Proof.
  intros T. unfold saveJournalEntry. rewrite T. cbn [negb run].
  destruct (backend seen (journal_request BACKEND_URL c)) as [d1|e1].
  - destruct (truthy (selectedMood c)) eqn:M.
    + cbn [run].
      destruct (backend (seen ++ [journal_request BACKEND_URL c])
                        (mood_request BACKEND_URL c)) as [d2|e2].
      * unfold save_succeeded. cbn [run].
        destruct (backend _ (stats_request BACKEND_URL)) as [d3|e3];
          destruct (backend _ (calendar_request BACKEND_URL currentMonth))
            as [d4|e4];
          cbn; repeat split; discriminate.
      * cbn. repeat split.
    + unfold save_succeeded. cbn [run].
      destruct (backend _ (stats_request BACKEND_URL)) as [d3|e3];
        destruct (backend _ (calendar_request BACKEND_URL currentMonth))
          as [d4|e4];
        cbn; repeat split; discriminate.
  - cbn. repeat split.
Qed.

Lemma save_shows_one_alert_and_clears_on_success_witness :
  truthy (trim (journalEntry sample_client)) = true /\
  alerts_of (snd (run mood_taken_backend []
                      (saveJournalEntry sample_url (js "2024-01") sample_client)))
    = [js "Failed to save entry"] /\
  journalEntry (fst (run mood_taken_backend []
                         (saveJournalEntry sample_url (js "2024-01") sample_client)))
    = journalEntry sample_client.
Proof.
  assert (T : truthy (trim (journalEntry sample_client)) = true) by reflexivity.
  split; [exact T|].
  destruct (save_shows_one_alert_and_clears_on_success
              sample_url (js "2024-01") mood_taken_backend [] sample_client T)
    as [_ [A [J _]]].
  split; [exact A | exact J].
Defined.

(** X16. [generateReflection] shows exactly one alert whatever the backend
    answers; it changes nothing of the state but [calendarData], and that
    only when both its POST and the calendar fetch after it were
    fulfilled; a rejected POST is not followed by any other request. *)
Theorem reflection_shows_one_alert
    (BACKEND_URL currentMonth date_ : jsstring)
    (backend : list request -> request -> response)
    (seen : list request) (c : client) :
  let rq := axios_post (API BACKEND_URL ++ js "/generate-reflection/" ++ date_)
                       None in
  let res := run backend seen
                 (generateReflection BACKEND_URL currentMonth date_ c) in
  List.length (alerts_of (snd res)) = 1 /\
  fst res
    = match backend seen rq with
      | Rejected _ => c
      | Fulfilled _ =>
          match backend (seen ++ [rq])
                        (calendar_request BACKEND_URL currentMonth) with
          | Fulfilled data => setCalendarData data c
          | Rejected _ => c
          end
      end /\
  requests_of (snd res)
    = match backend seen rq with
      | Rejected _ => [rq]
      | Fulfilled _ => [rq; calendar_request BACKEND_URL currentMonth]
      end.
Proof.
  unfold generateReflection. cbn [run].
  destruct (backend seen _) as [d1|e1].
  - cbn [run].
    destruct (backend _ (calendar_request BACKEND_URL currentMonth)) as [d2|e2];
      cbn; repeat split.
  - cbn. repeat split.
Qed.


(** ** Signing in and out *)

Lemma detail_or_truthy d fallback :
  truthy fallback = true -> truthy (detail_or d fallback) = true.
Proof.
  intros F. unfold detail_or. destruct d as [x|]; [|exact F].
  destruct (truthy x) eqn:E; [exact E | exact F].
Qed.

(** X18. A sign-in that fails, because the backend rejects the request or
    answers with a null body, leaves the provider's state exactly as it
    was (user, token, stored token and Authorization header), issues no
    request besides its POST, and returns a message that is never empty:
    the rejection's detail when it has a non-empty one, and otherwise
    "Login failed" for [login] and "Registration failed" for [register]. *)
Theorem failed_sign_in_changes_nothing
    (BACKEND_URL email password name : jsstring)
    (backend : list request -> request -> response)
    (seen : list request) (a : Auth.state) :
  (forall detail,
      backend seen (Auth.login_request BACKEND_URL email password)
        = Rejected detail ->
      run backend seen (Auth.login BACKEND_URL email password a)
      = ((a, Auth.failure (detail_or detail (js "Login failed"))),
         [Requested (Auth.login_request BACKEND_URL email password)]) /\
      truthy (detail_or detail (js "Login failed")) = true) /\
  (backend seen (Auth.login_request BACKEND_URL email password)
     = Fulfilled JNull ->
   run backend seen (Auth.login BACKEND_URL email password a)
   = ((a, Auth.failure (js "Login failed")),
      [Requested (Auth.login_request BACKEND_URL email password)])) /\
  (forall detail,
      backend seen (Auth.register_request BACKEND_URL email password name)
        = Rejected detail ->
      run backend seen (Auth.register BACKEND_URL email password name a)
      = ((a, Auth.failure (detail_or detail (js "Registration failed"))),
         [Requested (Auth.register_request BACKEND_URL email password name)]) /\
      truthy (detail_or detail (js "Registration failed")) = true) /\
  (backend seen (Auth.register_request BACKEND_URL email password name)
     = Fulfilled JNull ->
   run backend seen (Auth.register BACKEND_URL email password name a)
   = ((a, Auth.failure (js "Registration failed")),
      [Requested (Auth.register_request BACKEND_URL email password name)])).
Proof.
  split; [|split; [|split]].
  - intros detail R. unfold Auth.login, Auth.sign_in. cbn [run]. rewrite R.
    split; [reflexivity|]. now apply detail_or_truthy.
  - intros R. unfold Auth.login, Auth.sign_in. cbn [run]. rewrite R.
    reflexivity.
  - intros detail R. unfold Auth.register, Auth.sign_in. cbn [run]. rewrite R.
    split; [reflexivity|]. now apply detail_or_truthy.
  - intros R. unfold Auth.register, Auth.sign_in. cbn [run]. rewrite R.
    reflexivity.
Qed.

(** X19. [logout], from any state and whatever the backend would answer:
    no request is issued, and afterwards nobody is signed in: the user and
    the token are null, the stored token is removed and the Authorization
    header deleted. *)
Theorem logout_signs_out
    (BACKEND_URL : jsstring)
    (backend : list request -> request -> response)
    (seen : list request) (a : Auth.state) :
  Auth.signed_out (fst (run backend seen (Auth.logout_flow BACKEND_URL a))) /\
  snd (run backend seen (Auth.logout_flow BACKEND_URL a)) = [].
Proof.
  unfold Auth.logout_flow, Auth.after_setToken, Auth.token_effect.
  destruct (Object_is (Auth.token a) (Auth.token (Auth.logout a)));
    cbn; repeat split.
Qed.

Lemma run_returning_success backend (p : prog Auth.state) :
  forall seen,
    run backend seen (Auth.returning_success p)
    = ((fst (run backend seen p), Auth.success), snd (run backend seen p)).
Proof.
  induction p as [a | rq k IH | e k IH]; intros seen; cbn [Auth.returning_success run].
  - reflexivity.
  - rewrite IH. now destruct (run backend (seen ++ [rq]) (k (backend seen rq))).
  - rewrite IH. now destruct (run backend seen k).
Qed.

(** X20. A sign-in that succeeds is followed by [GET /me], because the
    token changed.  With a login answer that carries a non-empty string
    token [t] different from the token held: when [GET /me] is fulfilled,
    the user is its answer (not the user of the login answer), the token,
    the stored token and the header are those of [t], and loading is off;
    when [GET /me] is rejected, nobody is signed in afterwards although
    [login] reported success. *)
Theorem login_then_fetch_user
    (BACKEND_URL email password : jsstring)
    (backend : list request -> request -> response)
    (seen : list request) (a : Auth.state) (data : json) (t : jsstring) :
  backend seen (Auth.login_request BACKEND_URL email password) = Fulfilled data ->
  get_field (js "token") data = Some (JString t) ->
  truthy t = true ->
  Object_is (Auth.token a) (Some (JString t)) = false ->
  let rq := Auth.login_request BACKEND_URL email password in
  let res := run backend seen (Auth.login BACKEND_URL email password a) in
  (forall u,
      backend (seen ++ [rq]) (Auth.me_request BACKEND_URL) = Fulfilled u ->
      res = (({| Auth.user := Some u;
                 Auth.token := Some (JString t);
                 Auth.loading := false;
                 Auth.stored_token := Some t;
                 Auth.Authorization := Some (js "Bearer " ++ t) |},
              Auth.success),
             [Requested rq; Requested (Auth.me_request BACKEND_URL)])) /\
  (forall d,
      backend (seen ++ [rq]) (Auth.me_request BACKEND_URL) = Rejected d ->
      snd (fst res) = Auth.success /\
      Auth.signed_out (fst (fst res)) /\
      Auth.loading (fst (fst res)) = false /\
      snd res = [ Requested rq; Requested (Auth.me_request BACKEND_URL);
                  Effect (ConsoleError (js "Failed to fetch user:")) ]).
Proof.
  intros R Tk Tt Ch. cbv zeta.
  unfold Auth.login, Auth.sign_in. cbn [run]. rewrite R.
  assert (E : Auth.signed_in data a
              = {| Auth.user := get_field (js "user") data;
                   Auth.token := Some (JString t);
                   Auth.loading := Auth.loading a;
                   Auth.stored_token := Some t;
                   Auth.Authorization := Some (js "Bearer " ++ t) |}).
  { unfold Auth.signed_in. rewrite Tk. reflexivity. }
  destruct data as [| | | | |fields]; try discriminate.
  rewrite run_returning_success, E.
  unfold Auth.after_setToken. cbn [Auth.token]. rewrite Ch.
  unfold Auth.token_effect. cbn [Auth.token truthy_value]. rewrite Tt.
  unfold Auth.fetchUser. cbn [run].
  split.
  - intros u Ru. rewrite Ru. reflexivity.
  - intros d Rd. rewrite Rd. cbn. repeat split.
Qed.

Lemma login_then_fetch_user_witness :
  login_only_backend [] (Auth.login_request sample_url (js "a@x") (js "pw"))
    = Fulfilled sample_session_data /\
  Auth.signed_out
    (fst (fst (run login_only_backend []
                   (Auth.login sample_url (js "a@x") (js "pw") sample_auth)))) /\
  snd (fst (run login_only_backend []
                (Auth.login sample_url (js "a@x") (js "pw") sample_auth)))
    = Auth.success.
Proof.
  assert (R : login_only_backend []
                (Auth.login_request sample_url (js "a@x") (js "pw"))
              = Fulfilled sample_session_data) by reflexivity.
  split; [exact R|].
  destruct (login_then_fetch_user sample_url (js "a@x") (js "pw")
              login_only_backend [] sample_auth sample_session_data (js "t1")
              R eq_refl eq_refl eq_refl) as [_ Rej].
  destruct (Rej None eq_refl) as [S [O _]].
  split; [exact O | exact S].
Defined.

Lemma token_effect_coherent BACKEND_URL backend seen a :
  (forall h, Auth.Authorization a = Some h ->
             Auth.stored_token a = Some (String_ (Auth.token a))) ->
  (truthy_value (Auth.token a) = true ->
   Auth.stored_token a = Some (String_ (Auth.token a))) ->
  (truthy_value (Auth.token a) = false -> Auth.coherent a) ->
  Auth.coherent (fst (run backend seen (Auth.token_effect BACKEND_URL a))).
Proof.
  intros Hs Ht Hf. unfold Auth.token_effect.
  destruct (truthy_value (Auth.token a)) eqn:T.
  - unfold Auth.fetchUser. cbn [run].
    destruct (backend seen (Auth.me_request BACKEND_URL)) as [u|d]; cbn.
    + intros h H. cbn in H. injection H as <-. cbn. auto.
    + intros h H. discriminate.
  - cbn. intros h H. cbn in H. destruct (Hf eq_refl h H). auto.
Qed.

Lemma sign_in_coherent BACKEND_URL rq fallback backend seen a :
  Auth.coherent a ->
  Auth.coherent
    (fst (fst (run backend seen (Auth.sign_in BACKEND_URL rq fallback a)))).
Proof.
  intros C. unfold Auth.sign_in. cbn [run].
  assert (New : forall data, Auth.coherent (Auth.signed_in data a)).
  { intros data h H. cbn in H. injection H as <-. cbn. auto. }
  assert (Ok : forall data,
            Auth.coherent
              (fst (run backend (seen ++ [rq])
                        (Auth.after_setToken BACKEND_URL a
                           (Auth.signed_in data a))))).
  { intros data. unfold Auth.after_setToken.
    destruct (Object_is _ _); [cbn; apply New|].
    apply token_effect_coherent.
    - intros h _. reflexivity.
    - intros _. reflexivity.
    - intros _. apply New. }
  destruct (backend seen rq) as [data|d]; [|exact C].
  destruct data; try exact C;
    rewrite run_returning_success; cbn [fst]; apply Ok.
Qed.

Lemma logout_signs_out_helper BACKEND_URL backend seen a :
  Auth.signed_out (fst (run backend seen (Auth.logout_flow BACKEND_URL a))).
Proof.
  unfold Auth.logout_flow, Auth.after_setToken, Auth.token_effect.
  destruct (Object_is (Auth.token a) (Auth.token (Auth.logout a)));
    cbn; repeat split.
Qed.

(** X21. The Authorization header never goes stale: starting from a state
    in which the header, if there is one, is "Bearer " followed by the
    token held and storage holds that same token, this is again so after
    [login], [register] and [logout], whatever the backend answers; and it
    is so once the provider has mounted, whatever was in storage. *)
Theorem authorization_header_follows_token
    (BACKEND_URL email password name : jsstring)
    (backend : list request -> request -> response)
    (seen : list request) :
  (forall a,
      Auth.coherent a ->
      Auth.coherent
        (fst (fst (run backend seen (Auth.login BACKEND_URL email password a)))) /\
      Auth.coherent
        (fst (fst (run backend seen
                       (Auth.register BACKEND_URL email password name a)))) /\
      Auth.coherent (fst (run backend seen (Auth.logout_flow BACKEND_URL a)))) /\
  (forall stored,
      Auth.coherent (fst (run backend seen (Auth.mount BACKEND_URL stored)))).
Proof.
  split.
  - intros a C. split; [|split].
    + now apply sign_in_coherent.
    + now apply sign_in_coherent.
    + destruct (logout_signs_out_helper BACKEND_URL backend seen a) as [_ [_ [_ H]]].
      intros h Hh. rewrite H in Hh. discriminate.
  - intros stored. unfold Auth.mount. apply token_effect_coherent.
    + cbn. discriminate.
    + cbn. destruct stored as [t|]; [reflexivity | discriminate].
    + intros _ h H. cbn in H. discriminate.
Qed.

(** X22. What the provider shows once it has mounted.  With nothing in
    storage, or an empty string, no request is issued and the sign-in form
    is shown.  With a non-empty stored token [t], [GET /me] is the one
    request issued: when it is fulfilled the user is its answer, the header
    is "Bearer " followed by [t], and the journal is shown if that answer
    is truthy; when it is rejected the stored token is removed, the header
    deleted and the sign-in form shown. *)
Theorem provider_mount_screen
    (BACKEND_URL : jsstring)
    (backend : list request -> request -> response)
    (seen : list request) :
  (forall stored,
      stored = None \/ stored = Some [] ->
      snd (run backend seen (Auth.mount BACKEND_URL stored)) = [] /\
      AuthFlow (fst (run backend seen (Auth.mount BACKEND_URL stored)))
        = AuthForm_screen /\
      Auth.stored_token (fst (run backend seen (Auth.mount BACKEND_URL stored)))
        = stored) /\
  (forall t,
      truthy t = true ->
      let res := run backend seen (Auth.mount BACKEND_URL (Some t)) in
      requests_of (snd res) = [Auth.me_request BACKEND_URL] /\
      (forall u,
          backend seen (Auth.me_request BACKEND_URL) = Fulfilled u ->
          Auth.user (fst res) = Some u /\
          Auth.Authorization (fst res) = Some (js "Bearer " ++ t) /\
          Auth.stored_token (fst res) = Some t /\
          AuthFlow (fst res)
            = (if truthy_value (Some u) then JournalApp_screen
               else AuthForm_screen)) /\
      (forall d,
          backend seen (Auth.me_request BACKEND_URL) = Rejected d ->
          Auth.signed_out (fst res) /\ AuthFlow (fst res) = AuthForm_screen)).
Proof.
  split.
  - intros stored [-> | ->]; cbn; repeat split.
  - intros t T. cbv zeta.
    unfold Auth.mount, Auth.token_effect. cbn [Auth.token truthy_value].
    rewrite T. unfold Auth.fetchUser. cbn [run].
    destruct (backend seen (Auth.me_request BACKEND_URL)) as [u|d]; cbn.
    + split; [reflexivity|]. split.
      * intros u' H. injection H as <-. repeat split.
      * intros d H. discriminate.
    + split; [reflexivity|]. split.
      * intros u H. discriminate.
      * intros d' _. repeat split.
Qed.






Example number_to_string_sample :
  number_to_string 123 = js "123" /\
  number_to_string (-45) = js "-45" /\
  number_to_string 9007199254740993 = js "9007199254740992" /\
  number_to_string (10 ^ 21 - 1) = js "1e+21" /\
  number_to_string (2 ^ 70) = js "1.1805916207174113e+21" /\
  number_to_string (10 ^ 23) = js "1e+23" /\
  number_to_string (2 ^ 1024) = js "Infinity".
Proof. vm_compute. repeat split. Qed.

Example invite_null_body_sample :
  run (fun _ _ => Fulfilled JNull) []
      (invitePartner sample_url (setInviteCode (js "ABCD2345") sample_client))
  = (setInviteCode (js "ABCD2345") sample_client,
     [ Requested (axios_post (API sample_url ++ js "/invite-partner")
                    (Some (JObject [ (js "invite_code",
                                      JString (js "ABCD2345")) ])));
       Effect (ConsoleError (js "Failed to invite partner:"));
       Effect (Alert (js "Failed to invite partner")) ]) /\
  alerts_of (snd (run (fun _ _ => Fulfilled (JObject [ (js "partner_name",
                                                     JNumber (10 ^ 21)) ])) []
                    (invitePartner sample_url
                       (setInviteCode (js "ABCD2345") sample_client))))
  = [js "Partner linked successfully! Welcome 1e+21!"].
Proof. vm_compute. split; reflexivity. Qed.

Example submit_sample :
  run conflict_backend [] (Form.handleSubmit sample_url sample_form sample_auth)
    = ((Some (Form.setLoading false
                (Form.setError (js "Entry already exists for this date")
                   (Form.setLoading true sample_form))),
        sample_auth),
       [Requested (Auth.login_request sample_url (js "a@x") (js "pw"))]) /\
  fst (run friendly_backend []
           (Form.handleSubmit sample_url sample_form sample_auth))
    = (None,
       {| Auth.user := Some (JObject [ (js "name", JString (js "Alice")) ]);
          Auth.token := Some (JString (js "t1"));
          Auth.loading := false;
          Auth.stored_token := Some (js "t1");
          Auth.Authorization := Some (js "Bearer t1") |}).
Proof. split; reflexivity. Qed.
